(** * OpSync ingestion pipeline: a shallow embedding and its properties

    The development follows the repository's layout:
    - [Regex]: the fragment of ECMAScript regular expressions the sources use
      (backtracking matcher, [lastIndex] state of global RegExp objects,
      [String.prototype.replace]);
    - [Pg]: the PL/pgSQL functions of [createTables.ts] and of the database
      initialisation script;
    - [ExpenseModel]: the queries of [models/Expense.ts] over the table;
    - [Antivirus]: [AntivirusService] (heuristic scanner);
    - [Upload]: the invoice upload route ([normalizeAmount],
      [parseInvoiceData], the POST /api/upload/invoice handler).

    Strings are sequences of code units (JavaScript) or of characters
    (PostgreSQL), both represented as [list Z]; buffers are lists of bytes
    held in [Z]. *)

From Stdlib Require Import ZArith QArith String Ascii List Bool Lia.
From Stdlib Require Import Sorted Permutation.
Import ListNotations.

Local Open Scope Z_scope.

(** ** Text *)

Definition text := list Z.

Definition code (a : ascii) : Z := Z.of_N (N_of_ascii a).

(** ASCII literal to text. *)
Definition str (s : string) : text := map code (list_ascii_of_string s).

Fixpoint text_eqb (a b : text) : bool :=
  match a, b with
  | [], [] => true
  | x :: a', y :: b' => (x =? y) && text_eqb a' b'
  | _, _ => false
  end.

Fixpoint starts_with (p s : text) : bool :=
  match p, s with
  | [], _ => true
  | x :: p', y :: s' => (x =? y) && starts_with p' s'
  | _ :: _, [] => false
  end.

(** [String.prototype.includes], [Buffer.prototype.includes]: exact
    (case-sensitive) search for a contiguous occurrence. *)
Fixpoint includes (needle hay : text) : bool :=
  starts_with needle hay ||
  match hay with
  | [] => false
  | _ :: hay' => includes needle hay'
  end.

(** [String.prototype.lastIndexOf] for a single code unit; [None] stands
    for -1. *)
Fixpoint lastIndexOf_from (c : Z) (i : nat) (s : text) : option nat :=
  match s with
  | [] => None
  | x :: s' =>
      match lastIndexOf_from c (S i) s' with
      | Some j => Some j
      | None => if x =? c then Some i else None
      end
  end.

Definition lastIndexOf (c : Z) (s : text) : option nat := lastIndexOf_from c 0 s.

(** WhiteSpace and LineTerminator code units of ECMAScript: the set
    stripped by [trim] and matched by [\s]. *)
Definition white_ranges : list (Z * Z) :=
  [ (9, 13); (32, 32); (160, 160); (5760, 5760); (8192, 8202);
    (8232, 8233); (8239, 8239); (8287, 8287); (12288, 12288);
    (65279, 65279) ].

Definition in_ranges (rs : list (Z * Z)) (c : Z) : bool :=
  existsb (fun r => (fst r <=? c) && (c <=? snd r)) rs.

Definition is_space (c : Z) : bool := in_ranges white_ranges c.

Fixpoint trim_start (s : text) : text :=
  match s with
  | [] => []
  | c :: s' => if is_space c then trim_start s' else s
  end.

Definition trim_end (s : text) : text := rev (trim_start (rev s)).

Definition trim (s : text) : text := trim_end (trim_start s).

Definition is_upper (c : Z) : bool := (65 <=? c) && (c <=? 90).
Definition is_lower (c : Z) : bool := (97 <=? c) && (c <=? 122).
Definition is_digit (c : Z) : bool := (48 <=? c) && (c <=? 57).

Definition is_nil (s : text) : bool :=
  match s with [] => true | _ :: _ => false end.

(** ** Regular expressions *)

Module Regex.

Inductive regex : Type :=
| Eps
| Chr (c : Z)
| Any
| Cls (neg : bool) (ranges : list (Z * Z))
| Seq (a b : regex)
| Alt (a b : regex)
| Star (a : regex)
| Grp (n : nat) (a : regex)
| Eol.

(** Derived forms: [a?], [a+], [a{n}], [a{1,3}], a literal word, an
    alternation of several branches.  Quantifiers are greedy. *)
Definition Opt (a : regex) : regex := Alt a Eps.
Definition Plus (a : regex) : regex := Seq a (Star a).

Fixpoint Times (n : nat) (a : regex) : regex :=
  match n with
  | O => Eps
  | S n' => Seq a (Times n' a)
  end.

Definition Upto3 (a : regex) : regex := Seq a (Opt (Seq a (Opt a))).

Fixpoint Lit (w : text) : regex :=
  match w with
  | [] => Eps
  | c :: w' => Seq (Chr c) (Lit w')
  end.

Fixpoint Alts (rs : list regex) : regex :=
  match rs with
  | [] => Cls false []
  | [r] => r
  | r :: rs' => Alt r (Alts rs')
  end.

Definition digit : regex := Cls false [(48, 57)].
Definition space : regex := Cls false white_ranges.

(** Canonicalize of the ECMAScript specification (no [u] flag), on the
    characters that occur in the patterns of this program: an ASCII
    letter is compared through its upper-case form; a character
    outside ASCII never canonicalizes to an ASCII character and the
    non-ASCII pattern characters used here (currency signs) have no case
    variants, so it is compared as it is. *)
Definition canon (ic : bool) (c : Z) : Z :=
  if ic && is_lower c then c - 32 else c.

Definition swapcase (c : Z) : Z :=
  if is_lower c then c - 32 else if is_upper c then c + 32 else c.

Definition in_class (ic : bool) (rs : list (Z * Z)) (c : Z) : bool :=
  in_ranges rs c || (ic && in_ranges rs (swapcase c)).

(** Captures: the most recent binding of a group number comes first. *)
Definition caps := list (nat * text).

Fixpoint capture (n : nat) (c : caps) : option text :=
  match c with
  | [] => None
  | (m, t) :: c' => if Nat.eqb m n then Some t else capture n c'
  end.

Section Matcher.
Variable ic : bool.
Context {A : Type}.

(** Greedy iteration of a matcher [body] with [n] rounds left: one
    more round, and if that fails, the continuation.  A round that
    consumes nothing is rejected, as in RepeatMatcher of the
    ECMAScript specification. *)
Fixpoint star_loop
         (body : text -> caps -> (text -> caps -> option A) -> option A)
         (k : text -> caps -> option A)
         (n : nat) (s : text) (c : caps) {struct n} : option A :=
  match n with
  | O => k s c
  | S n' =>
      match body s c
                 (fun s' c' =>
                    if (length s' <? length s)%nat
                    then star_loop body k n' s' c' else None) with
      | Some x => Some x
      | None => k s c
      end
  end.

(** Backtracking matcher in continuation-passing style.  [s] is the
    rest of the input; the continuation receives what is left after
    the match.  Every round of [Star] consumes input, so
    [S (length s)] rounds are enough.  No pattern of this program has
    a group inside a quantifier or a back-reference. *)
Fixpoint rm (r : regex) (s : text) (c : caps)
         (k : text -> caps -> option A) {struct r} : option A :=
  match r with
  | Eps => k s c
  | Chr x =>
      match s with
      | y :: t => if canon ic x =? canon ic y then k t c else None
      | [] => None
      end
  | Any =>
      match s with
      | _ :: t => k t c
      | [] => None
      end
  | Cls neg rs =>
      match s with
      | y :: t => if xorb neg (in_class ic rs y) then k t c else None
      | [] => None
      end
  | Seq a b => rm a s c (fun s' c' => rm b s' c' k)
  | Alt a b =>
      match rm a s c k with
      | Some x => Some x
      | None => rm b s c k
      end
  | Star a => star_loop (rm a) k (S (length s)) s c
  | Grp n a =>
      rm a s c
         (fun s' c' =>
            k s' ((n, firstn (length s - length s') s) :: c'))
  | Eol =>
      match s with
      | [] => k s c
      | _ :: _ => None
      end
  end.
End Matcher.

(** A match: start index, end index, captures. *)
Record found : Type := Found { m_start : nat; m_end : nat; m_caps : caps }.

Definition match_here (ic : bool) (r : regex) (i : nat) (s : text)
  : option found :=
  rm ic r s []
     (fun s' c => Some (Found i (i + (length s - length s')) c)).

(** Leftmost match at or after position [i]; [s] is the input from [i]
    on. *)
Fixpoint search (ic : bool) (r : regex) (i : nat) (s : text)
  : option found :=
  match match_here ic r i s with
  | Some m => Some m
  | None =>
      match s with
      | [] => None
      | _ :: s' => search ic r (S i) s'
      end
  end.

(** A RegExp object: its source text, the pattern, its flags and the
    mutable [lastIndex]. *)
Record RegExp : Type := mkRegExp {
  source : string;
  pattern : regex;
  global : bool;
  ignoreCase : bool;
  lastIndex : nat
}.

Definition regexp (src : string) (r : regex) (g i : bool) : RegExp :=
  mkRegExp src r g i 0.

Definition set_lastIndex (re : RegExp) (n : nat) : RegExp :=
  mkRegExp (source re) (pattern re) (global re) (ignoreCase re) n.

(** RegExpBuiltinExec: a global RegExp starts at [lastIndex] and
    leaves the end of the match there, or 0 after a failure; other
    RegExps start at 0 and leave [lastIndex] alone. *)
Definition exec (re : RegExp) (s : text) : option found * RegExp :=
  let start := if global re then lastIndex re else O in
  if (length s <? start)%nat then (None, set_lastIndex re 0)
  else
    match search (ignoreCase re) (pattern re) start (skipn start s) with
    | Some m =>
        (Some m, if global re then set_lastIndex re (m_end m) else re)
    | None => (None, if global re then set_lastIndex re 0 else re)
    end.

Definition test (re : RegExp) (s : text) : bool * RegExp :=
  match exec re s with
  | (Some _, re') => (true, re')
  | (None, re') => (false, re')
  end.

(** [s.replace(re, f)] for a global [re] and a replacer function [f]
    of the matched text and its offset: every match, left to right,
    starting at 0; after an empty match the search resumes one code
    unit further.  [s] is the input from [pos] on. *)
Fixpoint replace_from (fuel : nat) (ic : bool) (r : regex)
         (f : text -> nat -> text) (pos : nat) (s : text) : text :=
  match fuel with
  | O => s
  | S fuel' =>
      match search ic r pos s with
      | None => s
      | Some m =>
          let before := firstn (m_start m - pos) s in
          let matched :=
            firstn (m_end m - m_start m) (skipn (m_start m - pos) s) in
          let rest := skipn (m_end m - pos) s in
          if Nat.eqb (m_end m) (m_start m) then
            match rest with
            | [] => before ++ f matched (m_start m)
            | x :: rest' =>
                before ++ f matched (m_start m) ++ x ::
                replace_from fuel' ic r f (S (m_end m)) rest'
            end
          else
            before ++ f matched (m_start m) ++
            replace_from fuel' ic r f (m_end m) rest
      end
  end.

Definition replace_all (re : RegExp) (f : text -> nat -> text) (s : text)
  : text :=
  replace_from (S (length s)) (ignoreCase re) (pattern re) f 0 s.

End Regex.

Import Regex.

(** ** PostgreSQL functions and the expense table *)

Module Pg.

Inductive sensitivity : Type := LOW | MEDIUM | HIGH.

Definition sensitivity_eqb (a b : sensitivity) : bool :=
  match a, b with
  | LOW, LOW | MEDIUM, MEDIUM | HIGH, HIGH => true
  | _, _ => false
  end.

(** String functions.  [LOWER] is modelled on ASCII letters; the case
    mapping of other characters depends on the database locale and is
    taken as the identity. *)
Definition LENGTH (s : text) : Z := Z.of_nat (length s).
Definition LEFT (s : text) (n : Z) : text := firstn (Z.to_nat n) s.
Definition RIGHT (s : text) (n : Z) : text :=
  skipn (length s - Z.to_nat n) s.
Definition REPEAT (s : text) (n : Z) : text :=
  concat (repeat s (Z.to_nat n)).
Definition lower_char (c : Z) : Z := if is_upper c then c + 32 else c.
Definition LOWER (s : text) : text := map lower_char s.

(** [s ~ '.*(k1|...|kn).*']: a regular-expression match, not anchored. *)
Definition contains_any (keywords : list string) : regex :=
  Seq (Star Any) (Seq (Alts (map (fun k => Lit (str k)) keywords)) (Star Any)).

Definition regex_match (s : text) (r : regex) : bool :=
  match search false r 0 s with
  | Some _ => true
  | None => false
  end.

Definition star : text := str "*".

(** [mask_provider_name] of createTables.ts. *)
Definition mask_provider_name (provider_name : text)
           (sensitivity_level : sensitivity) : text :=
  match sensitivity_level with
  | HIGH =>
      if LENGTH provider_name <=? 3 then str "***"
      else LEFT provider_name 2
           ++ REPEAT star (LENGTH provider_name - 3)
           ++ RIGHT provider_name 1
  | MEDIUM =>
      if LENGTH provider_name <=? 5 then provider_name
      else LEFT provider_name 3
           ++ REPEAT star (LENGTH provider_name - 6)
           ++ RIGHT provider_name 3
  | LOW => provider_name
  end.

Definition high_keywords : list string :=
  [ "security"; "defense"; "military"; "government"; "health"; "medical";
    "bank"; "finance"; "crypto"; "anthropic"; "openai"; "claude" ]%string.

Definition medium_keywords : list string :=
  [ "aws"; "amazon"; "gcp"; "google"; "azure"; "microsoft"; "hosting";
    "server"; "cloud" ]%string.

(** [get_provider_sensitivity] of createTables.ts. *)
Definition get_provider_sensitivity (provider_name : text) : sensitivity :=
  if regex_match (LOWER provider_name) (contains_any high_keywords)
  then HIGH
  else if regex_match (LOWER provider_name) (contains_any medium_keywords)
  then MEDIUM
  else LOW.

(** Amounts are DECIMAL(_,2) values, held as a number of hundredths. *)
Definition units (n : Z) : Z := n * 100.

Definition timestamp := Z.

(** An interval has a month part and a day part: [INTERVAL '1 year'] is
    twelve months, [INTERVAL '90 days'] ninety days. *)
Record pg_interval : Type := Interval { months : Z; days : Z }.

Definition one_year : pg_interval := Interval 12 0.
Definition ninety_days : pg_interval := Interval 0 90.

(** [base + interval]; the sum is calendar arithmetic in PostgreSQL and
    is kept as it is written. *)
Record ts_sum : Type := TsPlus { base : timestamp; offset : pg_interval }.

Inductive file_policy : Type := KEEP | DELETE.

(** A row of [expenses], with the columns the triggers and the queries
    of [ExpenseModel] read or write ([None] is NULL). *)
Record expense : Type := mkExpense {
  id : Z;
  provider_name : text;
  provider_masked_name : option text;
  amount : Z;
  date : Z;
  category : option text;
  sensitivity_level : sensitivity;
  file_id : option Z;
  file_path : option text;
  file_retention_policy : option file_policy;
  created_by : option Z;
  created_at : timestamp;
  updated_at : timestamp;
  retention_until : option ts_sum
}.

Definition set_sensitivity_level (r : expense) (s : sensitivity) : expense :=
  mkExpense (id r) (provider_name r) (provider_masked_name r) (amount r)
    (date r) (category r) s (file_id r) (file_path r)
    (file_retention_policy r) (created_by r) (created_at r) (updated_at r)
    (retention_until r).

Definition set_provider_masked_name (r : expense) (m : option text)
  : expense :=
  mkExpense (id r) (provider_name r) m (amount r)
    (date r) (category r) (sensitivity_level r) (file_id r) (file_path r)
    (file_retention_policy r) (created_by r) (created_at r) (updated_at r)
    (retention_until r).

Definition set_file_retention_policy (r : expense) (p : option file_policy)
  : expense :=
  mkExpense (id r) (provider_name r) (provider_masked_name r) (amount r)
    (date r) (category r) (sensitivity_level r) (file_id r) (file_path r)
    p (created_by r) (created_at r) (updated_at r) (retention_until r).

Definition set_updated_at (r : expense) (t : timestamp) : expense :=
  mkExpense (id r) (provider_name r) (provider_masked_name r) (amount r)
    (date r) (category r) (sensitivity_level r) (file_id r) (file_path r)
    (file_retention_policy r) (created_by r) (created_at r) t
    (retention_until r).

Definition set_retention_until (r : expense) (u : option ts_sum) : expense :=
  mkExpense (id r) (provider_name r) (provider_masked_name r) (amount r)
    (date r) (category r) (sensitivity_level r) (file_id r) (file_path r)
    (file_retention_policy r) (created_by r) (created_at r) (updated_at r)
    u.

Definition set_file_path (r : expense) (p : option text) : expense :=
  mkExpense (id r) (provider_name r) (provider_masked_name r) (amount r)
    (date r) (category r) (sensitivity_level r) (file_id r) p
    (file_retention_policy r) (created_by r) (created_at r) (updated_at r)
    (retention_until r).

(** Trigger function [set_expense_defaults] of createTables.ts, run
    BEFORE INSERT OR UPDATE on [expenses]; [now] is CURRENT_TIMESTAMP. *)
Definition set_expense_defaults (now : timestamp) (NEW : expense) : expense :=
  let NEW :=
    if sensitivity_eqb (sensitivity_level NEW) LOW
    then set_sensitivity_level NEW
           (get_provider_sensitivity (provider_name NEW))
    else NEW in
  let NEW :=
    if sensitivity_eqb (sensitivity_level NEW) HIGH
    then set_provider_masked_name NEW
           (Some (mask_provider_name (provider_name NEW)
                    (sensitivity_level NEW)))
    else NEW in
  let NEW :=
    match file_id NEW with
    | Some _ =>
        if sensitivity_eqb (sensitivity_level NEW) HIGH
           || (units 1000 <? amount NEW)
        then set_file_retention_policy NEW (Some KEEP)
        else set_file_retention_policy NEW (Some DELETE)
    | None => NEW
    end in
  set_updated_at NEW now.

(** First statement of the trigger function [set_expense_retention] of
    the initialisation script: the retention horizon. *)
Definition retention_rule (NEW : expense) : expense :=
  if (units 20000 <=? amount NEW)
     || sensitivity_eqb (sensitivity_level NEW) HIGH
  then set_retention_until NEW None
  else if units 5000 <=? amount NEW
  then set_retention_until NEW (Some (TsPlus (created_at NEW) one_year))
  else set_retention_until NEW (Some (TsPlus (created_at NEW) ninety_days)).

Section InitScript.
(** [MD5] is a built-in of the database server. *)
Variable MD5 : text -> text.



End InitScript.

(** Storing a text in a VARCHAR(n) column: a longer text is an error,
    unless the characters beyond the n-th are all spaces, and then the
    first n are stored. *)
Definition VARCHAR (n : nat) (s : text) : option text :=
  if (length s <=? n)%nat then Some s
  else if forallb (fun c => c =? 32) (skipn n s) then Some (firstn n s)
  else None.

(** Storing an amount, a number of hundredths, in a DECIMAL(p,2) column:
    it overflows when it has more than p digits. *)
Definition DECIMAL (p : Z) (a : Z) : option Z :=
  if Z.abs a <? 10 ^ p then Some a else None.

(** The retention decision for the uploaded file of a row, read off the
    two columns the triggers set: a file whose policy is DELETE is
    discarded; a file that is kept is held until [retention_until], and
    for ever when that is NULL. *)
Inductive RetentionDecision : Type :=
| DELETE_IMMEDIATELY
| HOLD_TEMPORARY (horizon : pg_interval)
| HOLD_PERMANENT.

Definition decision_of (r : expense) : RetentionDecision :=
  match file_retention_policy r with
  | Some DELETE => DELETE_IMMEDIATELY
  | _ =>
      match retention_until r with
      | None => HOLD_PERMANENT
      | Some (TsPlus _ horizon) => HOLD_TEMPORARY horizon
      end
  end.

(** A fresh row for an uploaded file, with the given amount, sensitivity
    and creation time. *)
Definition row_of (a : Z) (s : sensitivity) (t : timestamp) : expense :=
  mkExpense 0 [] None a 0 None s (Some 0) None (Some DELETE) None t t None.

(** The decision the two triggers take on such a row:
    [set_expense_defaults] sets the policy of the file, and the retention
    rule of [set_expense_retention] the horizon. *)
Definition decide (a : Z) (s : sensitivity) (t : timestamp)
  : RetentionDecision :=
  decision_of (retention_rule (set_expense_defaults t (row_of a s t))).

End Pg.

Import Pg.

(** ** ExpenseModel: the queries of models/Expense.ts over the table *)

Module ExpenseModel.

Record database : Type := mkDatabase {
  expenses : list expense;
  next_id : Z
}.

(** SQL [LIKE]: [%] is any sequence, [_] any one character and a
    backslash makes the next character literal. *)
Fixpoint like (p s : text) {struct p} : bool :=
  match p with
  | [] => match s with [] => true | _ :: _ => false end
  | c :: p' =>
      if c =? 37 then
        (fix any (s : text) : bool :=
           like p' s || match s with [] => false | _ :: s' => any s' end) s
      else if c =? 95 then
        match s with _ :: s' => like p' s' | [] => false end
      else if c =? 92 then
        match p' with
        | [] => false
        | e :: p'' =>
            match s with y :: s' => (e =? y) && like p'' s' | [] => false end
        end
      else
        match s with y :: s' => (c =? y) && like p' s' | [] => false end
  end.

Definition ILIKE (s p : text) : bool := like (LOWER p) (LOWER s).

(** The optional filters of [findAll]; an absent or empty string is
    the empty text, an absent number is [None]. *)
Record filters : Type := mkFilters {
  startDate : option Z;
  endDate : option Z;
  provider : text;
  category_is : text;
  minAmount : option Z;
  maxAmount : option Z;
  showMasked : bool
}.

Definition no_filters : filters := mkFilters None None [] [] None None false.


(** WHERE clause built by [findAll]; a condition is added only for a
    truthy filter (a number filter equal to 0 is skipped). *)
Definition where_clause (userId : Z) (f : filters) (r : expense) : bool :=
  (match created_by r with Some u => u =? userId | None => true end)
  && (match startDate f with Some d => d <=? date r | None => true end)
  && (match endDate f with Some d => date r <=? d | None => true end)
  && (if is_nil (provider f) then true
      else
        let p := str "%" ++ provider f ++ str "%" in
        ILIKE (provider_name r) p
        || match provider_masked_name r with
           | Some m => ILIKE m p
           | None => false
           end)
  && (if is_nil (category_is f) then true
      else match category r with
           | Some c => text_eqb c (category_is f)
           | None => false
           end)
  && (match minAmount f with
      | Some m => if m =? 0 then true else m <=? amount r
      | None => true
      end)
  && (match maxAmount f with
      | Some m => if m =? 0 then true else amount r <=? m
      | None => true
      end).

Section Sorting.
Context {A : Type}.
Variable before : A -> A -> bool.

(** Insertion sort by a strict order [before]; rows that compare equal
    keep the order of the table (SQL leaves their order open). *)
Fixpoint insert_sorted (x : A) (l : list A) : list A :=
  match l with
  | [] => [x]
  | y :: l' => if before y x then y :: insert_sorted x l' else x :: l
  end.

Fixpoint order_by (l : list A) : list A :=
  match l with
  | [] => []
  | x :: l' => insert_sorted x (order_by l')
  end.
End Sorting.

(** The select list: every column ([*]) when [showMasked], and otherwise
    a list of columns that leaves out [file_path] only. *)
Definition select_fields (f : filters) (r : expense) : expense :=
  if showMasked f then r else set_file_path r None.

Definition findAll (db : database) (userId : Z) (f : filters)
  : list expense :=
  map (select_fields f)
      (order_by (fun a b => date b <? date a)
                (filter (where_clause userId f) (expenses db))).

(** The request body of [create], on the columns of the record: the
    amount is a number of hundredths and the date a date the server reads
    as one; [description], [due_date] and [tags] are columns the record
    does not hold, and they are taken to be values the server accepts.  A
    text is a sequence of characters the server stores (no NUL). *)
Record ExpenseCreateRequest : Type := mkCreate {
  req_provider_name : text;
  req_amount : Z;
  req_date : Z;
  req_category : option text;
  req_currency : option text
}.

(** How a call of the model can fail: [update] throws its own error, and
    the server rejects a statement whose values do not fit the columns. *)
Inductive failure : Type :=
| No_fields_to_update
| Database_error.

(** [data.currency || 'USD']: an absent or empty currency is 'USD'. *)
Definition currency_or_default (currency : option text) : text :=
  match currency with
  | Some (c :: cs) => c :: cs
  | _ => str "USD"
  end.

(** The INSERT of [create] on values the columns hold as they are: the
    row passes the trigger [set_expense_defaults] and is returned, and the
    table has it as its last row. *)
Definition inserted (now : timestamp) (db : database)
           (data : ExpenseCreateRequest) (userId : Z)
  : expense * database :=
  let sensitivityLevel := get_provider_sensitivity (req_provider_name data) in
  let NEW :=
    mkExpense (next_id db) (req_provider_name data) None (req_amount data)
      (req_date data) (req_category data) sensitivityLevel None None
      (Some DELETE) (Some userId) now now None in
  let row := set_expense_defaults now NEW in
  (row, mkDatabase (expenses db ++ [row]) (next_id db + 1)).

(** [create]: the sensitivity comes from [get_provider_sensitivity] on the
    name of the request; the values of the INSERT are stored in columns
    VARCHAR(255) (provider_name), DECIMAL(precision,2) (amount),
    VARCHAR(3) (currency, 'USD' when absent) and VARCHAR(100) (category),
    and the statement fails when one of them does not fit; [precision] is
    10 in createTables.ts and 15 in the migration of database.ts.
    [userId] is the id of the authenticated user, a row of [users]. *)
Definition create (precision : Z) (now : timestamp) (db : database)
           (data : ExpenseCreateRequest) (userId : Z)
  : failure + (expense * database) :=
  let sensitivityLevel := get_provider_sensitivity (req_provider_name data) in
  match VARCHAR 255 (req_provider_name data),
        DECIMAL precision (req_amount data),
        VARCHAR 3 (currency_or_default (req_currency data)),
        match req_category data with
        | Some c => option_map Some (VARCHAR 100 c)
        | None => Some None
        end
  with
  | Some provider, Some amount_, Some _, Some category_ =>
      let NEW :=
        mkExpense (next_id db) provider None amount_ (req_date data)
          category_ sensitivityLevel None None (Some DELETE) (Some userId)
          now now None in
      let row := set_expense_defaults now NEW in
      inr (row, mkDatabase (expenses db ++ [row]) (next_id db + 1))
  | _, _, _, _ => inl Database_error
  end.

(** A row of the "top providers" query of [getStats]. *)
Record provider_row : Type := mkProviderRow {
  p_provider : text;
  p_total : Z;
  p_count : Z;
  p_is_masked : bool
}.

Fixpoint add_to_group (r : expense) (gs : list provider_row)
  : list provider_row :=
  match gs with
  | [] => [mkProviderRow (provider_name r) (amount r) 1 false]
  | g :: gs' =>
      if text_eqb (p_provider g) (provider_name r)
      then mkProviderRow (p_provider g) (p_total g + amount r)
             (p_count g + 1) false :: gs'
      else g :: add_to_group r gs'
  end.

(** GROUP BY provider_name, with SUM(amount), COUNT and
    [false as is_masked]. *)
Definition group_by_provider (rows : list expense) : list provider_row :=
  fold_left (fun gs r => add_to_group r gs) rows [].

Definition top_providers_query (db : database) (userId : Z)
  : list provider_row :=
  firstn 5
    (order_by (fun a b => p_total b <? p_total a)
       (group_by_provider
          (filter (where_clause userId no_filters) (expenses db)))).

(** An entry of [topProviders] in the result of [getStats]. *)
Record top_provider : Type := mkTop {
  name : text;
  total : Z;
  count : Z;
  masked : bool
}.

Definition getStats_topProviders (db : database) (userId : Z)
  : list top_provider :=
  map (fun p => mkTop (p_provider p) (p_total p) (p_count p) (p_is_masked p))
      (top_providers_query db userId).

(** [created_by = $1 OR created_by IS NULL]: the rows a user may see,
    his own and those no user created. *)
Definition visible_to (userId : Z) (r : expense) : bool :=
  match created_by r with Some u => u =? userId | None => true end.

(** [findById]: the first row of
    [SELECT * FROM expenses WHERE id = $1 AND (created_by = $2 OR created_by
    IS NULL)], or null. *)
Definition findById (db : database) (id_ userId : Z) : option expense :=
  hd_error
    (filter (fun r => (id r =? id_) && visible_to userId r) (expenses db)).

(** [delete]: the rows with this id that the user may see are removed;
    the result tells whether there was one ([rowCount > 0]). *)
Definition delete (db : database) (id_ userId : Z) : bool * database :=
  let hit := fun r => (id r =? id_) && visible_to userId r in
  (negb (Nat.eqb (length (filter hit (expenses db))) 0),
   mkDatabase (filter (fun r => negb (hit r)) (expenses db)) (next_id db)).

(** The first query of [getStats]: COUNT and SUM(amount) over the rows
    the user may see; [totalAmount] is 0 when the sum is NULL. *)
Definition getStats_totals (db : database) (userId : Z) : Z * Z :=
  let rows := filter (visible_to userId) (expenses db) in
  (Z.of_nat (length rows), fold_right Z.add 0 (map Pg.amount rows)).









End ExpenseModel.

(** ** AntivirusService *)

Module Antivirus.

Definition Buffer := list Z.

Record ScanResult : Type := mkScanResult {
  isClean : bool;
  threats : list string;
  scanTime : Z
}.

(** [buffer.toString('hex')]. *)
Definition hex_digit (n : Z) : Z := if n <? 10 then 48 + n else 87 + n.

Definition hex (b : Buffer) : text :=
  flat_map (fun x => [hex_digit (x / 16); hex_digit (x mod 16)]) b.

(** [buffer.toString('utf8')]: the decoder of the Encoding standard,
    which puts U+FFFD for every maximal ill-formed part, followed by the
    UTF-16 encoding of the code points.  The state is what is still
    needed of a multi-byte sequence: bytes to come, code point so far and
    the bounds of the next byte. *)
Definition utf8_state : Type := (nat * Z * Z * Z)%type.

Definition utf8_lead (b : Z) : list Z * option utf8_state :=
  if b <=? 127 then ([b], None)
  else if (194 <=? b) && (b <=? 223)
  then ([], Some (1%nat, Z.land b 31, 128, 191))
  else if (224 <=? b) && (b <=? 239)
  then ([], Some (2%nat, Z.land b 15,
                  if b =? 224 then 160 else 128,
                  if b =? 237 then 159 else 191))
  else if (240 <=? b) && (b <=? 244)
  then ([], Some (3%nat, Z.land b 7,
                  if b =? 240 then 144 else 128,
                  if b =? 244 then 143 else 191))
  else ([65533], None).

Definition utf8_step (st : option utf8_state) (b : Z)
  : list Z * option utf8_state :=
  match st with
  | None => utf8_lead b
  | Some (n, cp, lo, hi) =>
      if (lo <=? b) && (b <=? hi) then
        let cp' := Z.lor (Z.shiftl cp 6) (Z.land b 63) in
        match n with
        | S (S n') => ([], Some (S n', cp', 128, 191))
        | _ => ([cp'], None)
        end
      else
        let (out, st') := utf8_lead b in (65533 :: out, st')
  end.

Fixpoint utf8_decode (st : option utf8_state) (b : Buffer) : list Z :=
  match b with
  | [] => match st with None => [] | Some _ => [65533] end
  | x :: b' =>
      let (out, st') := utf8_step st x in out ++ utf8_decode st' b'
  end.

Definition utf16_units (cp : Z) : text :=
  if cp <? 65536 then [cp]
  else [55296 + Z.shiftr (cp - 65536) 10; 56320 + Z.land (cp - 65536) 1023].

Definition toString_utf8 (b : Buffer) : text :=
  flat_map utf16_units (utf8_decode None b).

(** [String.prototype.toLowerCase].  The mappings that involve ASCII are
    modelled: A-Z, U+0130 (to "i" and U+0307) and U+212A (to "k"); the
    other case pairs map a character outside ASCII to a character
    outside ASCII that is no white space, and the patterns of this
    module, written in ASCII, do not tell such characters apart. *)
Definition lower_unit (c : Z) : text :=
  if is_upper c then [c + 32]
  else if c =? 304 then [105; 775]
  else if c =? 8490 then [107]
  else [c].

Definition toLowerCase (s : text) : text := flat_map lower_unit s.

Definition EXECUTABLE_EMBEDDED : string :=
  "EXECUTABLE_EMBEDDED: Document contains executable code".

(** [checkFileSignatures]: the hexadecimal form of the first 16 bytes is
    searched for "4d5a" and "7f454c46". *)
Definition checkFileSignatures (buffer : Buffer) : list string :=
  let header := hex (firstn 16 buffer) in
  if includes (str "4d5a") header || includes (str "7f454c46") header
  then [EXECUTABLE_EMBEDDED]
  else [].

Definition isPotentialMacroDocument (mimeType : string) (buffer : Buffer)
  : bool :=
  String.eqb mimeType "application/pdf"
  || includes (str "macro") buffer
  || includes (str "script") buffer.

Definition lit (src : string) (w : string) : RegExp :=
  regexp src (Lit (str w)) true true.

Definition a_to_z : list (Z * Z) := [(97, 122)].

Definition macroPatterns : list RegExp :=
  [ lit "\/javascript" "/javascript";
    regexp "\/js[^a-z]" (Seq (Lit (str "/js")) (Cls true a_to_z)) true true;
    lit "activexobject" "activexobject";
    lit "shell\.application" "shell.application";
    lit "wscript\.shell" "wscript.shell";
    regexp "eval\s*\(" (Seq (Lit (str "eval")) (Seq (Star space) (Chr 40)))
           true true;
    lit "document\.write" "document.write";
    lit "fromcharcode" "fromcharcode";
    lit "vbscript" "vbscript";
    regexp "macro[a-z]*\s*="
           (Seq (Lit (str "macro"))
                (Seq (Star (Cls false a_to_z)) (Seq (Star space) (Chr 61))))
           true true ].

Definition suspiciousPatterns : list RegExp :=
  [ lit "powershell" "powershell";
    lit "cmd\.exe" "cmd.exe";
    lit "rundll32" "rundll32";
    lit "regsvr32" "regsvr32";
    lit "certutil" "certutil";
    lit "bitsadmin" "bitsadmin";
    lit "mshta" "mshta";
    lit "cscript" "cscript";
    lit "wscript" "wscript";
    lit "net\.webclient" "net.webclient";
    lit "system\.diagnostics\.process" "system.diagnostics.process";
    lit "base64" "base64";
    lit "frombase64string" "frombase64string" ].

(** [for (const pattern of patterns) if (pattern.test(content))
    threats.push(tag pattern)]: the threats pushed and the array of
    RegExp objects as the loop leaves it. *)
Fixpoint push_matching (tag : RegExp -> string) (patterns : list RegExp)
         (content : text) : list string * list RegExp :=
  match patterns with
  | [] => ([], [])
  | p :: ps =>
      let (hit, p') := test p content in
      let (ts, ps') := push_matching tag ps content in
      ((if hit then [tag p'] else []) ++ ts, p' :: ps')
  end.

(** [patterns.filter(pattern => pattern.test(content))]. *)
Fixpoint filter_matching (patterns : list RegExp) (content : text)
  : list RegExp :=
  match patterns with
  | [] => []
  | p :: ps =>
      let (hit, p') := test p content in
      if hit then p' :: filter_matching ps content
      else filter_matching ps content
  end.

Definition macro_tag (pattern : RegExp) : string :=
  "MACRO_DETECTED: Suspicious macro or script detected ("
    ++ source pattern ++ ")".

Definition checkForMacros (buffer : Buffer) : list string :=
  let content := toLowerCase (toString_utf8 buffer) in
  fst (push_matching macro_tag macroPatterns content).

Definition suspicious_tag (pattern : RegExp) : string :=
  "SUSPICIOUS_PATTERN: Potentially malicious pattern detected ("
    ++ source pattern ++ ")".

Definition HIGH_RISK : string :=
  "HIGH_RISK: Multiple suspicious patterns detected".

(** [checkSuspiciousPatterns]: the [filter] runs on the RegExp objects
    the loop has already tested, with the [lastIndex] it left in them. *)
Definition checkSuspiciousPatterns (buffer : Buffer) : list string :=
  let content := toLowerCase (toString_utf8 buffer) in
  let (threats, patterns) :=
    push_matching suspicious_tag suspiciousPatterns content in
  let matches := filter_matching patterns content in
  if (3 <=? length matches)%nat then threats ++ [HIGH_RISK] else threats.

(** [calculateEntropy(buffer) > 7.5], in exact arithmetic.  With [n] the
    length and [c v] the number of bytes equal to [v], the entropy is
    [log2 n - (sum of c v * log2 (c v)) / n], so it exceeds 15/2 exactly
    when [n ^ (2 n) > 2 ^ (15 n) * product of (c v) ^ (2 c v)].  The
    source evaluates the same comparison in double precision. *)
Definition frequency (buffer : Buffer) (v : Z) : Z :=
  Z.of_nat (count_occ Z.eq_dec buffer v).

Definition entropy_above_7_5 (buffer : Buffer) : bool :=
  let n := Z.of_nat (length buffer) in
  let prod :=
    fold_left (fun acc v =>
                 let c := frequency buffer (Z.of_nat v) in
                 acc * c ^ (2 * c))
              (seq 0 256) 1 in
  2 ^ (15 * n) * prod <? n ^ (2 * n).

Definition SIZE_ANOMALY : string :=
  "SIZE_ANOMALY: Image file unusually large for type".

Definition STEGANOGRAPHY_RISK : string :=
  "STEGANOGRAPHY_RISK: Image has high entropy, may contain hidden data".

Definition checkFileSizeAnomalies (buffer : Buffer) (mimeType : string)
  : list string :=
  let size := Z.of_nat (length buffer) in
  (if String.eqb mimeType "image/png" && (50 * 1024 * 1024 <? size)
   then [SIZE_ANOMALY] else [])
  ++ (if String.eqb mimeType "image/jpeg" && (100 * 1024 * 1024 <? size)
      then [SIZE_ANOMALY] else [])
  ++ (if String.prefix "image/" mimeType && (10 * 1024 * 1024 <? size)
      then if entropy_above_7_5 buffer then [STEGANOGRAPHY_RISK] else []
      else []).

(** Completion of a call: a value, or a thrown exception. *)
Inductive completion (A : Type) : Type :=
| Normal (a : A)
| Thrown (e : string).
Arguments Normal {A} a.
Arguments Thrown {A} e.

Definition bind {A B : Type} (m : completion A) (f : A -> completion B)
  : completion B :=
  match m with
  | Normal a => f a
  | Thrown e => Thrown e
  end.

Notation "x <- m ;; f" := (bind m (fun x => f))
  (at level 61, m at next level, right associativity).

Definition SCAN_ERROR : string :=
  "SCAN_ERROR: Unable to complete security scan".

Section TryCatch.
(** The checks as [scanFile] calls them: a call completes with its
    list of threats or throws. *)
Variable signatures : Buffer -> completion (list string).
Variable potentialMacro : string -> Buffer -> completion bool.
Variable macros : Buffer -> completion (list string).
Variable patterns : Buffer -> completion (list string).
Variable sizeAnomalies : Buffer -> string -> completion (list string).

(** The body of the [try] block, up to the list of threats. *)
Definition scan_checks (buffer : Buffer) (mimeType : string)
  : completion (list string) :=
  signatureThreats <- signatures buffer ;;
  potential <- potentialMacro mimeType buffer ;;
  macroThreats <- (if potential then macros buffer else Normal []) ;;
  patternThreats <- patterns buffer ;;
  sizeThreats <- sizeAnomalies buffer mimeType ;;
  Normal (signatureThreats ++ macroThreats ++ patternThreats
          ++ sizeThreats).

(** [scanFile] with its [try]/[catch]; [startTime] and [endTime] are the
    two readings of [Date.now()]. *)
Definition scanFile_with (startTime endTime : Z) (buffer : Buffer)
           (filename mimeType : string) : ScanResult :=
  match scan_checks buffer mimeType with
  | Normal threats =>
      mkScanResult (Nat.eqb (length threats) 0) threats
                   (endTime - startTime)
  | Thrown _ =>
      mkScanResult false [SCAN_ERROR] (endTime - startTime)
  end.
End TryCatch.

(** [AntivirusService.scanFile]. *)
Definition scanFile : Z -> Z -> Buffer -> string -> string -> ScanResult :=
  scanFile_with
    (fun b => Normal (checkFileSignatures b))
    (fun m b => Normal (isPotentialMacroDocument m b))
    (fun b => Normal (checkForMacros b))
    (fun b => Normal (checkSuspiciousPatterns b))
    (fun b m => Normal (checkFileSizeAnomalies b m)).

Definition string_includes (s sub : string) : bool :=
  includes (str sub) (str s).

Definition getSecurityRecommendation (scanResult : ScanResult) : string :=
  if isClean scanResult
  then "File passed security scan - safe to process"
  else
    let threatCount := length (threats scanResult) in
    if Nat.eqb threatCount 1
       && match threats scanResult with
          | t :: _ => string_includes t "SUSPICIOUS_PATTERN"
          | [] => false
          end
    then "File contains potentially suspicious content - review before processing"
    else if (3 <=? threatCount)%nat
            || existsb (fun t => string_includes t "HIGH_RISK")
                       (threats scanResult)
    then "File contains multiple security threats - DO NOT PROCESS"
    else "File contains security concerns - proceed with caution".

End Antivirus.

Import Antivirus.

(** ** The database helpers (config/database.ts) *)

Module Database.

(** The calls [query] and [transaction] make, in the order they make
    them: [pool.connect()], [client.query(text)], the callback of a
    transaction, and [client.release()]. *)
Inductive event : Type :=
| Connect
| Query (text : string)
| Callback
| Release.

Definition event_eq_dec (a b : event) : {a = b} + {a <> b}.
Proof. decide equality. apply string_dec. Defined.

(** An asynchronous computation: the calls it made and how it
    completed. *)
Definition io (A : Type) : Type := (list event * completion A)%type.

Definition pure {A : Type} (a : A) : io A := ([], Normal a).

Definition raise {A : Type} (e : string) : io A := ([], Thrown e).

(** [const x = await m; f x]. *)
Definition andThen {A B : Type} (m : io A) (f : A -> io B) : io B :=
  match m with
  | (t, Normal a) => let (t', r) := f a in (t ++ t', r)
  | (t, Thrown e) => (t, Thrown e)
  end.

(** [try { m } catch (error) { handler error }]. *)
Definition tryCatch {A : Type} (m : io A) (handler : string -> io A) : io A :=
  match m with
  | (t, Normal a) => (t, Normal a)
  | (t, Thrown e) => let (t', r) := handler e in (t ++ t', r)
  end.

(** [try { m } finally { f }]: [f] runs however [m] completes, and the
    completion of [m] stands unless [f] throws. *)
Definition tryFinally {A : Type} (m : io A) (f : io unit) : io A :=
  let (t, r) := m in
  match f with
  | (t', Normal _) => (t ++ t', r)
  | (t', Thrown e) => (t ++ t', Thrown e)
  end.

Section Pool.
(** The pool and its client: whether [pool.connect()] succeeds, and how
    [client.query] completes on a statement. *)
Context {R : Type}.
Variable pool_connect : completion unit.
Variable client_query : string -> completion R.

Definition connect : io unit := ([Connect], pool_connect).
Definition run (text : string) : io R := ([Query text], client_query text).

(** [client.release()] hands the client back to the pool; on a client
    that is released once it completes normally. *)
Definition release : io unit := ([Release], Normal tt).

(** [query]. *)
Definition query (text : string) : io R :=
  andThen connect (fun _ =>
    tryFinally (andThen (run text) (fun result => pure result)) release).

(** [transaction]; the callback is one call, however many statements it
    runs on the client. *)
Definition transaction {A : Type} (callback : completion A) : io A :=
  andThen connect (fun _ =>
    tryFinally
      (tryCatch
         (andThen (run "BEGIN") (fun _ =>
          andThen ([Callback], callback) (fun result =>
          andThen (run "COMMIT") (fun _ =>
          pure result))))
         (fun error =>
            andThen (run "ROLLBACK") (fun _ => raise error)))
      release).
End Pool.

End Database.

(** ** The upload route (POST /api/upload/invoice) *)

Module Upload.

Definition comma : Z := 44.
Definition period : Z := 46.

Definition comma_2digits_end : RegExp :=
  regexp ",[0-9]{2}$" (Seq (Chr comma) (Seq (Times 2 digit) Eol)) false false.

Definition period_2digits_end : RegExp :=
  regexp "\.[0-9]{2}$" (Seq (Chr period) (Seq (Times 2 digit) Eol))
         false false.

Definition every_period : RegExp := regexp "\." (Chr period) true false.
Definition every_comma : RegExp := regexp "," (Chr comma) true false.

(** [normalizeAmount].  In the replacer of the second [replace], [s] is
    still the string without periods: it is assigned once [replace]
    returns. *)
Definition normalizeAmount (raw : text) : text :=
  let s := trim raw in
  if fst (test comma_2digits_end s) && negb (fst (test period_2digits_end s))
  then
    let s := replace_all every_period (fun _ _ => []) s in
    replace_all every_comma
      (fun _ off =>
         match lastIndexOf comma s with
         | Some i => if Nat.eqb off i then [period] else []
         | None => []
         end) s
  else replace_all every_comma (fun _ _ => []) s.

(** [String.prototype.toUpperCase] on ASCII letters; it is applied to a
    match of one of the currency codes, which consists of ASCII letters. *)
Definition toUpperCase (s : text) : text :=
  map (fun c => if is_lower c then c - 32 else c) s.

Definition shekel : Z := 8362.
Definition left_to_right_mark : Z := 8206.

Definition symbolToCode (symbol : text) : option text :=
  if text_eqb symbol (str "$") then Some (str "USD")
  else if text_eqb symbol [8364] then Some (str "EUR")
  else if text_eqb symbol [163] then Some (str "GBP")
  else if text_eqb symbol [shekel]
          || text_eqb symbol [shekel; left_to_right_mark]
  then Some (str "ILS")
  else None.

Definition normalizeCurrencyCode (c : text) : text :=
  let upper := toUpperCase c in
  if text_eqb upper (str "NIS") then str "ILS" else upper.

(** The symbols '$', euro, pound, shekel and shekel followed by a
    left-to-right mark, each behind a backslash. *)
Definition currencySymbols : regex :=
  Alts [ Chr 36; Chr 8364; Chr 163; Chr shekel;
         Seq (Chr shekel) (Chr left_to_right_mark) ].

Definition currencyCodes : regex :=
  Alts (map (fun k => Lit (str k))
            [ "USD"; "EUR"; "GBP"; "ILS"; "NIS"; "AUD"; "CAD" ]%string).

Definition separator : regex := Cls false [(period, period); (comma, comma)].

(** [[0-9]{1,3}(?:[.,][0-9]{3})*(?:[.,][0-9]{2})?] *)
Definition number : regex :=
  Seq (Upto3 digit)
      (Seq (Star (Seq separator (Times 3 digit)))
           (Opt (Seq separator (Times 2 digit)))).

Definition currencyRegex : RegExp :=
  regexp "(?:(\$|\u20AC|\u00A3|\u20AA|\u20AA\u200E)\s*([0-9]{1,3}(?:[.,][0-9]{3})*(?:[.,][0-9]{2})?)|([0-9]{1,3}(?:[.,][0-9]{3})*(?:[.,][0-9]{2})?)\s*(USD|EUR|GBP|ILS|NIS|AUD|CAD))"
         (Alt (Seq (Grp 1 currencySymbols) (Seq (Star space) (Grp 2 number)))
              (Seq (Grp 3 number) (Seq (Star space) (Grp 4 currencyCodes))))
         false true.

(** The amount and currency of the object [parseInvoiceData] returns.
    Its date and vendor, computed from the same text by blocks of their
    own, are not part of this record. *)
Record InvoiceData : Type := mkInvoiceData {
  amount : option text;
  currency : option text
}.

(** A capture group is truthy when it took part in the match and is not
    empty. *)
Definition truthy (g : option text) : bool :=
  match g with
  | Some (_ :: _) => true
  | _ => false
  end.

Definition group (n : nat) (m : found) : text :=
  match capture n (m_caps m) with
  | Some t => t
  | None => []
  end.

(** The first statement of [parseInvoiceData]: carriage returns are
    removed, runs of blanks and tabs become one blank, and the result is
    trimmed. *)
Definition clean_text (rawText : text) : text :=
  trim (replace_all
          (regexp "[ \t]+" (Plus (Cls false [(32, 32); (9, 9)])) true false)
          (fun _ _ => [32])
          (replace_all (regexp "\r" (Chr 13) true false)
                       (fun _ _ => []) rawText)).

Definition parseInvoiceData (rawText : text) : InvoiceData :=
  let text := clean_text rawText in
  match fst (exec currencyRegex text) with
  | Some m =>
      if truthy (capture 1 (m_caps m)) && truthy (capture 2 (m_caps m))
      then mkInvoiceData (Some (normalizeAmount (group 2 m)))
                         (symbolToCode (group 1 m))
      else if truthy (capture 3 (m_caps m)) && truthy (capture 4 (m_caps m))
      then mkInvoiceData (Some (normalizeAmount (group 3 m)))
                         (Some (normalizeCurrencyCode (group 4 m)))
      else mkInvoiceData None None
  | None => mkInvoiceData None None
  end.

(** [validateFileType]; decoding as 'ascii' clears the high bit of a
    byte. *)
Definition validateFileType (buffer : Buffer) (mimeType : string) : bool :=
  let magic := firstn 10 buffer in
  if String.eqb mimeType "application/pdf"
  then text_eqb (map (fun b => Z.land b 127) (firstn 4 magic)) (str "%PDF")
  else if String.eqb mimeType "image/jpeg" || String.eqb mimeType "image/jpg"
  then text_eqb (firstn 3 magic) [255; 216; 255]
  else if String.eqb mimeType "image/png"
  then text_eqb (hex (firstn 8 magic)) (str "89504e470d0a1a0a")
  else false.

Inductive engine : Type := pdf_parse | tesseract.

Record extracted : Type := mkExtracted {
  ex_text : text;
  ex_engine : engine;
  ocrConfidence : option Q
}.

(** The stages of the pipeline a request goes through, in the order
    the handler starts them. *)
Inductive stage : Type := Scan | Extract | Parse.

Record UploadedFile : Type := mkFile {
  buffer : Buffer;
  originalname : string;
  mimetype : string;
  size : Z
}.

Record payload : Type := mkPayload {
  originalName : string;
  file_size : Z;
  file_type : string;
  used_engine : engine;
  confidence : option Q;
  textPreview : text;
  extractedData : InvoiceData
}.

Inductive response : Type :=
| Json (p : payload)
| HttpError (status : Z) (message : string).

(** A handler step: it extends the log of started stages, and either
    yields a value or ends the request with an error response. *)
Definition handler (A : Type) : Type :=
  list stage -> list stage * (A + response).

Definition ret {A : Type} (a : A) : handler A := fun log => (log, inl a).

Definition throw {A : Type} (status : Z) (message : string) : handler A :=
  fun log => (log, inr (HttpError status message)).

Definition hbind {A B : Type} (m : handler A) (f : A -> handler B)
  : handler B :=
  fun log =>
    match m log with
    | (log', inl a) => f a log'
    | (log', inr e) => (log', inr e)
    end.

Definition start (st : stage) : handler unit :=
  fun log => (log ++ [st], inl tt).

Notation "x <-- m ;; f" := (hbind m (fun x => f))
  (at level 61, m at next level, right associativity).
Notation "m ;;; f" := (hbind m (fun _ => f))
  (at level 61, right associativity).

Definition when_ (b : bool) (m : handler unit) : handler unit :=
  if b then m else ret tt.

Section Route.
(** The libraries and the configuration of the route. *)
Variable pdfParse : Buffer -> completion text.
Variable recognize : Buffer -> string -> completion (text * option Q).
Variable MAX_FILE_SIZE : Z.
Variable TEXT_PREVIEW_LIMIT : nat.
Variable TESS_LANG : string.
Variable now : nat -> Z.

Definition extractText (buffer : Buffer) (mimeType : string)
  : completion extracted :=
  if String.eqb mimeType "application/pdf" then
    match pdfParse buffer with
    | Thrown e => Thrown e
    | Normal data =>
        let text := trim data in
        if (length text <? 20)%nat
        then Thrown "PDF appears to be scanned (no extractable text)."
        else Normal (mkExtracted text pdf_parse None)
    end
  else
    match recognize buffer TESS_LANG with
    | Thrown e => Thrown e
    | Normal (data, conf) =>
        Normal (mkExtracted (trim data) tesseract
                  (option_map (fun c => c / 100)%Q conf))
    end.

Definition ellipsis : Z := 8230.

(** The handler of POST /api/upload/invoice. *)
Definition post_invoice (file : option UploadedFile) : handler payload :=
  match file with
  | None => throw 400 "No file uploaded"
  | Some file =>
      when_ (MAX_FILE_SIZE <? size file) (throw 413 "File too large") ;;;
      when_ (negb (validateFileType (buffer file) (mimetype file)))
            (throw 400 "Invalid file format") ;;;
      start Scan ;;;
      let scanResult :=
        scanFile (now 0) (now 1) (buffer file) (originalname file)
                 (mimetype file) in
      when_ (negb (isClean scanResult))
            (throw 403
               ("Security scan failed: "
                  ++ String.concat ", " (threats scanResult) ++ ". "
                  ++ getSecurityRecommendation scanResult)) ;;;
      start Extract ;;;
      out <-- match extractText (buffer file) (mimetype file) with
              | Normal out => ret out
              | Thrown e => throw 422 ("Extraction failed: " ++ e)
              end ;;
      when_ (is_nil (trim (ex_text out)))
            (if String.eqb (mimetype file) "application/pdf"
             then throw 422
                    "No selectable text in PDF (likely a scanned image). PDF OCR fallback is not enabled yet."
             else throw 422 "Could not extract text from file") ;;;
      start Parse ;;;
      let extractedData := parseInvoiceData (ex_text out) in
      let textPreview :=
        if (TEXT_PREVIEW_LIMIT <? length (ex_text out))%nat
        then firstn TEXT_PREVIEW_LIMIT (ex_text out) ++ [ellipsis]
        else ex_text out in
      ret (mkPayload (originalname file) (size file) (mimetype file)
                     (ex_engine out) (ocrConfidence out) textPreview
                     extractedData)
  end.

(** A request, from an empty log to the log of its stages and its
    response. *)
Definition handle (file : option UploadedFile) : list stage * response :=
  match post_invoice file [] with
  | (log, inl p) => (log, Json p)
  | (log, inr e) => (log, e)
  end.
End Route.

End Upload.

(** ** What a pattern matches

    [Matches ic r s rest]: the pattern [r] matches [s] when [rest] is what
    follows [s] in the input (only [Eol] looks at it). *)

Inductive Matches (ic : bool) : regex -> text -> text -> Prop :=
| MEps rest : Matches ic Eps [] rest
| MChr x y rest :
    canon ic x = canon ic y -> Matches ic (Chr x) [y] rest
| MAny y rest : Matches ic Any [y] rest
| MCls neg rs y rest :
    xorb neg (in_class ic rs y) = true -> Matches ic (Cls neg rs) [y] rest
| MSeq a b s1 s2 rest :
    Matches ic a s1 (s2 ++ rest) -> Matches ic b s2 rest ->
    Matches ic (Seq a b) (s1 ++ s2) rest
| MAltL a b s rest : Matches ic a s rest -> Matches ic (Alt a b) s rest
| MAltR a b s rest : Matches ic b s rest -> Matches ic (Alt a b) s rest
| MStar0 a rest : Matches ic (Star a) [] rest
| MStarS a s1 s2 rest :
    s1 <> [] -> Matches ic a s1 (s2 ++ rest) -> Matches ic (Star a) s2 rest ->
    Matches ic (Star a) (s1 ++ s2) rest
| MGrp n a s rest : Matches ic a s rest -> Matches ic (Grp n a) s rest
| MEol : Matches ic Eol [] [].

(** [Captures ic r s rest c c']: the pattern [r] matches [s] before
    [rest], and the match turns the captures [c] into [c']. *)
Inductive Captures (ic : bool)
  : regex -> text -> text -> caps -> caps -> Prop :=
| CEps rest c : Captures ic Eps [] rest c c
| CChr x y rest c :
    canon ic x = canon ic y -> Captures ic (Chr x) [y] rest c c
| CAny y rest c : Captures ic Any [y] rest c c
| CCls neg rs y rest c :
    xorb neg (in_class ic rs y) = true -> Captures ic (Cls neg rs) [y] rest c c
| CSeq a b s1 s2 rest c c1 c2 :
    Captures ic a s1 (s2 ++ rest) c c1 -> Captures ic b s2 rest c1 c2 ->
    Captures ic (Seq a b) (s1 ++ s2) rest c c2
| CAltL a b s rest c c' :
    Captures ic a s rest c c' -> Captures ic (Alt a b) s rest c c'
| CAltR a b s rest c c' :
    Captures ic b s rest c c' -> Captures ic (Alt a b) s rest c c'
| CStar0 a rest c : Captures ic (Star a) [] rest c c
| CStarS a s1 s2 rest c c1 c2 :
    s1 <> [] -> Captures ic a s1 (s2 ++ rest) c c1 ->
    Captures ic (Star a) s2 rest c1 c2 ->
    Captures ic (Star a) (s1 ++ s2) rest c c2
| CGrp n a s rest c c' :
    Captures ic a s rest c c' -> Captures ic (Grp n a) s rest c ((n, s) :: c')
| CEol c : Captures ic Eol [] [] c c.

(** A pattern without groups. *)
Fixpoint group_free (r : regex) : bool :=
  match r with
  | Seq a b | Alt a b => group_free a && group_free b
  | Star a => group_free a
  | Grp _ _ => false
  | _ => true
  end.

(** Every character the pattern [r] can match satisfies [ok]. *)
Fixpoint chars_ok (ok : Z -> bool) (ic : bool) (r : regex) : Prop :=
  match r with
  | Eps | Eol => True
  | Chr x => forall y, canon ic x = canon ic y -> ok y = true
  | Any => False
  | Cls neg rs => forall y, xorb neg (in_class ic rs y) = true -> ok y = true
  | Seq a b | Alt a b => chars_ok ok ic a /\ chars_ok ok ic b
  | Star a | Grp _ a => chars_ok ok ic a
  end.

(** The currency codes [parseInvoiceData] can return. *)
Definition returned_codes : list text :=
  map str [ "USD"; "EUR"; "GBP"; "ILS"; "AUD"; "CAD" ]%string.

(** A continuation accepts [rest] when it succeeds on it whatever the
    captures. *)
Definition accepts {A : Type} (k : text -> caps -> option A) (rest : text)
  : Prop :=
  forall c, k rest c <> None.

(** A group of the top-providers query is sound for [rows]: it is not
    marked as masked and bears the [provider_name] of one of the rows. *)
Definition group_ok (rows : list expense) (g : ExpenseModel.provider_row)
  : Prop :=
  ExpenseModel.p_is_masked g = false
  /\ exists r, In r rows /\ ExpenseModel.p_provider g = provider_name r.

(** ** Notions used to state further properties *)

(** The lower-cased name contains one of the keywords. *)
Definition contains_keyword (keywords : list string) (name : text) : Prop :=
  exists kw pre post,
    In kw keywords /\ LOWER name = pre ++ str kw ++ post.

(** The order LOW < MEDIUM < HIGH. *)
Definition sensitivity_rank (s : sensitivity) : Z :=
  match s with LOW => 0 | MEDIUM => 1 | HIGH => 2 end.

(** The rows of a given provider: their number and the sum of their
    amounts. *)
Definition rows_of_provider (name : text) (rows : list expense)
  : list expense :=
  filter (fun r => text_eqb (provider_name r) name) rows.

Definition sum_amounts (rows : list expense) : Z :=
  fold_right Z.add 0 (map Pg.amount rows).

(** The groups of the top-providers query that bear a given name: the sum
    of their totals, of their counts, and the sum of all totals. *)
Definition groups_named (n : text) (gs : list ExpenseModel.provider_row)
  : list ExpenseModel.provider_row :=
  filter (fun g => text_eqb (ExpenseModel.p_provider g) n) gs.

Definition group_total (n : text) (gs : list ExpenseModel.provider_row) : Z :=
  fold_right Z.add 0 (map ExpenseModel.p_total (groups_named n gs)).

Definition group_count (n : text) (gs : list ExpenseModel.provider_row) : Z :=
  fold_right Z.add 0 (map ExpenseModel.p_count (groups_named n gs)).

Definition sum_totals (gs : list ExpenseModel.provider_row) : Z :=
  fold_right Z.add 0 (map ExpenseModel.p_total gs).

(** A text with no capital letter A-Z, and a buffer of ASCII bytes. *)
Definition no_upper (s : text) : Prop := Forall (fun c => is_upper c = false) s.

Definition ascii_only (b : Antivirus.Buffer) : Prop :=
  Forall (fun x => 0 <= x <= 127) b.

(** The text the pattern checks of the scanner look at. *)
Definition scanned_text (buffer : Antivirus.Buffer) : text :=
  Antivirus.toLowerCase (Antivirus.toString_utf8 buffer).

Definition DO_NOT_PROCESS : string :=
  "File contains multiple security threats - DO NOT PROCESS".

(** A buffer holds bytes. *)
Definition bytes (b : Antivirus.Buffer) : Prop :=
  Forall (fun x => 0 <= x <= 255) b.

(** The eight bytes every PNG file starts with. *)
Definition png_signature : Antivirus.Buffer := [137; 80; 78; 71; 13; 10; 26; 10].



(** The values of a request fit the columns as they are. *)
Definition fits_columns (precision : Z)
           (data : ExpenseModel.ExpenseCreateRequest) : Prop :=
  (length (ExpenseModel.req_provider_name data) <= 255)%nat
  /\ Z.abs (ExpenseModel.req_amount data) < 10 ^ precision
  /\ match ExpenseModel.req_currency data with
     | Some c => (length c <= 3)%nat
     | None => True
     end
  /\ match ExpenseModel.req_category data with
     | Some c => (length c <= 100)%nat
     | None => True
     end.



(** A pattern of [LIKE] with no wildcard and no escape character. *)
Definition plain_pattern (w : text) : Prop :=
  Forall (fun c => c <> 37 /\ c <> 95 /\ c <> 92) w.


(** ** The normalization rule in the words of the specification

    These definitions follow the wording of the rule, on lists, with no
    regular expression; they are compared with [normalizeAmount] below. *)

(** The string ends in [sep] followed by exactly two digits. *)
Definition ends_with_2_digits_after (sep : Z) (s : text) : bool :=
  match rev s with
  | d2 :: d1 :: c :: _ => (c =? sep) && is_digit d1 && is_digit d2
  | _ => false
  end.

(** EU rule: the separators before the final comma are removed and the
    final comma, the third character from the end, becomes a period. *)
Definition eu_rule (s : text) : text :=
  filter (fun c => negb (c =? Upload.period) && negb (c =? Upload.comma))
         (firstn (length s - 3) s)
  ++ [Upload.period] ++ skipn (length s - 2) s.

(** US rule: the commas are removed. *)
Definition us_rule (s : text) : text :=
  filter (fun c => negb (c =? Upload.comma)) s.

Definition normalize_by_rule (s : text) : text :=
  if ends_with_2_digits_after Upload.comma s
     && negb (ends_with_2_digits_after Upload.period s)
  then eu_rule s
  else us_rule s.

(** A grouped number: digits, commas and periods only. *)
Definition is_grouped_number (s : text) : bool :=
  forallb (fun c => is_digit c || (c =? Upload.comma) || (c =? Upload.period))
          s.

(** Replacement of every occurrence of one code unit, position by
    position: what [replace_all] computes for a one-character pattern. *)
Fixpoint replace_each (c : Z) (f : text -> nat -> text) (i : nat) (s : text)
  : text :=
  match s with
  | [] => []
  | x :: s' => (if c =? x then f [x] i else [x]) ++ replace_each c f (S i) s'
  end.

(** ** Concrete rows and tables used below *)

(** An empty table, and the table after [create] for an invoice of
    "Anthropic" by user 1. *)
Definition empty_db : ExpenseModel.database := ExpenseModel.mkDatabase [] 1.

Definition anthropic_request : ExpenseModel.ExpenseCreateRequest :=
  ExpenseModel.mkCreate (str "Anthropic") 12000 19737 None None.


Definition anthropic_db : ExpenseModel.database :=
  match ExpenseModel.create 15 0 empty_db anthropic_request 1 with
  | inr (_, db) => db
  | inl _ => empty_db
  end.

Definition listed_names (db : ExpenseModel.database) (userId : Z)
  : list (sensitivity * text) :=
  map (fun r => (sensitivity_level r, provider_name r))
      (ExpenseModel.findAll db userId ExpenseModel.no_filters).

Definition top_names (db : ExpenseModel.database) (userId : Z)
  : list (text * bool) :=
  map (fun p => (ExpenseModel.name p, ExpenseModel.masked p))
      (ExpenseModel.getStats_topProviders db userId).

(** ** Concrete buffers and requests used below *)

(** A PDF header followed, after the first 16 bytes, by "MZ". *)
Definition pdf_with_late_MZ : Buffer := str "%PDF-1.4 0123456789 MZ".

(** A PDF header with "MZ" among the first 16 bytes. *)
Definition pdf_with_early_MZ : Buffer := str "%PDF-1.4 MZ".

(** Three suspicious commands, each once. *)
Definition three_commands : Buffer := str "powershell cmd.exe rundll32".

(** The same three commands, each twice. *)
Definition three_commands_twice : Buffer :=
  str "powershell cmd.exe rundll32 powershell cmd.exe rundll32".

(** Script markers in capital letters, in a file declared as PNG. *)
Definition png_with_Script : Buffer := str "PNG VBScript ActiveXObject".

Definition pdf_with_eval : Upload.UploadedFile :=
  Upload.mkFile (str "%PDF-1.4 eval(x)") "invoice.pdf" "application/pdf" 16.

(** A check that throws. *)
Definition failing_check (b : Buffer) : completion (list string) :=
  Thrown "TypeError".

(** * Properties *)

(** ** Text *)

Lemma text_eqb_eq (a b : text) : text_eqb a b = true <-> a = b.
Proof.
  revert b; induction a as [|x a IH]; intros [|y b]; simpl;
    try (split; [discriminate | intros H; discriminate H]);
    try (split; reflexivity).
  rewrite andb_true_iff, Z.eqb_eq, IH.
  split; [intros [-> ->]; reflexivity | intros H; inversion H; auto].
Qed.

Lemma text_eqb_refl (a : text) : text_eqb a a = true.
Proof. apply text_eqb_eq; reflexivity. Qed.

Lemma starts_with_app (p b : text) : starts_with p (p ++ b) = true.
Proof.
  induction p as [|x p IH]; simpl; [reflexivity|].
  rewrite Z.eqb_refl; exact IH.
Qed.

Lemma starts_with_inv (p s : text) :
  starts_with p s = true -> exists b, s = p ++ b.
Proof.
  revert s; induction p as [|x p IH]; intros s H; simpl in *.
  - exists s; reflexivity.
  - destruct s as [|y s]; [discriminate|].
    apply andb_true_iff in H as [Hxy Hps].
    apply Z.eqb_eq in Hxy; subst y.
    destruct (IH _ Hps) as [b ->]; exists b; reflexivity.
Qed.

Lemma includes_unfold (needle hay : text) :
  includes needle hay =
  starts_with needle hay
  || match hay with [] => false | _ :: hay' => includes needle hay' end.
Proof. destruct hay; reflexivity. Qed.

Lemma includes_intro (needle a b : text) :
  includes needle (a ++ needle ++ b) = true.
Proof.
  induction a as [|x a IH]; simpl.
  - rewrite includes_unfold, starts_with_app; reflexivity.
  - rewrite IH; apply orb_true_r.
Qed.

Lemma includes_inv (needle hay : text) :
  includes needle hay = true -> exists a b, hay = a ++ needle ++ b.
Proof.
  induction hay as [|x hay IH]; simpl; intros H.
  - rewrite orb_false_r in H.
    apply starts_with_inv in H as [b ->]; exists [], b; reflexivity.
  - apply orb_true_iff in H as [H|H].
    + apply starts_with_inv in H as [b ->]; exists [], b; reflexivity.
    + destruct (IH H) as (a & b & ->); exists (x :: a), b; reflexivity.
Qed.

(** ** The matcher against [Matches] *)

Section MatcherFacts.
Variable ic : bool.

Lemma star_loop_nil {A : Type} body (k : text -> caps -> option A) n rest c :
  accepts k rest -> star_loop body k n rest c <> None.
Proof.
  intros Hk; destruct n as [|n]; simpl; [apply Hk|].
  destruct (body rest c _); [discriminate | apply Hk].
Qed.

Lemma rm_Star {A : Type} a s c (k : text -> caps -> option A) :
  rm ic (Star a) s c k = star_loop (rm ic a) k (S (length s)) s c.
Proof. reflexivity. Qed.

(** Completeness: when [r] matches a prefix after which the continuation
    succeeds, the matcher succeeds (possibly on an earlier choice). *)
Lemma rm_complete_aux r s1 rest :
  Matches ic r s1 rest ->
  (forall A (k : text -> caps -> option A) c,
      accepts k rest -> rm ic r (s1 ++ rest) c k <> None)
  /\ (forall a, r = Star a ->
      forall A (k : text -> caps -> option A) c n,
        accepts k rest -> (length (s1 ++ rest) < n)%nat ->
        star_loop (rm ic a) k n (s1 ++ rest) c <> None).
Proof.
  induction 1 as
    [ rest | x y rest Hxy | y rest | neg rs y rest Hin
    | a b s1 s2 rest Ha [IHa _] Hb [IHb _]
    | a b s rest Ha [IHa _] | a b s rest Hb [IHb _]
    | a rest | a s1 s2 rest Hne Ha [IHa _] Hs [_ IHs]
    | n a s rest Ha [IHa _] | ];
    (split; [| try (intros ? E; discriminate E)]).
  - intros A k c Hk; simpl; apply Hk.
  - intros A k c Hk; simpl. rewrite Hxy, Z.eqb_refl; apply Hk.
  - intros A k c Hk; simpl; apply Hk.
  - intros A k c Hk; simpl. rewrite Hin; apply Hk.
  - intros A k c Hk; simpl. rewrite <- app_assoc.
    apply IHa. intros c'; apply IHb, Hk.
  - intros A k c Hk; simpl.
    specialize (IHa A k c Hk).
    destruct (rm ic a (s ++ rest) c k); [discriminate | contradiction].
  - intros A k c Hk; simpl.
    destruct (rm ic a (s ++ rest) c k); [discriminate | apply IHb, Hk].
  - intros A k c Hk; rewrite rm_Star; apply star_loop_nil, Hk.
  - intros a' E A k c n Hk Hn; apply star_loop_nil, Hk.
  - intros A k c Hk. rewrite rm_Star, <- app_assoc; simpl.
    match goal with |- match ?m with _ => _ end <> None =>
      assert (Hm : m <> None); [| destruct m; [discriminate | contradiction]]
    end.
    apply IHa. intros c'.
    assert (Hl : (length (s2 ++ rest) <? length (s1 ++ s2 ++ rest))%nat = true).
    { apply Nat.ltb_lt. rewrite (length_app s1).
      destruct s1; [contradiction | simpl; lia]. }
    rewrite Hl. apply (IHs a eq_refl); [exact Hk|].
    apply Nat.ltb_lt in Hl; lia.
  - intros a' E A k c n Hk Hn. injection E as <-.
    rewrite <- app_assoc in *.
    destruct n as [|n]; [lia|]. simpl.
    match goal with |- match ?m with _ => _ end <> None =>
      assert (Hm : m <> None); [| destruct m; [discriminate | contradiction]]
    end.
    apply IHa. intros c'.
    assert (Hl : (length (s2 ++ rest) <? length (s1 ++ s2 ++ rest))%nat = true).
    { apply Nat.ltb_lt. rewrite (length_app s1).
      destruct s1; [contradiction | simpl; lia]. }
    rewrite Hl. apply (IHs a eq_refl); [exact Hk|].
    apply Nat.ltb_lt in Hl; lia.
  - intros A k c Hk; simpl.
    apply IHa. intros c'; apply Hk.
  - intros A k c Hk; simpl; apply Hk.
Qed.

Lemma rm_complete r s1 rest {A : Type} (k : text -> caps -> option A) c :
  Matches ic r s1 rest -> accepts k rest -> rm ic r (s1 ++ rest) c k <> None.
Proof. intros H; apply (proj1 (rm_complete_aux r s1 rest H)). Qed.

(** Soundness: a success of the matcher comes from a match of [r] after
    which the continuation succeeds. *)
Lemma star_loop_sound {A : Type} a (k : text -> caps -> option A) x :
  (forall s c (k' : text -> caps -> option A),
      rm ic a s c k' = Some x ->
      exists s1 rest c', s = s1 ++ rest /\ Matches ic a s1 rest
                         /\ k' rest c' = Some x) ->
  forall n s c,
    star_loop (rm ic a) k n s c = Some x ->
    exists s1 rest c', s = s1 ++ rest /\ Matches ic (Star a) s1 rest
                       /\ k rest c' = Some x.
Proof.
  intros Ha; induction n as [|n IHn]; intros s c H; simpl in H.
  - exists [], s, c; repeat split; [constructor | exact H].
  - match type of H with match ?m with _ => _ end = _ =>
      destruct m as [y|] eqn:E end.
    + injection H as ->.
      apply Ha in E as (s1 & rest1 & c1 & -> & Hm & Hk).
      destruct (length rest1 <? length (s1 ++ rest1))%nat eqn:Hl;
        [|discriminate].
      apply IHn in Hk as (s2 & rest & c' & -> & Hs & Hk).
      exists (s1 ++ s2), rest, c'; repeat split.
      * rewrite app_assoc; reflexivity.
      * apply MStarS; auto.
        intros ->; simpl in Hl; apply Nat.ltb_lt in Hl; lia.
      * exact Hk.
    + exists [], s, c; repeat split; [constructor | exact H].
Qed.

Lemma rm_sound r {A : Type} :
  forall s c (k : text -> caps -> option A) x,
    rm ic r s c k = Some x ->
    exists s1 rest c', s = s1 ++ rest /\ Matches ic r s1 rest
                       /\ k rest c' = Some x.
Proof.
  induction r as [ | y | | neg rs | a IHa b IHb | a IHa b IHb | a IHa
                 | n a IHa | ]; intros s c k x H; simpl in H.
  - exists [], s, c; repeat split; [constructor | exact H].
  - destruct s as [|z t]; [discriminate|].
    destruct (canon ic y =? canon ic z) eqn:E; [|discriminate].
    apply Z.eqb_eq in E.
    exists [z], t, c; repeat split; [constructor; exact E | exact H].
  - destruct s as [|z t]; [discriminate|].
    exists [z], t, c; repeat split; [constructor | exact H].
  - destruct s as [|z t]; [discriminate|].
    destruct (xorb neg (in_class ic rs z)) eqn:E; [|discriminate].
    exists [z], t, c; repeat split; [constructor; exact E | exact H].
  - apply IHa in H as (s1 & rest1 & c1 & -> & Ha & H).
    apply IHb in H as (s2 & rest & c2 & -> & Hb & H).
    exists (s1 ++ s2), rest, c2; repeat split.
    + rewrite app_assoc; reflexivity.
    + constructor; assumption.
    + exact H.
  - destruct (rm ic a s c k) as [y|] eqn:E.
    + injection H as ->.
      apply IHa in E as (s1 & rest & c' & -> & Ha & H).
      exists s1, rest, c'; repeat split; [apply MAltL; exact Ha | exact H].
    + apply IHb in H as (s1 & rest & c' & -> & Hb & H).
      exists s1, rest, c'; repeat split; [apply MAltR; exact Hb | exact H].
  - change (star_loop (rm ic a) k (S (length s)) s c = Some x) in H.
    eapply star_loop_sound; [|exact H].
    intros s0 c0 k' Hk'; apply IHa in Hk'; exact Hk'.
  - apply IHa in H as (s1 & rest & c' & -> & Ha & H).
    exists s1, rest, ((n, firstn (length (s1 ++ rest) - length rest)
                                (s1 ++ rest)) :: c').
    repeat split; [constructor; exact Ha | exact H].
  - destruct s; [|discriminate].
    exists [], [], c; repeat split; [constructor | exact H].
Qed.

(** [search]: a match is found exactly when the pattern matches at some
    position. *)
Lemma match_here_complete r i s1 rest :
  Matches ic r s1 rest -> match_here ic r i (s1 ++ rest) <> None.
Proof.
  intros H; unfold match_here; apply rm_complete; [exact H|].
  intros c; discriminate.
Qed.

Lemma search_complete r i pre s1 rest :
  Matches ic r s1 rest -> search ic r i (pre ++ s1 ++ rest) <> None.
Proof.
  intros H; revert i; induction pre as [|x pre IH]; intros i.
  - simpl app. pose proof (match_here_complete r i s1 rest H) as Hm.
    destruct (s1 ++ rest); simpl;
      destruct (match_here ic r i _); try discriminate; contradiction.
  - simpl. destruct (match_here ic r i _); [discriminate | apply IH].
Qed.

Lemma match_here_sound r i s m :
  match_here ic r i s = Some m ->
  exists s1 rest, s = s1 ++ rest /\ Matches ic r s1 rest
                  /\ m_start m = i /\ m_end m = (i + length s1)%nat.
Proof.
  unfold match_here; intros H.
  apply rm_sound in H as (s1 & rest & c' & -> & Hm & H).
  injection H as <-. exists s1, rest; repeat split; [exact Hm|].
  simpl. rewrite length_app. f_equal. lia.
Qed.

Lemma search_sound r i s m :
  search ic r i s = Some m ->
  exists pre s1 rest, s = pre ++ s1 ++ rest /\ Matches ic r s1 rest
                      /\ m_start m = (i + length pre)%nat
                      /\ m_end m = (i + length pre + length s1)%nat.
Proof.
  revert i; induction s as [|x s IH]; intros i H; simpl in H.
  - destruct (match_here ic r i []) eqn:E; [|discriminate].
    injection H as ->.
    apply match_here_sound in E as (s1 & rest & E & Hm & Hs & He).
    exists [], s1, rest; simpl; repeat split; auto; lia.
  - destruct (match_here ic r i (x :: s)) eqn:E.
    + injection H as ->.
      apply match_here_sound in E as (s1 & rest & E & Hm & Hs & He).
      exists [], s1, rest; simpl; repeat split; auto; lia.
    + apply IH in H as (pre & s1 & rest & -> & Hm & Hs & He).
      exists (x :: pre), s1, rest; simpl; repeat split; auto; lia.
Qed.

End MatcherFacts.

(** ** Building matches *)

Lemma Matches_Lit ic (w rest : text) : Matches ic (Lit w) w rest.
Proof.
  induction w as [|x w IH]; simpl; [constructor|].
  change (x :: w) with ([x] ++ w).
  constructor; [constructor; reflexivity | exact IH].
Qed.

Lemma Matches_Alts ic (rs : list regex) r s rest :
  In r rs -> Matches ic r s rest -> Matches ic (Alts rs) s rest.
Proof.
  induction rs as [|r0 rs IH]; intros Hin Hm; [contradiction|].
  destruct rs as [|r1 rs].
  - destruct Hin as [->|[]]; exact Hm.
  - change (Alts (r0 :: r1 :: rs)) with (Alt r0 (Alts (r1 :: rs))).
    destruct Hin as [->|Hin]; [apply MAltL; exact Hm|].
    apply MAltR, IH; assumption.
Qed.

Lemma Matches_star_any ic (s rest : text) : Matches ic (Star Any) s rest.
Proof.
  induction s as [|x s IH]; [constructor|].
  change (x :: s) with ([x] ++ s).
  apply MStarS; [discriminate | constructor | exact IH].
Qed.

Lemma regex_match_contains_any (keywords : list string) kw (pre post : text) :
  In kw keywords ->
  regex_match (pre ++ str kw ++ post) (contains_any keywords) = true.
Proof.
  intros Hin. unfold regex_match.
  assert (H : Matches false (contains_any keywords)
                      (pre ++ str kw ++ post) []).
  { unfold contains_any.
    constructor; [apply Matches_star_any|].
    constructor; [|apply Matches_star_any].
    apply Matches_Alts with (r := Lit (str kw)); [|apply Matches_Lit].
    apply in_map_iff; exists kw; auto. }
  pose proof (search_complete false _ 0 [] _ [] H) as Hs.
  simpl app in Hs. rewrite app_nil_r in Hs.
  destruct (search false _ 0 _); [reflexivity | contradiction].
Qed.

(** ** Sensitivity and masking (createTables.ts) *)

Lemma REPEAT_star (n : nat) : REPEAT star (Z.of_nat n) = repeat 42 n.
Proof.
  unfold REPEAT. rewrite Nat2Z.id.
  induction n as [|n IH]; simpl; [reflexivity | f_equal; exact IH].
Qed.

Lemma mask_high_short (name : text) :
  (length name <= 3)%nat -> mask_provider_name name HIGH = str "***".
Proof.
  intros H; unfold mask_provider_name, LENGTH.
  destruct (Z.leb_spec (Z.of_nat (length name)) 3); [reflexivity | lia].
Qed.

Lemma mask_high_long (name : text) :
  (3 < length name)%nat ->
  mask_provider_name name HIGH =
  firstn 2 name ++ repeat 42 (length name - 3)
         ++ skipn (length name - 1) name.
Proof.
  intros H; unfold mask_provider_name, LENGTH, LEFT, RIGHT.
  destruct (Z.leb_spec (Z.of_nat (length name)) 3); [lia|].
  replace (Z.of_nat (length name) - 3) with (Z.of_nat (length name - 3))
    by lia.
  rewrite REPEAT_star. reflexivity.
Qed.

Lemma high_keywords_shape :
  Forall (fun kw => (4 <= length (str kw))%nat
                    /\ forallb is_lower (str kw) = true) high_keywords.
Proof. repeat constructor. Qed.

Lemma forallb_nth (f : Z -> bool) (l : text) (i : nat) :
  forallb f l = true -> (i < length l)%nat -> f (nth i l 0) = true.
Proof.
  intros H Hi. rewrite forallb_forall in H. apply H, nth_In, Hi.
Qed.

Lemma mask_high_differs (name : text) kw (pre post : text) :
  In kw high_keywords -> LOWER name = pre ++ str kw ++ post ->
  mask_provider_name name HIGH <> name.
Proof.
  intros Hin Hlow Heq.
  pose proof high_keywords_shape as Hshape.
  rewrite Forall_forall in Hshape. destruct (Hshape kw Hin) as [Hlen Hall].
  assert (Hn : length name = (length pre + length (str kw) + length post)%nat).
  { rewrite <- (length_map lower_char name).
    change (map lower_char name) with (LOWER name).
    rewrite Hlow, !length_app; lia. }
  set (i := Nat.max (length pre) 2).
  assert (Hi1 : (length pre <= i)%nat) by lia.
  assert (Hi2 : (i < length pre + length (str kw))%nat) by lia.
  assert (Hi3 : (2 <= i)%nat) by lia.
  assert (Hi4 : (i + 2 <= length name)%nat) by lia.
  (* the character of the lower-cased name at [i] is a letter *)
  assert (Hletter : is_lower (lower_char (nth i name 0)) = true).
  { replace (lower_char (nth i name 0)) with (nth i (LOWER name) 0).
    - rewrite Hlow, app_nth2 by lia.
      rewrite app_nth1 by lia.
      apply forallb_nth; [exact Hall | lia].
    - unfold LOWER. change 0 with (lower_char 0) at 1. apply map_nth. }
  (* the character of the mask at [i] is a star *)
  assert (Hstar : nth i name 0 = 42).
  { rewrite <- Heq at 1. rewrite mask_high_long by lia.
    rewrite app_nth2; rewrite length_firstn; [|lia].
    replace (Nat.min 2 (length name)) with 2%nat by lia.
    rewrite app_nth1 by (rewrite repeat_length; lia).
    apply nth_repeat_lt; lia. }
  rewrite Hstar in Hletter. discriminate Hletter.
Qed.

(** C2 — For a vendor name whose lower-cased form contains one of the
    HIGH keywords, [get_provider_sensitivity] returns HIGH and the masked
    name differs from the name; the HIGH mask of a name of at most 3
    characters is exactly "***", and the mask of a longer name keeps its
    first 2 and last 1 characters and puts '*' for each of the others. *)
Theorem high_keyword_vendor_masked (name : text) :
  ((exists kw pre post,
       In kw high_keywords /\ LOWER name = pre ++ str kw ++ post) ->
   get_provider_sensitivity name = HIGH
   /\ mask_provider_name name (get_provider_sensitivity name) <> name)
  /\ ((length name <= 3)%nat -> mask_provider_name name HIGH = str "***")
  /\ ((3 < length name)%nat ->
      mask_provider_name name HIGH =
      firstn 2 name ++ repeat 42 (length name - 3)
             ++ skipn (length name - 1) name).
Proof.
  split; [|split; [apply mask_high_short | apply mask_high_long]].
  intros (kw & pre & post & Hin & Hlow).
  assert (Hlevel : get_provider_sensitivity name = HIGH).
  { unfold get_provider_sensitivity.
    rewrite Hlow, regex_match_contains_any by exact Hin. reflexivity. }
  split; [exact Hlevel|].
  rewrite Hlevel. eapply mask_high_differs; eassumption.
Qed.

Lemma high_keyword_vendor_masked_witness :
  get_provider_sensitivity (str "Anthropic") = HIGH
  /\ mask_provider_name (str "Anthropic")
       (get_provider_sensitivity (str "Anthropic")) <> str "Anthropic".
Proof.
  apply (proj1 (high_keyword_vendor_masked (str "Anthropic"))).
  exists "anthropic"%string, [], [].
  split; [simpl; auto 12 | reflexivity].
Defined.

(** ** The retention decision (both triggers) *)




(** ** Reading records back (models/Expense.ts) *)

Import ExpenseModel.

Section SortingFacts.
Context {A : Type}.
Variable before : A -> A -> bool.

Lemma In_insert_sorted (x y : A) (l : list A) :
  In y (insert_sorted before x l) <-> y = x \/ In y l.
Proof.
  induction l as [|z l IH]; simpl.
  - intuition congruence.
  - destruct (before z x); simpl; rewrite ?IH; intuition congruence.
Qed.

Lemma In_order_by (y : A) (l : list A) :
  In y (order_by before l) <-> In y l.
Proof.
  induction l as [|x l IH]; simpl; [reflexivity|].
  rewrite In_insert_sorted, IH. intuition congruence.
Qed.
End SortingFacts.

Lemma In_firstn_In {A : Type} (n : nat) (l : list A) (x : A) :
  In x (firstn n l) -> In x l.
Proof.
  revert l; induction n as [|n IH]; intros [|y l]; simpl; try tauto.
  intros [->|H]; [left; reflexivity | right; apply IH, H].
Qed.

Lemma select_fields_keeps (f : filters) (r : expense) :
  provider_name (select_fields f r) = provider_name r
  /\ provider_masked_name (select_fields f r) = provider_masked_name r
  /\ sensitivity_level (select_fields f r) = sensitivity_level r.
Proof. unfold select_fields; destruct (showMasked f); repeat split. Qed.

Lemma In_findAll (db : database) (userId : Z) (f : filters) (r' : expense) :
  In r' (findAll db userId f) <->
  exists r, In r (expenses db) /\ where_clause userId f r = true
            /\ r' = select_fields f r.
Proof.
  unfold findAll. rewrite in_map_iff. split.
  - intros (r & <- & Hin). apply In_order_by, filter_In in Hin.
    exists r; tauto.
  - intros (r & Hin & Hw & ->). exists r; split; [reflexivity|].
    apply In_order_by, filter_In; tauto.
Qed.

Lemma add_to_group_ok (rows : list expense) (r : expense)
      (gs : list provider_row) :
  In r rows -> Forall (group_ok rows) gs ->
  Forall (group_ok rows) (add_to_group r gs).
Proof.
  intros Hr; induction 1 as [|g gs Hg Hgs IH]; simpl.
  - constructor; [|constructor]. split; [reflexivity|]. exists r; auto.
  - destruct (text_eqb (p_provider g) (provider_name r)) eqn:E.
    + constructor; [|exact Hgs]. split; [reflexivity|].
      exists r; split; [exact Hr|]. apply text_eqb_eq in E; exact E.
    + constructor; assumption.
Qed.

Lemma group_by_provider_ok (rows : list expense) :
  Forall (group_ok rows) (group_by_provider rows).
Proof.
  unfold group_by_provider.
  assert (H : forall part acc,
             (forall r, In r part -> In r rows) ->
             Forall (group_ok rows) acc ->
             Forall (group_ok rows)
                    (fold_left (fun gs r => add_to_group r gs) part acc)).
  { induction part as [|r part IH]; intros acc Hsub Hacc; simpl; [exact Hacc|].
    apply IH; [intros r' Hr'; apply Hsub; right; exact Hr'|].
    apply add_to_group_ok; [apply Hsub; left; reflexivity | exact Hacc]. }
  apply H; [auto | constructor].
Qed.

Lemma set_expense_defaults_keeps (now : timestamp) (r : expense) :
  id (set_expense_defaults now r) = id r
  /\ created_by (set_expense_defaults now r) = created_by r
  /\ provider_name (set_expense_defaults now r) = provider_name r
  /\ Pg.amount (set_expense_defaults now r) = Pg.amount r
  /\ date (set_expense_defaults now r) = date r
  /\ category (set_expense_defaults now r) = category r.
Proof.
  unfold set_expense_defaults. cbv zeta.
  repeat match goal with
         | |- context [match ?b with _ => _ end] =>
             destruct b;
             cbn -[units Z.ltb get_provider_sensitivity mask_provider_name]
         end;
    repeat split.
Qed.

Lemma set_expense_defaults_level (now : timestamp) (r : expense) :
  (sensitivity_level (set_expense_defaults now r) = LOW ->
   get_provider_sensitivity (provider_name r) = LOW)
  /\ (sensitivity_level (set_expense_defaults now r) = HIGH ->
      provider_masked_name (set_expense_defaults now r)
      = Some (mask_provider_name (provider_name r) HIGH))
  /\ updated_at (set_expense_defaults now r) = now.
Proof.
  destruct r as [i n m a d c s f fp pol cb ca ua ru].
  unfold set_expense_defaults.
  destruct s; destruct (get_provider_sensitivity n) eqn:E; destruct f;
    destruct (units 1000 <? a) eqn:Ea;
    do 4 (cbn -[units Z.ltb]; rewrite ?E, ?Ea);
    repeat split; try reflexivity; try discriminate.
Qed.

Lemma set_expense_defaults_no_mask (now : timestamp) (r : expense) :
  sensitivity_level (set_expense_defaults now r) = LOW ->
  provider_masked_name (set_expense_defaults now r) = provider_masked_name r.
Proof.
  destruct r as [i n m a d c s f fp pol cb ca ua ru].
  unfold set_expense_defaults.
  destruct s; destruct (get_provider_sensitivity n) eqn:E; destruct f;
    destruct (units 1000 <? a) eqn:Ea;
    do 4 (cbn -[units Z.ltb]; rewrite ?E, ?Ea);
    try reflexivity; discriminate.
Qed.

Lemma set_expense_defaults_same_level (now : timestamp) (r : expense) :
  sensitivity_level r = get_provider_sensitivity (provider_name r) ->
  sensitivity_level (set_expense_defaults now r) = sensitivity_level r.
Proof.
  destruct r as [i n m a d c s f fp pol cb ca ua ru].
  cbn [sensitivity_level provider_name]. intros ->.
  unfold set_expense_defaults.
  destruct (get_provider_sensitivity n) eqn:E; destruct f;
    destruct (units 1000 <? a) eqn:Ea;
    do 4 (cbn -[units Z.ltb]; rewrite ?E, ?Ea); reflexivity.
Qed.

Lemma create_stored (precision : Z) (now : timestamp) (db : database)
      (data : ExpenseCreateRequest) (userId : Z) (row : expense)
      (db' : database) :
  create precision now db data userId = inr (row, db') ->
  exists n a c,
    VARCHAR 255 (req_provider_name data) = Some n
    /\ DECIMAL precision (req_amount data) = Some a
    /\ match req_category data with
       | Some cat => option_map Some (VARCHAR 100 cat)
       | None => Some None
       end = Some c
    /\ row = set_expense_defaults now
               (mkExpense (next_id db) n None a (req_date data) c
                  (get_provider_sensitivity (req_provider_name data))
                  None None (Some DELETE) (Some userId) now now None)
    /\ db' = mkDatabase (expenses db ++ [row]) (next_id db + 1).
Proof.
  unfold create. cbv zeta.
  destruct (VARCHAR 255 (req_provider_name data)) as [n|]; [|discriminate].
  destruct (DECIMAL precision (req_amount data)) as [a|]; [|discriminate].
  destruct (VARCHAR 3 _) as [cur|]; [|discriminate].
  destruct (match req_category data with
            | Some cat => option_map Some (VARCHAR 100 cat)
            | None => Some None
            end) as [c|]; [|discriminate].
  intros H. injection H as <- <-. exists n, a, c. repeat split.
Qed.

Lemma VARCHAR_fits (n : nat) (s : text) :
  (length s <= n)%nat -> VARCHAR n s = Some s.
Proof.
  intros H. unfold VARCHAR. apply Nat.leb_le in H. rewrite H. reflexivity.
Qed.





Lemma create_fits (precision : Z) (now : timestamp) (db : database)
      (data : ExpenseCreateRequest) (userId : Z) :
  fits_columns precision data ->
  create precision now db data userId = inr (inserted now db data userId).
Proof.
  intros (Hn & Ha & Hcur & Hcat). unfold create, inserted. cbv zeta.
  rewrite (VARCHAR_fits 255 _ Hn).
  unfold DECIMAL. apply Z.ltb_lt in Ha. rewrite Ha.
  assert (Ec : VARCHAR 3 (currency_or_default (req_currency data)) <> None).
  { destruct (req_currency data) as [[|c cs]|]; cbn [currency_or_default];
      [| rewrite (VARCHAR_fits 3 (c :: cs) Hcur) |]; discriminate. }
  destruct (VARCHAR 3 _); [|contradiction].
  destruct (req_category data) as [cat|]; [|reflexivity].
  rewrite (VARCHAR_fits 100 cat Hcat). reflexivity.
Qed.

(** The claim C3 fails on a table that holds one HIGH record, "Anthropic":
    the listing and the top providers both return the name as it was
    entered, and the statistics mark it as not masked. *)
Lemma anthropic_read_back_unmasked :
  listed_names anthropic_db 1 = [(HIGH, str "Anthropic")]
  /\ top_names anthropic_db 1 = [(str "Anthropic", false)]
  /\ mask_provider_name (str "Anthropic") HIGH <> str "Anthropic".
Proof.
  split; [vm_compute; reflexivity|].
  split; [vm_compute; reflexivity|].
  vm_compute; discriminate.
Qed.

(** C3 (amended) — Every read-back operation returns the stored
    [provider_name] unchanged, for every sensitivity level, HIGH
    included: each row of the record listing is a stored row that passes
    the filters, with its name, masked name and sensitivity as stored, and
    each stored row that passes the filters is listed; each entry of the
    top-providers statistics carries the [provider_name] of a stored row
    and is marked as not masked.  A record that [create] stores for a HIGH
    vendor holds the mask in [provider_masked_name], next to the unmasked
    name; for a LOW vendor the name is unmasked and there is no mask.
    This holds of the row of [inserted], which is what [create] returns
    on values that fit their columns, and of every row [create]
    returns. *)
Theorem read_back_returns_stored_name (db : database) (userId : Z) :
  (forall f r',
      In r' (findAll db userId f) ->
      exists r, In r (expenses db)
                /\ provider_name r' = provider_name r
                /\ provider_masked_name r' = provider_masked_name r
                /\ sensitivity_level r' = sensitivity_level r)
  /\ (forall f r,
         In r (expenses db) -> where_clause userId f r = true ->
         exists r', In r' (findAll db userId f)
                    /\ provider_name r' = provider_name r
                    /\ sensitivity_level r' = sensitivity_level r)
  /\ (forall p,
         In p (getStats_topProviders db userId) ->
         masked p = false
         /\ exists r, In r (expenses db) /\ name p = provider_name r)
  /\ (forall now data,
         let row := fst (inserted now db data userId) in
         let db' := snd (inserted now db data userId) in
         In row (expenses db')
         /\ provider_name row = req_provider_name data
         /\ sensitivity_level row
            = get_provider_sensitivity (req_provider_name data)
         /\ (sensitivity_level row = HIGH ->
             provider_masked_name row
             = Some (mask_provider_name (req_provider_name data) HIGH))
         /\ (sensitivity_level row = LOW -> provider_masked_name row = None))
  /\ (forall precision now data row db',
         create precision now db data userId = inr (row, db') ->
         In row (expenses db')
         /\ VARCHAR 255 (req_provider_name data) = Some (provider_name row)
         /\ (sensitivity_level row = HIGH ->
             provider_masked_name row
             = Some (mask_provider_name (provider_name row) HIGH))
         /\ (sensitivity_level row = LOW -> provider_masked_name row = None)
         /\ ((length (req_provider_name data) <= 255)%nat ->
             provider_name row = req_provider_name data
             /\ sensitivity_level row
                = get_provider_sensitivity (req_provider_name data)))
  /\ (forall precision now data,
         fits_columns precision data ->
         create precision now db data userId
         = inr (inserted now db data userId)).
Proof.
  split; [|split; [|split; [|split; [|split]]]].
  - intros f r' H. apply In_findAll in H as (r & Hin & _ & ->).
    exists r. pose proof (select_fields_keeps f r). tauto.
  - intros f r Hin Hw. exists (select_fields f r).
    pose proof (select_fields_keeps f r).
    split; [apply In_findAll; exists r; auto | tauto].
  - intros p H. unfold getStats_topProviders in H.
    apply in_map_iff in H as (g & <- & Hg). simpl.
    unfold top_providers_query in Hg.
    apply In_firstn_In, In_order_by in Hg.
    pose proof (group_by_provider_ok
                  (filter (where_clause userId no_filters) (expenses db)))
      as Hall.
    rewrite Forall_forall in Hall.
    destruct (Hall g Hg) as (Hm & r & Hr & Hn).
    split; [exact Hm|]. exists r; split; [|exact Hn].
    apply filter_In in Hr; tauto.
  - intros now data; cbv zeta.
    unfold inserted; cbn [fst snd expenses].
    split; [apply in_or_app; right; left; reflexivity|].
    unfold set_expense_defaults; cbn [sensitivity_level provider_name file_id].
    destruct (get_provider_sensitivity (req_provider_name data)) eqn:E;
      cbn; rewrite ?E; cbn; repeat split; try reflexivity; try discriminate.
  - intros precision now data row db' H.
    apply create_stored in H
      as (n & a & c & Hn & Ha & Hc & -> & ->).
    cbn [expenses].
    split; [apply in_or_app; right; left; reflexivity|].
    match goal with
    | |- context [set_expense_defaults now ?N] =>
        pose proof (set_expense_defaults_keeps now N) as K;
        pose proof (set_expense_defaults_level now N) as L;
        pose proof (set_expense_defaults_no_mask now N) as M;
        pose proof (set_expense_defaults_same_level now N) as S
    end.
    cbn [provider_name provider_masked_name sensitivity_level] in K, L, M, S.
    destruct K as (_ & _ & Kn & _). destruct L as (_ & L2 & _).
    rewrite Kn. split; [exact Hn|].
    split; [exact L2|].
    split; [exact M|].
    intros Hlen. rewrite (VARCHAR_fits 255 _ Hlen) in Hn.
    injection Hn as <-. split; [reflexivity|]. apply S. reflexivity.
  - intros precision now data. apply create_fits.
Qed.

Lemma read_back_returns_stored_name_witness :
  exists r', In r' (findAll anthropic_db 1 no_filters)
             /\ provider_name r' = str "Anthropic"
             /\ sensitivity_level r' = HIGH.
Proof.
  destruct (proj1 (proj2 (read_back_returns_stored_name anthropic_db 1))
              no_filters (fst (inserted 0 empty_db anthropic_request 1)))
    as (r' & Hin & Hn & Hs).
  - left; reflexivity.
  - reflexivity.
  - exists r'. split; [exact Hin|]. split; [rewrite Hn | rewrite Hs];
      reflexivity.
Defined.

(** ** The scanner (AntivirusService) *)

Section ScanFacts.
Variable signatures : Buffer -> completion (list string).
Variable potentialMacro : string -> Buffer -> completion bool.
Variable macros : Buffer -> completion (list string).
Variable patterns : Buffer -> completion (list string).
Variable sizeAnomalies : Buffer -> string -> completion (list string).

Local Abbreviation scan :=
  (scanFile_with signatures potentialMacro macros patterns sizeAnomalies).
Local Abbreviation checks :=
  (scan_checks signatures potentialMacro macros patterns sizeAnomalies).

Lemma scan_normal t0 t1 buffer filename mimeType ts :
  checks buffer mimeType = Normal ts ->
  scan t0 t1 buffer filename mimeType
  = mkScanResult (Nat.eqb (length ts) 0) ts (t1 - t0).
Proof. unfold scan, scanFile_with, checks; intros ->; reflexivity. Qed.

Lemma scan_thrown t0 t1 buffer filename mimeType e :
  checks buffer mimeType = Thrown e ->
  scan t0 t1 buffer filename mimeType
  = mkScanResult false [SCAN_ERROR] (t1 - t0).
Proof. unfold scan, scanFile_with, checks; intros ->; reflexivity. Qed.

Lemma scan_clean_iff t0 t1 buffer filename mimeType :
  isClean (scan t0 t1 buffer filename mimeType) = true
  <-> threats (scan t0 t1 buffer filename mimeType) = [].
Proof.
  unfold scan, scanFile_with.
  destruct (scan_checks _ _ _ _ _ buffer mimeType) as [ts|e]; simpl.
  - destruct ts; simpl; split; congruence.
  - split; discriminate.
Qed.

Lemma checks_thrown buffer mimeType :
  (exists e, signatures buffer = Thrown e)
  \/ (exists e, potentialMacro mimeType buffer = Thrown e)
  \/ (potentialMacro mimeType buffer = Normal true
      /\ exists e, macros buffer = Thrown e)
  \/ (exists e, patterns buffer = Thrown e)
  \/ (exists e, sizeAnomalies buffer mimeType = Thrown e) ->
  exists e, checks buffer mimeType = Thrown e.
Proof.
  unfold checks, scan_checks, bind.
  intros [[e H]|[[e H]|[[H1 [e H]]|[[e H]|[e H]]]]]; rewrite ?H1, ?H.
  - eauto.
  - destruct (signatures buffer); eauto.
  - destruct (signatures buffer); eauto.
  - destruct (signatures buffer); [|eauto].
    destruct (potentialMacro mimeType buffer) as [[|]|]; [| |eauto];
      [destruct (macros buffer)|]; eauto.
  - destruct (signatures buffer); [|eauto].
    destruct (potentialMacro mimeType buffer) as [[|]|]; [| |eauto];
      [destruct (macros buffer); [|eauto]|];
      destruct (patterns buffer); eauto.
Qed.
End ScanFacts.

Lemma scanFile_threats t0 t1 buffer filename mimeType :
  scanFile t0 t1 buffer filename mimeType =
  let ts := checkFileSignatures buffer
            ++ (if isPotentialMacroDocument mimeType buffer
                then checkForMacros buffer else [])
            ++ checkSuspiciousPatterns buffer
            ++ checkFileSizeAnomalies buffer mimeType in
  mkScanResult (Nat.eqb (length ts) 0) ts (t1 - t0).
Proof.
  unfold scanFile, scanFile_with, scan_checks, bind.
  destruct (isPotentialMacroDocument mimeType buffer); reflexivity.
Qed.

(** C5 — [scanFile] always returns a result: whichever of its checks
    throws, the result is not clean and its only tag is SCAN_ERROR; with
    the checks of the service, which do not throw, the result carries the
    tags the checks found. *)
Theorem scan_fails_closed
        (signatures : Buffer -> completion (list string))
        (potentialMacro : string -> Buffer -> completion bool)
        (macros patterns : Buffer -> completion (list string))
        (sizeAnomalies : Buffer -> string -> completion (list string))
        (t0 t1 : Z) (buffer : Buffer) (filename mimeType : string) :
  ((exists e, signatures buffer = Thrown e)
   \/ (exists e, potentialMacro mimeType buffer = Thrown e)
   \/ (potentialMacro mimeType buffer = Normal true
       /\ exists e, macros buffer = Thrown e)
   \/ (exists e, patterns buffer = Thrown e)
   \/ (exists e, sizeAnomalies buffer mimeType = Thrown e) ->
   let r := scanFile_with signatures potentialMacro macros patterns
                          sizeAnomalies t0 t1 buffer filename mimeType in
   isClean r = false /\ threats r = [SCAN_ERROR] /\ In SCAN_ERROR (threats r))
  /\ (isClean (scanFile_with signatures potentialMacro macros patterns
                             sizeAnomalies t0 t1 buffer filename mimeType)
      = true ->
      exists ts, scan_checks signatures potentialMacro macros patterns
                             sizeAnomalies buffer mimeType = Normal ts)
  /\ (exists ts, threats (scanFile t0 t1 buffer filename mimeType) = ts
                 /\ ~ In SCAN_ERROR ts
                 /\ isClean (scanFile t0 t1 buffer filename mimeType)
                    = Nat.eqb (length ts) 0).
Proof.
  split; [|split].
  - intros H. apply checks_thrown in H as [e H].
    cbv zeta. erewrite scan_thrown by exact H. simpl. auto.
  - unfold scanFile_with.
    destruct (scan_checks _ _ _ _ _ buffer mimeType) as [ts|e]; simpl;
      [eauto | discriminate].
  - eexists; split; [reflexivity|]. rewrite scanFile_threats; cbv zeta.
    split; [|reflexivity]. simpl threats.
    rewrite !in_app_iff.
    assert (Hfilter : forall tag ps content,
               (forall p, tag p <> SCAN_ERROR) ->
               ~ In SCAN_ERROR (fst (push_matching tag ps content))).
    { intros tag ps content Htag; induction ps as [|p ps IH]; simpl; [tauto|].
      destruct (test p content) as [hit p'].
      destruct (push_matching tag ps content) as [ts ps']; simpl in *.
      rewrite in_app_iff. intros [H|H]; [|exact (IH H)].
      destruct hit; [destruct H as [H|[]]; exact (Htag _ H) | exact H]. }
    assert (Hm : forall p, macro_tag p <> SCAN_ERROR).
    { intros p; unfold macro_tag, SCAN_ERROR; discriminate. }
    assert (Hs : forall p, suspicious_tag p <> SCAN_ERROR).
    { intros p; unfold suspicious_tag, SCAN_ERROR; discriminate. }
    intros [H|[H|[H|H]]].
    + unfold checkFileSignatures in H.
      destruct (_ || _); [destruct H as [H|[]]; discriminate H | exact H].
    + destruct (isPotentialMacroDocument mimeType buffer); [|exact H].
      exact (Hfilter _ _ _ Hm H).
    + unfold checkSuspiciousPatterns in H.
      pose proof (Hfilter suspicious_tag suspiciousPatterns
                          (toLowerCase (toString_utf8 buffer)) Hs) as Hp.
      destruct (push_matching suspicious_tag suspiciousPatterns _)
        as [ts ps]; simpl in Hp.
      destruct (3 <=? _)%nat; [|exact (Hp H)].
      apply in_app_iff in H as [H|[H|[]]]; [exact (Hp H) | discriminate H].
    + unfold checkFileSizeAnomalies in H. rewrite !in_app_iff in H.
      destruct H as [H|[H|H]];
        repeat match type of H with
               | In _ (if ?b then _ else _) => destruct b
               end;
        try destruct H as [H|[]]; try discriminate H; exact H.
Qed.

Lemma scan_fails_closed_witness :
  isClean (scanFile_with failing_check
             (fun m b => Normal (isPotentialMacroDocument m b))
             (fun b => Normal (checkForMacros b))
             (fun b => Normal (checkSuspiciousPatterns b))
             (fun b m => Normal (checkFileSizeAnomalies b m))
             0 1 pdf_with_early_MZ "a.pdf" "application/pdf") = false.
Proof.
  apply (proj1 (scan_fails_closed failing_check
                  (fun m b => Normal (isPotentialMacroDocument m b))
                  (fun b => Normal (checkForMacros b))
                  (fun b => Normal (checkSuspiciousPatterns b))
                  (fun b m => Normal (checkFileSizeAnomalies b m))
                  0 1 pdf_with_early_MZ "a.pdf" "application/pdf")).
  left. exists "TypeError"%string. reflexivity.
Defined.

Lemma hex_app (a b : Buffer) : hex (a ++ b) = hex a ++ hex b.
Proof. unfold hex; apply flat_map_app. Qed.

Lemma checkFileSignatures_MZ (pre post : Buffer) :
  (length pre + 2 <= 16)%nat ->
  checkFileSignatures (pre ++ [77; 90] ++ post) = [EXECUTABLE_EMBEDDED].
Proof.
  intros Hlen. unfold checkFileSignatures.
  rewrite firstn_app, firstn_all2 by lia.
  rewrite firstn_app.
  replace (firstn (16 - length pre) [77; 90]) with [77; 90]
    by (rewrite firstn_all2; [reflexivity | cbn [length]; lia]).
  rewrite !hex_app.
  change (hex [77; 90]) with (str "4d5a").
  rewrite includes_intro. reflexivity.
Qed.

(** The claim C7 fails when "MZ" comes after the first 16 bytes of the
    PDF: the scan is clean and has no tag. *)
Lemma late_MZ_scans_clean :
  starts_with (str "%PDF") pdf_with_late_MZ = true
  /\ includes [77; 90] pdf_with_late_MZ = true
  /\ scanFile 0 1 pdf_with_late_MZ "a.pdf" "application/pdf"
     = mkScanResult true [] 1.
Proof. vm_compute. repeat split. Qed.

(** C7 (amended) — For every buffer, a PDF or not, that holds the bytes
    4D 5A ("MZ") within its first 16 bytes, [scanFile] returns a result
    that is not clean and has the EXECUTABLE_EMBEDDED tag. *)
Theorem early_MZ_is_flagged (t0 t1 : Z) (pre post : Buffer)
        (filename mimeType : string) :
  (length pre + 2 <= 16)%nat ->
  let r := scanFile t0 t1 (pre ++ [77; 90] ++ post) filename mimeType in
  isClean r = false /\ In EXECUTABLE_EMBEDDED (threats r).
Proof.
  intros Hlen. cbv zeta. rewrite scanFile_threats; cbv zeta.
  rewrite checkFileSignatures_MZ by exact Hlen.
  split; [reflexivity | left; reflexivity].
Qed.

Lemma early_MZ_is_flagged_witness :
  isClean (scanFile 0 1 (str "%PDF-1.4 " ++ [77; 90] ++ str " rest")
                    "a.pdf" "application/pdf") = false
  /\ In EXECUTABLE_EMBEDDED
        (threats (scanFile 0 1 (str "%PDF-1.4 " ++ [77; 90] ++ str " rest")
                           "a.pdf" "application/pdf")).
Proof.
  apply (early_MZ_is_flagged 0 1 (str "%PDF-1.4 ") (str " rest")
                             "a.pdf" "application/pdf").
  vm_compute; lia.
Defined.

(** C6 — On a buffer that holds three of the suspicious commands, each
    once, [checkSuspiciousPatterns] returns the three SUSPICIOUS_PATTERN
    tags and no HIGH_RISK tag, and so does the scan: the second [test] of
    each global RegExp starts at the [lastIndex] its first match left.
    With each command twice the HIGH_RISK tag is there, once. *)
Theorem three_commands_without_HIGH_RISK :
  checkSuspiciousPatterns three_commands
  = [ "SUSPICIOUS_PATTERN: Potentially malicious pattern detected (powershell)";
      "SUSPICIOUS_PATTERN: Potentially malicious pattern detected (cmd\.exe)";
      "SUSPICIOUS_PATTERN: Potentially malicious pattern detected (rundll32)"
    ]%string
  /\ ~ In HIGH_RISK (threats (scanFile 0 1 three_commands "notes.txt"
                                       "text/plain"))
  /\ filter_matching
       (snd (push_matching suspicious_tag suspiciousPatterns
                           (toLowerCase (toString_utf8 three_commands))))
       (toLowerCase (toString_utf8 three_commands)) = []
  /\ count_occ string_dec (checkSuspiciousPatterns three_commands_twice)
               HIGH_RISK = 1%nat.
Proof.
  split; [vm_compute; reflexivity|].
  split.
  - vm_compute. intros [H|[H|[H|[]]]]; discriminate H.
  - split; vm_compute; reflexivity.
Qed.

(** ** The macro check *)

Lemma test_fresh_iff (re : RegExp) (s : text) :
  lastIndex re = 0%nat ->
  (fst (test re s) = true <->
   exists pre s1 rest,
     s = pre ++ s1 ++ rest /\ Matches (ignoreCase re) (pattern re) s1 rest).
Proof.
  intros Hli. unfold test, exec. rewrite Hli.
  replace (if global re then 0%nat else 0%nat) with 0%nat
    by (destruct (global re); reflexivity).
  simpl. split.
  - destruct (search (ignoreCase re) (pattern re) 0 s) as [m|] eqn:E;
      [|discriminate].
    intros _. apply search_sound in E as (pre & s1 & rest & -> & Hm & _).
    eauto.
  - intros (pre & s1 & rest & -> & Hm).
    pose proof (search_complete (ignoreCase re) (pattern re) 0 pre s1 rest Hm)
      as Hs.
    destruct (search _ _ 0 _); [reflexivity | contradiction].
Qed.

Lemma source_test (re : RegExp) (s : text) :
  source (snd (test re s)) = source re.
Proof.
  unfold test, exec.
  destruct (length s <? _)%nat; [reflexivity|].
  destruct (search _ _ _ _); destruct (global re); reflexivity.
Qed.

Lemma push_matching_fst (tag : RegExp -> string) (ps : list RegExp)
      (content : text) :
  (forall p, tag (snd (test p content)) = tag p) ->
  fst (push_matching tag ps content)
  = map tag (filter (fun p => fst (test p content)) ps).
Proof.
  intros Htag; induction ps as [|p ps IH]; simpl; [reflexivity|].
  specialize (Htag p).
  destruct (test p content) as [hit p'].
  destruct (push_matching tag ps content) as [ts ps'].
  simpl in *. rewrite IH, Htag. destruct hit; reflexivity.
Qed.

Lemma checkForMacros_eq (buffer : Buffer) :
  checkForMacros buffer
  = map macro_tag
        (filter (fun p => fst (test p (toLowerCase (toString_utf8 buffer))))
                macroPatterns).
Proof.
  unfold checkForMacros. apply push_matching_fst.
  intros p; unfold macro_tag; rewrite source_test; reflexivity.
Qed.

Lemma count_occ_map_filter {A : Type} (f : A -> string) (keep : A -> bool)
      (l : list A) (p : A) :
  NoDup (map f l) -> In p l ->
  count_occ string_dec (map f (filter keep l)) (f p)
  = if keep p then 1%nat else 0%nat.
Proof.
  induction l as [|x l IH]; intros Hnd Hin; [contradiction|].
  simpl in Hnd. inversion Hnd as [|? ? Hx Hl]; subst.
  assert (Hzero : forall q, ~ In (f q) (map f l) ->
                            count_occ string_dec (map f (filter keep l)) (f q)
                            = 0%nat).
  { intros q Hq. apply count_occ_not_In. intros H; apply Hq.
    apply in_map_iff in H as (y & Hy & Hf).
    apply filter_In in Hf as [Hf _]. apply in_map_iff; eauto. }
  destruct Hin as [->|Hin].
  - simpl. destruct (keep p); simpl.
    + destruct (string_dec (f p) (f p)); [|contradiction].
      rewrite Hzero by exact Hx; reflexivity.
    + apply Hzero, Hx.
  - assert (Hne : f x <> f p).
    { intros E; apply Hx; rewrite E; apply in_map, Hin. }
    simpl. destruct (keep x); simpl.
    + destruct (string_dec (f x) (f p)); [contradiction|]. apply IH; auto.
    + apply IH; auto.
Qed.

Lemma macro_tags_distinct : NoDup (map macro_tag macroPatterns).
Proof.
  repeat (constructor;
          [simpl; intuition discriminate|]).
  constructor.
Qed.

(** The claim C9 fails on a PNG that holds "VBScript" and
    "ActiveXObject": in lower case its bytes contain "script", yet the
    macro check does not run and the scan is clean, although the check
    finds two patterns in this buffer. *)
Lemma capital_Script_skips_macro_check :
  includes (str "script") (map lower_char png_with_Script) = true
  /\ isPotentialMacroDocument "image/png" png_with_Script = false
  /\ length (checkForMacros png_with_Script) = 2%nat
  /\ scanFile 0 1 png_with_Script "a.png" "image/png" = mkScanResult true [] 1.
Proof. vm_compute. repeat split. Qed.

(** C9 (amended) — The macro check runs if and only if the declared media
    type is application/pdf or the raw bytes contain the bytes of "macro"
    or of "script" as they are (lower case, matched exactly); when it
    runs, each script-indicator pattern that matches the decoded,
    lower-cased text yields one MACRO_DETECTED tag naming that pattern, and
    a pattern that does not match yields none. *)
Theorem macro_check_gate (mimeType : string) (buffer : Buffer) :
  (isPotentialMacroDocument mimeType buffer = true <->
   mimeType = "application/pdf"%string
   \/ (exists a b, buffer = a ++ str "macro" ++ b)
   \/ (exists a b, buffer = a ++ str "script" ++ b))
  /\ (forall t0 t1 filename,
         threats (scanFile t0 t1 buffer filename mimeType)
         = checkFileSignatures buffer
           ++ (if isPotentialMacroDocument mimeType buffer
               then checkForMacros buffer else [])
           ++ checkSuspiciousPatterns buffer
           ++ checkFileSizeAnomalies buffer mimeType)
  /\ (forall p,
         In p macroPatterns ->
         let content := toLowerCase (toString_utf8 buffer) in
         let found_in_content :=
           exists pre s1 rest,
             content = pre ++ s1 ++ rest /\ Matches true (pattern p) s1 rest in
         (found_in_content ->
          count_occ string_dec (checkForMacros buffer) (macro_tag p) = 1%nat)
         /\ (~ found_in_content ->
             count_occ string_dec (checkForMacros buffer) (macro_tag p)
             = 0%nat)).
Proof.
  split; [|split].
  - unfold isPotentialMacroDocument.
    rewrite !orb_true_iff, String.eqb_eq. split.
    + intros [[H|H]|H]; [left; exact H | right; left | right; right];
        apply includes_inv; exact H.
    + intros [H|[(a & b & ->)|(a & b & ->)]];
        [left; left; exact H | left; right | right]; apply includes_intro.
  - intros t0 t1 filename. rewrite scanFile_threats. reflexivity.
  - intros p Hin. cbv zeta.
    assert (Hfresh : lastIndex p = 0%nat /\ ignoreCase p = true).
    { simpl in Hin.
      repeat (destruct Hin as [<-|Hin]; [split; reflexivity|]).
      contradiction. }
    destruct Hfresh as [Hli Hic].
    pose proof (test_fresh_iff p (toLowerCase (toString_utf8 buffer)) Hli)
      as Hiff.
    rewrite Hic in Hiff.
    rewrite checkForMacros_eq.
    rewrite (count_occ_map_filter macro_tag _ macroPatterns p
               macro_tags_distinct Hin).
    destruct (fst (test p (toLowerCase (toString_utf8 buffer)))).
    + split; [reflexivity|].
      intros Hn; exfalso; apply Hn, Hiff; reflexivity.
    + split; [|reflexivity].
      intros Hy; apply Hiff in Hy; discriminate Hy.
Qed.

Lemma macro_check_gate_witness :
  count_occ string_dec (checkForMacros (str "x = eval (y)"))
            "MACRO_DETECTED: Suspicious macro or script detected (eval\s*\()"%string
  = 1%nat.
Proof.
  apply (proj1 (proj2 (proj2 (macro_check_gate "image/png"
                                               (str "x = eval (y)")))
                 (regexp "eval\s*\("
                         (Seq (Lit (str "eval")) (Seq (Star space) (Chr 40)))
                         true true)
                 ltac:(simpl; tauto))).
  exists (str "x = "), (str "eval ("), (str "y)").
  split; [reflexivity|].
  change (str "eval (") with (str "eval" ++ (str " " ++ str "(")).
  constructor; [apply Matches_Lit|].
  constructor.
  - change (str " ") with ([32] ++ []).
    apply MStarS; [discriminate | constructor; reflexivity | constructor].
  - constructor; reflexivity.
Defined.

(** ** The upload route *)

Import Upload.

Section RouteFacts.
Variable pdfParse : Buffer -> completion text.
Variable recognize : Buffer -> string -> completion (text * option Q).
Variable MAX_FILE_SIZE : Z.
Variable TEXT_PREVIEW_LIMIT : nat.
Variable TESS_LANG : string.
Variable now : nat -> Z.

Local Abbreviation run :=
  (handle pdfParse recognize MAX_FILE_SIZE TEXT_PREVIEW_LIMIT TESS_LANG now).

Lemma unclean_scan_response (file : UploadedFile) :
  isClean (scanFile (now 0%nat) (now 1%nat) (buffer file) (originalname file)
                    (mimetype file)) = false ->
  run (Some file) = ([], HttpError 413 "File too large")
  \/ run (Some file) = ([], HttpError 400 "Invalid file format")
  \/ exists message, run (Some file) = ([Scan], HttpError 403 message).
Proof.
  intros Hscan. unfold run, handle, post_invoice, hbind, when_, throw, ret,
                  start.
  destruct (MAX_FILE_SIZE <? size file); [left; reflexivity|].
  destruct (validateFileType (buffer file) (mimetype file));
    [|right; left; reflexivity].
  right; right. simpl. rewrite Hscan. simpl. eauto.
Qed.

Lemma unclean_scan_after_validation (file : UploadedFile) :
  isClean (scanFile (now 0%nat) (now 1%nat) (buffer file) (originalname file)
                    (mimetype file)) = false ->
  (MAX_FILE_SIZE <? size file) = false ->
  validateFileType (buffer file) (mimetype file) = true ->
  exists message, run (Some file) = ([Scan], HttpError 403 message).
Proof.
  intros Hscan Hsize Hmagic.
  unfold run, handle, post_invoice, hbind, when_, throw, ret, start.
  rewrite Hsize, Hmagic. simpl. rewrite Hscan. simpl. eauto.
Qed.
End RouteFacts.

(** C4 — For every input, the result of the scan is clean exactly when
    its list of tags is empty, so a result that is not clean has at least
    one tag; and when the scan of an uploaded file is not clean, the
    handler ends the request with an error response without starting the
    extraction or the parsing stage (once the file has passed the size
    and magic-byte checks, the log holds the scan alone and the response
    is the 403 rejection). *)
Theorem unclean_scan_has_tags_and_stops_pipeline
        (pdfParse : Buffer -> completion text)
        (recognize : Buffer -> string -> completion (text * option Q))
        (MAX_FILE_SIZE : Z) (TEXT_PREVIEW_LIMIT : nat) (TESS_LANG : string)
        (now : nat -> Z) (file : UploadedFile) :
  let scanResult :=
    scanFile (now 0%nat) (now 1%nat) (buffer file) (originalname file)
             (mimetype file) in
  let outcome :=
    handle pdfParse recognize MAX_FILE_SIZE TEXT_PREVIEW_LIMIT TESS_LANG now
           (Some file) in
  (isClean scanResult = true <-> threats scanResult = [])
  /\ (isClean scanResult = false ->
      threats scanResult <> []
      /\ ~ In Extract (fst outcome)
      /\ ~ In Parse (fst outcome)
      /\ (exists status message, snd outcome = HttpError status message)
      /\ ((MAX_FILE_SIZE <? size file) = false ->
          validateFileType (buffer file) (mimetype file) = true ->
          exists message, outcome = ([Scan], HttpError 403 message))).
Proof.
  cbv zeta. split; [apply scan_clean_iff|]. intros Hscan.
  split.
  { intros Hnil. unfold scanFile in Hnil, Hscan.
    apply scan_clean_iff in Hnil. rewrite Hnil in Hscan. discriminate. }
  pose proof (unclean_scan_response pdfParse recognize MAX_FILE_SIZE
                TEXT_PREVIEW_LIMIT TESS_LANG now file Hscan) as H.
  split; [|split; [|split]].
  - destruct H as [->|[->|[m ->]]]; simpl; intuition discriminate.
  - destruct H as [->|[->|[m ->]]]; simpl; intuition discriminate.
  - destruct H as [->|[->|[m ->]]]; simpl; eauto.
  - apply unclean_scan_after_validation; exact Hscan.
Qed.

Lemma unclean_scan_has_tags_and_stops_pipeline_witness :
  ~ In Extract
      (fst (handle (fun _ => Normal (str "Invoice total 12.00 USD, thank you"))
                   (fun _ _ => Thrown "no OCR") 10485760 5000 "eng+heb"
                   (fun _ => 0) (Some pdf_with_eval))).
Proof.
  apply (proj2 (unclean_scan_has_tags_and_stops_pipeline
                  (fun _ => Normal (str "Invoice total 12.00 USD, thank you"))
                  (fun _ _ => Thrown "no OCR") 10485760 5000 "eng+heb"
                  (fun _ => 0) pdf_with_eval)).
  vm_compute; reflexivity.
Defined.

(** ** Amount normalization *)

Lemma digit_class (y : Z) :
  xorb false (in_class false [(48, 57)] y) = is_digit y.
Proof.
  unfold in_class, in_ranges, is_digit; simpl.
  rewrite !orb_false_r. reflexivity.
Qed.

Lemma is_digit_bounds (d : Z) : is_digit d = true -> 48 <= d <= 57.
Proof. unfold is_digit; rewrite andb_true_iff, !Z.leb_le; tauto. Qed.

Ltac invert_match :=
  repeat match goal with
         | H : Matches _ (Seq _ _) _ _ |- _ => inversion H; subst; clear H
         | H : Matches _ (Chr _) _ _ |- _ => inversion H; subst; clear H
         | H : Matches _ (Cls _ _) _ _ |- _ => inversion H; subst; clear H
         | H : Matches _ Eol _ _ |- _ => inversion H; subst; clear H
         | H : Matches _ Eps _ _ |- _ => inversion H; subst; clear H
         end.

Lemma Matches_sep_2digits_end (sep : Z) (s1 rest : text) :
  Matches false (Seq (Chr sep) (Seq (Times 2 digit) Eol)) s1 rest <->
  rest = [] /\ exists d1 d2,
      s1 = [sep; d1; d2] /\ is_digit d1 = true /\ is_digit d2 = true.
Proof.
  split.
  - intros H. unfold digit in H; simpl in H. invert_match.
    match goal with H : canon false _ = canon false _ |- _ =>
      cbv [canon andb] in H; subst end.
    repeat match goal with H : xorb false _ = true |- _ =>
      rewrite digit_class in H end.
    split; [reflexivity|]. eexists _, _. simpl. eauto.
  - intros (-> & d1 & d2 & -> & H1 & H2).
    change [sep; d1; d2] with ([sep] ++ ([d1] ++ [d2] ++ []) ++ []).
    constructor; [constructor; reflexivity|].
    constructor; [|constructor].
    constructor; [constructor; rewrite digit_class; exact H1|].
    constructor; [constructor; rewrite digit_class; exact H2 | constructor].
Qed.

Lemma ends_with_2_digits_after_iff (sep : Z) (s : text) :
  ends_with_2_digits_after sep s = true <->
  exists body d1 d2,
    s = body ++ [sep; d1; d2] /\ is_digit d1 = true /\ is_digit d2 = true.
Proof.
  unfold ends_with_2_digits_after. split.
  - destruct (rev s) as [|d2 [|d1 [|c t]]] eqn:E; try discriminate.
    rewrite !andb_true_iff, Z.eqb_eq. intros [[-> H1] H2].
    exists (rev t), d1, d2. split; [|auto].
    rewrite <- (rev_involutive s), E. simpl.
    rewrite <- !app_assoc. reflexivity.
  - intros (body & d1 & d2 & -> & H1 & H2).
    rewrite rev_app_distr. simpl. rewrite Z.eqb_refl, H1, H2. reflexivity.
Qed.

Lemma test_sep_2digits_end (src : string) (sep : Z) (s : text) :
  fst (test (regexp src (Seq (Chr sep) (Seq (Times 2 digit) Eol)) false false)
            s)
  = ends_with_2_digits_after sep s.
Proof.
  apply eq_true_iff_eq.
  rewrite test_fresh_iff by reflexivity.
  rewrite ends_with_2_digits_after_iff. cbn [ignoreCase pattern regexp].
  split.
  - intros (pre & s1 & rest & -> & H).
    apply Matches_sep_2digits_end in H as (-> & d1 & d2 & -> & H1 & H2).
    exists pre, d1, d2. rewrite app_nil_r. auto.
  - intros (body & d1 & d2 & -> & H1 & H2).
    exists body, [sep; d1; d2], []. rewrite app_nil_r.
    split; [reflexivity|]. apply Matches_sep_2digits_end.
    split; [reflexivity|]. exists d1, d2; auto.
Qed.

Lemma search_chr (c : Z) (i : nat) (x : Z) (s : text) :
  search false (Chr c) i (x :: s)
  = if c =? x then Some (Found i (S i) []) else search false (Chr c) (S i) s.
Proof.
  cbn [search]. unfold match_here. cbn [rm length]. cbv [canon andb].
  destruct (c =? x); [|reflexivity].
  replace (i + (S (length s) - length s))%nat with (S i) by lia.
  reflexivity.
Qed.

Lemma search_start_ge ic (r : regex) (i : nat) (s : text) (m : found) :
  search ic r i s = Some m -> (i <= m_start m <= m_end m)%nat.
Proof.
  intros H. apply search_sound in H as (pre & s1 & rest & _ & _ & Hs & He).
  lia.
Qed.

(** When the pattern does not match at the first position, [replace_from]
    keeps the first code unit and goes on behind it. *)
Lemma replace_from_skip (fuel : nat) ic (r : regex) f (i : nat) (x : Z)
      (s : text) :
  search ic r i (x :: s) = search ic r (S i) s ->
  replace_from (S fuel) ic r f i (x :: s)
  = x :: replace_from (S fuel) ic r f (S i) s.
Proof.
  intros E. cbn [replace_from]. rewrite E.
  destruct (search ic r (S i) s) as [m|] eqn:Hs; [|reflexivity].
  pose proof (search_start_ge ic r (S i) s m Hs) as [H1 H2].
  replace (m_start m - i)%nat with (S (m_start m - S i)) by lia.
  replace (m_end m - i)%nat with (S (m_end m - S i)) by lia.
  cbn [firstn skipn app].
  destruct (Nat.eqb (m_end m) (m_start m)); [|reflexivity].
  destruct (skipn (m_end m - S i) s); reflexivity.
Qed.

Lemma replace_from_chr (c : Z) f (s : text) :
  forall fuel i,
    (length s < fuel)%nat ->
    replace_from fuel false (Chr c) f i s = replace_each c f i s.
Proof.
  induction s as [|x s IH]; intros fuel i Hfuel.
  - destruct fuel; reflexivity.
  - destruct fuel as [|fuel]; [simpl in Hfuel; lia|].
    simpl in Hfuel.
    destruct (c =? x) eqn:E.
    + cbn [replace_from]. rewrite search_chr, E.
      cbn [m_start m_end replace_each]. rewrite E.
      rewrite Nat.sub_diag.
      replace (S i - i)%nat with 1%nat by lia.
      replace (Nat.eqb (S i) i) with false
        by (symmetry; apply Nat.eqb_neq; lia).
      cbn [firstn skipn app]. rewrite IH by lia. reflexivity.
    + rewrite replace_from_skip by (rewrite search_chr, E; reflexivity).
      cbn [replace_each]. rewrite E. rewrite IH by (simpl; lia). reflexivity.
Qed.

Lemma replace_all_chr (src : string) (c : Z) f (s : text) :
  replace_all (regexp src (Chr c) true false) f s = replace_each c f 0 s.
Proof. unfold replace_all; apply replace_from_chr; simpl; lia. Qed.

Lemma replace_each_app (c : Z) f (a b : text) (i : nat) :
  replace_each c f i (a ++ b)
  = replace_each c f i a ++ replace_each c f (i + length a) b.
Proof.
  revert i; induction a as [|x a IH]; intros i; simpl.
  - rewrite Nat.add_0_r; reflexivity.
  - rewrite IH, <- app_assoc. do 3 f_equal. lia.
Qed.

Lemma replace_each_delete (c : Z) f (s : text) (i : nat) :
  (forall m j, (i <= j < i + length s)%nat -> f m j = []) ->
  replace_each c f i s = filter (fun x => negb (x =? c)) s.
Proof.
  revert i; induction s as [|x s IH]; intros i Hf; simpl; [reflexivity|].
  rewrite (Z.eqb_sym x c).
  destruct (c =? x); simpl.
  - rewrite Hf by (simpl; lia). simpl. apply IH.
    intros m j Hj; apply Hf; simpl; lia.
  - f_equal. apply IH. intros m j Hj; apply Hf; simpl; lia.
Qed.

Lemma lastIndexOf_from_tail (c : Z) (body : text) (d1 d2 : Z) (i : nat) :
  d1 <> c -> d2 <> c ->
  lastIndexOf_from c i (body ++ [c; d1; d2]) = Some (i + length body)%nat.
Proof.
  intros H1 H2. revert i; induction body as [|x body IH]; intros i; simpl.
  - apply Z.eqb_neq in H1, H2. rewrite H1, H2, Z.eqb_refl.
    rewrite Nat.add_0_r. reflexivity.
  - rewrite IH. f_equal. lia.
Qed.

Lemma filter_filter_sep (body : text) :
  filter (fun x => negb (x =? comma)) (filter (fun x => negb (x =? period)) body)
  = filter (fun c => negb (c =? period) && negb (c =? comma)) body.
Proof.
  induction body as [|x body IH]; simpl; [reflexivity|].
  destruct (x =? period); simpl; [exact IH|].
  destruct (x =? comma); simpl; [exact IH | f_equal; exact IH].
Qed.

(** [normalizeAmount] follows the rule, on the trimmed input. *)
Lemma normalizeAmount_by_rule (raw : text) :
  normalizeAmount raw = normalize_by_rule (trim raw).
Proof.
  unfold normalizeAmount, normalize_by_rule.
  unfold comma_2digits_end, period_2digits_end.
  rewrite !test_sep_2digits_end.
  set (s := trim raw).
  destruct (ends_with_2_digits_after comma s) eqn:Ec; simpl;
    [|unfold every_comma; rewrite replace_all_chr;
      apply replace_each_delete; reflexivity].
  destruct (ends_with_2_digits_after period s) eqn:Ep; simpl;
    [unfold every_comma; rewrite replace_all_chr;
     apply replace_each_delete; reflexivity|].
  apply ends_with_2_digits_after_iff in Ec as (body & d1 & d2 & E & H1 & H2).
  apply is_digit_bounds in H1, H2.
  rewrite E. unfold every_period, every_comma. rewrite !replace_all_chr.
  rewrite (replace_each_delete period (fun _ _ => [])) by reflexivity.
  rewrite filter_app.
  assert (Htail : filter (fun x => negb (x =? period)) [comma; d1; d2]
                  = [comma; d1; d2]).
  { unfold period, comma; simpl.
    destruct (Z.eqb_spec d1 46); [lia|].
    destruct (Z.eqb_spec d2 46); [lia|]. reflexivity. }
  rewrite Htail.
  set (body' := filter (fun x => negb (x =? period)) body).
  unfold lastIndexOf.
  rewrite lastIndexOf_from_tail by (unfold comma; lia).
  rewrite replace_each_app.
  rewrite replace_each_delete.
  2:{ intros m j Hj. simpl in Hj.
      destruct (Nat.eqb_spec j (0 + length body')); [lia | reflexivity]. }
  unfold eu_rule. rewrite length_app. cbn [length].
  replace (length body + 3 - 3)%nat with (length body) by lia.
  replace (length body + 3 - 2)%nat with (length body + 1)%nat by lia.
  rewrite firstn_app, Nat.sub_diag, firstn_all, firstn_O, app_nil_r.
  rewrite skipn_app, skipn_all2 by lia.
  replace (length body + 1 - length body)%nat with 1%nat by lia.
  unfold body'. rewrite filter_filter_sep. f_equal.
  cbn [replace_each app skipn Nat.add length]. rewrite Z.eqb_refl.
  rewrite Nat.eqb_refl.
  unfold comma.
  destruct (Z.eqb_spec 44 d1); [lia|].
  destruct (Z.eqb_spec 44 d2); [lia|]. reflexivity.
Qed.

Lemma trim_start_grouped (s : text) :
  is_grouped_number s = true -> trim_start s = s.
Proof.
  destruct s as [|c s]; [reflexivity|]. simpl.
  rewrite andb_true_iff. intros [Hc _].
  assert (Hs : is_space c = false).
  { unfold is_digit, comma, period in Hc.
    rewrite !orb_true_iff, andb_true_iff, !Z.leb_le, !Z.eqb_eq in Hc.
    assert (Hrange : 44 <= c <= 57) by lia. clear Hc.
    unfold is_space, in_ranges, white_ranges; cbn [existsb fst snd].
    repeat match goal with
           | |- context [(?a <=? ?b)] =>
               destruct (Z.leb_spec a b); try (exfalso; lia)
           end.
    reflexivity. }
  rewrite Hs; reflexivity.
Qed.

Lemma trim_grouped (s : text) : is_grouped_number s = true -> trim s = s.
Proof.
  intros H. unfold trim, trim_end.
  rewrite (trim_start_grouped s H).
  rewrite trim_start_grouped, rev_involutive; [reflexivity|].
  unfold is_grouped_number in *. rewrite forallb_forall in *.
  intros x Hx; apply H, in_rev, Hx.
Qed.

Lemma normalize_by_rule_no_comma (s : text) : ~ In comma (normalize_by_rule s).
Proof.
  unfold normalize_by_rule.
  destruct (ends_with_2_digits_after comma s) eqn:Ec; simpl.
  2:{ unfold us_rule. intros H; apply filter_In in H as [_ H].
      rewrite Z.eqb_refl in H; discriminate H. }
  destruct (ends_with_2_digits_after period s); simpl.
  { unfold us_rule. intros H; apply filter_In in H as [_ H].
    rewrite Z.eqb_refl in H; discriminate H. }
  apply ends_with_2_digits_after_iff in Ec as (body & d1 & d2 & -> & H1 & H2).
  apply is_digit_bounds in H1, H2.
  unfold eu_rule. rewrite length_app. cbn [length].
  replace (length body + 3 - 2)%nat with (length body + 1)%nat by lia.
  rewrite skipn_app, skipn_all2 by lia.
  replace (length body + 1 - length body)%nat with 1%nat by lia.
  cbn [skipn app]. rewrite in_app_iff. intros [H|H].
  - apply filter_In in H as [_ H].
    rewrite Z.eqb_refl, andb_false_r in H; discriminate H.
  - unfold comma, period in H. simpl in H. destruct H as [H|[H|[H|[]]]]; lia.
Qed.

Lemma filter_filter_implied {A : Type} (f g : A -> bool) (l : list A) :
  (forall x, f x = true -> g x = true) ->
  filter f (filter g l) = filter f l.
Proof.
  intros H. induction l as [|x l IH]; simpl; [reflexivity|].
  destruct (g x) eqn:G; simpl; [rewrite IH; reflexivity|].
  destruct (f x) eqn:F; [|exact IH].
  rewrite (H x F) in G. discriminate G.
Qed.

Lemma digit_is_no_space (c : Z) : is_digit c = true -> is_space c = false.
Proof.
  intros H. apply is_digit_bounds in H.
  unfold is_space, in_ranges, white_ranges; cbn [existsb fst snd].
  repeat match goal with
         | |- context [(?a <=? ?b)] =>
             destruct (Z.leb_spec a b); try (exfalso; lia)
         end.
  reflexivity.
Qed.

Lemma trim_start_digits (s : text) :
  filter is_digit (trim_start s) = filter is_digit s.
Proof.
  induction s as [|c s IH]; [reflexivity|]. cbn [trim_start].
  destruct (is_space c) eqn:E; [|reflexivity].
  rewrite IH. cbn [filter].
  destruct (is_digit c) eqn:D; [|reflexivity].
  rewrite (digit_is_no_space c D) in E. discriminate E.
Qed.

Lemma filter_rev' {A : Type} (f : A -> bool) (l : list A) :
  filter f (rev l) = rev (filter f l).
Proof.
  induction l as [|x l IH]; [reflexivity|]. cbn [rev filter].
  rewrite filter_app, IH. cbn [filter].
  destruct (f x); [reflexivity | apply app_nil_r].
Qed.

Lemma trim_digits (s : text) : filter is_digit (trim s) = filter is_digit s.
Proof.
  unfold trim, trim_end.
  rewrite filter_rev', trim_start_digits, filter_rev', rev_involutive.
  apply trim_start_digits.
Qed.

Lemma eu_rule_eq (body : text) (d1 d2 : Z) :
  eu_rule (body ++ [comma; d1; d2])
  = filter (fun c => negb (c =? period) && negb (c =? comma)) body
    ++ [period; d1; d2].
Proof.
  unfold eu_rule. rewrite length_app. cbn [length].
  replace (length body + 3 - 3)%nat with (length body) by lia.
  replace (length body + 3 - 2)%nat with (length body + 1)%nat by lia.
  rewrite firstn_app, Nat.sub_diag, firstn_all, firstn_O, app_nil_r.
  rewrite skipn_app, skipn_all2 by lia.
  replace (length body + 1 - length body)%nat with 1%nat by lia.
  reflexivity.
Qed.

Lemma digit_is_no_separator (c : Z) :
  is_digit c = true -> (c =? period) = false /\ (c =? comma) = false.
Proof.
  intros H. apply is_digit_bounds in H. unfold period, comma.
  split; apply Z.eqb_neq; lia.
Qed.

Lemma normalize_by_rule_digits (s : text) :
  filter is_digit (normalize_by_rule s) = filter is_digit s.
Proof.
  assert (Hus : filter is_digit (us_rule s) = filter is_digit s).
  { unfold us_rule. apply filter_filter_implied. intros x Hx.
    rewrite (proj2 (digit_is_no_separator x Hx)). reflexivity. }
  unfold normalize_by_rule.
  destruct (ends_with_2_digits_after comma s) eqn:Ec; [|exact Hus].
  destruct (ends_with_2_digits_after period s); [exact Hus|].
  cbn [negb andb].
  apply ends_with_2_digits_after_iff in Ec as (body & d1 & d2 & -> & H1 & H2).
  rewrite eu_rule_eq, !filter_app.
  rewrite filter_filter_implied.
  - cbn [filter]. rewrite H1, H2. reflexivity.
  - intros x Hx. destruct (digit_is_no_separator x Hx) as [-> ->].
    reflexivity.
Qed.

Lemma normalize_by_rule_grouped (s : text) :
  is_grouped_number s = true ->
  forallb (fun c => is_digit c || (c =? period)) (normalize_by_rule s) = true.
Proof.
  intros Hg. unfold is_grouped_number in Hg. rewrite forallb_forall in Hg.
  assert (Hus : forallb (fun c => is_digit c || (c =? period)) (us_rule s)
                = true).
  { apply forallb_forall. intros x Hx. unfold us_rule in Hx.
    apply filter_In in Hx as (Hx & Hc). specialize (Hg x Hx).
    apply negb_true_iff in Hc. rewrite Hc, orb_false_r in Hg.
    destruct (is_digit x); [reflexivity|].
    cbn [orb] in Hg |- *.
    destruct (x =? period); [reflexivity | discriminate Hg]. }
  unfold normalize_by_rule.
  destruct (ends_with_2_digits_after comma s) eqn:Ec; [|exact Hus].
  destruct (ends_with_2_digits_after period s); [exact Hus|].
  cbn [negb andb].
  apply ends_with_2_digits_after_iff in Ec as (body & d1 & d2 & -> & H1 & H2).
  rewrite eu_rule_eq. apply forallb_forall. intros x Hx.
  apply in_app_iff in Hx as [Hx|Hx].
  - apply filter_In in Hx as (Hx & Hc).
    specialize (Hg x (in_or_app _ _ _ (or_introl Hx))).
    apply andb_true_iff in Hc as (_ & Hc). apply negb_true_iff in Hc.
    rewrite Hc, orb_false_r in Hg.
    destruct (is_digit x); [reflexivity|].
    cbn [orb] in Hg |- *.
    destruct (x =? period); [reflexivity | discriminate Hg].
  - destruct Hx as [<-|[<-|[<-|[]]]].
    + rewrite Z.eqb_refl. apply orb_true_r.
    + rewrite H1. reflexivity.
    + rewrite H2. reflexivity.
Qed.

Lemma grouped_normal_form (raw : text) :
  is_grouped_number raw = true ->
  forallb (fun c => is_digit c || (c =? period)) (normalizeAmount raw) = true.
Proof.
  intros Hg. rewrite normalizeAmount_by_rule, trim_grouped by exact Hg.
  apply normalize_by_rule_grouped, Hg.
Qed.

Lemma count_period_filter (l : text) :
  count_occ Z.eq_dec
            (filter (fun c => negb (c =? period) && negb (c =? comma)) l)
            period = 0%nat.
Proof.
  apply count_occ_not_In. intros H. apply filter_In in H as [_ H].
  rewrite Z.eqb_refl in H. discriminate H.
Qed.

Lemma count_period_us_rule (s : text) :
  count_occ Z.eq_dec (us_rule s) period = count_occ Z.eq_dec s period.
Proof.
  unfold us_rule. induction s as [|x s IH]; [reflexivity|]. cbn [filter].
  destruct (Z.eqb_spec x comma) as [->|Hx]; cbn [negb].
  - cbn [count_occ]. destruct (Z.eq_dec comma period); [discriminate|].
    exact IH.
  - cbn [count_occ]. destruct (Z.eq_dec x period); rewrite IH; reflexivity.
Qed.

(** The claim C8 fails on "1.234.567", a grouped number: it is returned
    as it is, with two periods, so the result is not a decimal string
    with the period as its sole separator; [parseInvoiceData] returns
    that text as the amount of the input made of the euro sign and this
    number. *)
Lemma grouped_number_keeps_two_periods :
  is_grouped_number (str "1.234.567") = true
  /\ normalizeAmount (str "1.234.567") = str "1.234.567"
  /\ count_occ Z.eq_dec (normalizeAmount (str "1.234.567")) period = 2%nat
  /\ parseInvoiceData (8364 :: str "1.234.567")
     = mkInvoiceData (Some (str "1.234.567")) (Some (str "EUR")).
Proof. vm_compute. repeat split. Qed.

(** C8 (amended) — [normalizeAmount] maps "1,234.56" and "1.234,56" to
    "1234.56" and "99,00" to "99.00".  In general its result is given by
    the rule, on the input with surrounding white space removed: if that
    ends in a comma followed by exactly 2 digits and does not end in a
    period followed by exactly 2 digits, the periods are removed and the
    final comma becomes the decimal point (the other commas are removed
    too); otherwise the commas are removed.  A grouped number, made of
    digits, commas and periods, has no surrounding white space, so the
    rule applies to it as it is.  The result never holds a comma, and for
    a grouped number it consists of digits and periods: exactly one
    period, the decimal point before the last two digits, under the first
    rule, and the periods of the input, as many as there were, under the
    second. *)
Theorem normalizeAmount_rule :
  normalizeAmount (str "1,234.56") = str "1234.56"
  /\ normalizeAmount (str "1.234,56") = str "1234.56"
  /\ normalizeAmount (str "99,00") = str "99.00"
  /\ (forall raw, normalizeAmount raw = normalize_by_rule (trim raw))
  /\ (forall raw,
         is_grouped_number raw = true ->
         normalizeAmount raw
         = if ends_with_2_digits_after comma raw
              && negb (ends_with_2_digits_after period raw)
           then eu_rule raw
           else us_rule raw)
  /\ (forall raw, ~ In comma (normalizeAmount raw))
  /\ (forall raw,
         is_grouped_number raw = true ->
         forallb (fun c => is_digit c || (c =? period)) (normalizeAmount raw)
         = true
         /\ (ends_with_2_digits_after comma raw
             && negb (ends_with_2_digits_after period raw) = true ->
             count_occ Z.eq_dec (normalizeAmount raw) period = 1%nat
             /\ exists body d1 d2,
                  normalizeAmount raw = body ++ [period; d1; d2]
                  /\ is_digit d1 = true /\ is_digit d2 = true
                  /\ forallb is_digit body = true)
         /\ (ends_with_2_digits_after comma raw
             && negb (ends_with_2_digits_after period raw) = false ->
             count_occ Z.eq_dec (normalizeAmount raw) period
             = count_occ Z.eq_dec raw period)).
Proof.
  split; [vm_compute; reflexivity|].
  split; [vm_compute; reflexivity|].
  split; [vm_compute; reflexivity|].
  split; [exact normalizeAmount_by_rule|].
  split.
  { intros raw H. rewrite normalizeAmount_by_rule, trim_grouped by exact H.
    reflexivity. }
  split.
  { intros raw. rewrite normalizeAmount_by_rule.
    apply normalize_by_rule_no_comma. }
  intros raw Hg. split; [apply grouped_normal_form, Hg|].
  rewrite normalizeAmount_by_rule, trim_grouped by exact Hg.
  unfold normalize_by_rule. split.
  - intros Hrule. rewrite Hrule.
    apply andb_true_iff in Hrule as [Hc _].
    apply ends_with_2_digits_after_iff in Hc
      as (body & d1 & d2 & -> & H1 & H2).
    rewrite eu_rule_eq.
    destruct (digit_is_no_separator d1 H1) as [P1 _].
    destruct (digit_is_no_separator d2 H2) as [P2 _].
    apply Z.eqb_neq in P1, P2.
    split.
    + rewrite count_occ_app, count_period_filter. cbn [count_occ].
      destruct (Z.eq_dec period period); [|contradiction].
      destruct (Z.eq_dec d1 period); [contradiction|].
      destruct (Z.eq_dec d2 period); [contradiction|]. reflexivity.
    + exists (filter (fun c => negb (c =? period) && negb (c =? comma)) body),
             d1, d2.
      repeat split; try assumption.
      apply forallb_forall. intros x Hx.
      apply filter_In in Hx as (Hx & Hsep).
      unfold is_grouped_number in Hg. rewrite forallb_forall in Hg.
      specialize (Hg x (in_or_app _ _ _ (or_introl Hx))).
      apply andb_true_iff in Hsep as (Hp & Hc).
      apply negb_true_iff in Hp, Hc. rewrite Hp, Hc, !orb_false_r in Hg.
      exact Hg.
  - intros Hrule. rewrite Hrule. apply count_period_us_rule.
Qed.

Lemma normalizeAmount_rule_witness :
  normalizeAmount (str "12.345,67") = str "12345.67".
Proof.
  rewrite (proj1 (proj2 (proj2 (proj2 (proj2 normalizeAmount_rule))))
             (str "12.345,67")) by reflexivity.
  reflexivity.
Defined.

(** ** The combined amount and currency pattern *)

Lemma digit_not_space (d : Z) :
  is_digit d = true -> in_class true white_ranges d = false.
Proof.
  intros H. apply is_digit_bounds in H.
  unfold in_class, swapcase, is_lower, is_upper.
  replace (97 <=? d) with false by (symmetry; apply Z.leb_gt; lia).
  replace (65 <=? d) with false by (symmetry; apply Z.leb_gt; lia).
  cbn [andb]. rewrite orb_diag.
  unfold in_ranges, white_ranges; cbn [existsb fst snd].
  repeat match goal with
         | |- context [(?a <=? ?b)] =>
             destruct (Z.leb_spec a b); try (exfalso; lia)
         end.
  reflexivity.
Qed.

Lemma digit_in_digits (d : Z) :
  is_digit d = true -> in_class true [(48, 57)] d = true.
Proof.
  intros H. unfold in_class, in_ranges; cbn [existsb fst snd].
  unfold is_digit in H. rewrite H. reflexivity.
Qed.

Lemma digit_not_separator (d : Z) :
  is_digit d = true ->
  in_class true [(period, period); (comma, comma)] d = false.
Proof.
  intros H. apply is_digit_bounds in H.
  unfold in_class, swapcase, is_lower, is_upper.
  replace (97 <=? d) with false by (symmetry; apply Z.leb_gt; lia).
  replace (65 <=? d) with false by (symmetry; apply Z.leb_gt; lia).
  cbn [andb]. rewrite orb_diag.
  unfold in_ranges, period, comma; cbn [existsb fst snd].
  repeat match goal with
         | |- context [(?a <=? ?b)] =>
             destruct (Z.leb_spec a b); try (exfalso; lia)
         end; reflexivity.
Qed.

(** On a text that starts with '$' and four digits the pattern matches
    the symbol and the first three digits, whatever follows. *)
Lemma currencyRegex_takes_three_digits (d1 d2 d3 d4 : Z) (rest : text) :
  is_digit d1 = true -> is_digit d2 = true -> is_digit d3 = true ->
  is_digit d4 = true ->
  fst (exec currencyRegex (36 :: d1 :: d2 :: d3 :: d4 :: rest))
  = Some (Found 0 4 [(2%nat, [d1; d2; d3]); (1%nat, [36])]).
Proof.
  intros H1 H2 H3 H4.
  unfold exec, currencyRegex.
  cbn [global regexp lastIndex ignoreCase pattern length Nat.ltb Nat.leb
       skipn].
  cbn [search]. unfold match_here.
  unfold currencySymbols, number, separator, Upto3, Opt, digit, space.
  cbn [rm Alts Times canon].
  cbn [star_loop rm length].
  rewrite ?digit_not_space, ?digit_in_digits, ?digit_not_separator
    by assumption.
  cbn [xorb].
  change (canon true 36 =? canon true 36) with true. cbn iota. cbn [fst].
  replace (S (S (S (S (S (length rest))))) - S (length rest))%nat
    with 4%nat by lia.
  replace (S (S (S (S (length rest)))) - S (length rest))%nat
    with 3%nat by lia.
  replace (S (S (S (S (S (length rest))))) - S (S (S (S (length rest)))))%nat
    with 1%nat by lia.
  reflexivity.
Qed.


(** * Further properties of the code *)

(** ** Classification and masking (createTables.ts) *)

Lemma Matches_Lit_inv (w s rest : text) :
  Matches false (Lit w) s rest -> s = w.
Proof.
  revert s; induction w as [|x w IH]; intros s H; simpl in H.
  - inversion H; reflexivity.
  - inversion H as [| | | |a b s1 s2 r Hc Hw| | | | | |]; subst.
    inversion Hc as [|x0 y r Hxy| | | | | | | | |]; subst.
    cbv [canon andb] in Hxy; subst y.
    rewrite (IH _ Hw). reflexivity.
Qed.

Lemma Matches_Alts_inv ic (rs : list regex) (s rest : text) :
  Matches ic (Alts rs) s rest -> exists r, In r rs /\ Matches ic r s rest.
Proof.
  induction rs as [|r0 rs IH]; intros H.
  - simpl in H. inversion H as [| | |neg rs0 y r Hy| | | | | | |]; subst.
    unfold in_class, in_ranges in Hy; simpl in Hy.
    rewrite andb_false_r in Hy; discriminate Hy.
  - destruct rs as [|r1 rs].
    + exists r0; split; [left; reflexivity | exact H].
    + change (Alts (r0 :: r1 :: rs)) with (Alt r0 (Alts (r1 :: rs))) in H.
      inversion H; subst.
      * exists r0; split; [left; reflexivity | assumption].
      * destruct IH as (r & Hin & Hm); [assumption|].
        exists r; split; [right; exact Hin | exact Hm].
Qed.

Lemma regex_match_contains_any_inv (keywords : list string) (s : text) :
  regex_match s (contains_any keywords) = true ->
  exists kw pre post, In kw keywords /\ s = pre ++ str kw ++ post.
Proof.
  unfold regex_match.
  destruct (search false (contains_any keywords) 0 s) as [m|] eqn:E;
    [|discriminate].
  intros _. apply search_sound in E as (pre & s1 & rest & -> & Hm & _).
  unfold contains_any in Hm.
  inversion Hm as [| | | |a b u1 u2 r Hstar Htail| | | | | |]; subst.
  inversion Htail as [| | | |a b v1 v2 r Halts Hstar2| | | | | |]; subst.
  apply Matches_Alts_inv in Halts as (r & Hin & Hr).
  apply in_map_iff in Hin as (kw & <- & Hkw).
  apply Matches_Lit_inv in Hr; subst v1.
  exists kw, (pre ++ u1), (v2 ++ rest). split; [exact Hkw|].
  rewrite <- !app_assoc. reflexivity.
Qed.

Lemma regex_match_contains_any_iff (keywords : list string) (name : text) :
  regex_match (LOWER name) (contains_any keywords) = true
  <-> contains_keyword keywords name.
Proof.
  split.
  - intros H. apply regex_match_contains_any_inv in H. exact H.
  - intros (kw & pre & post & Hin & ->).
    apply regex_match_contains_any; exact Hin.
Qed.

(** X1 — [get_provider_sensitivity] is decided by the keywords the
    lower-cased name contains, HIGH keywords first: HIGH exactly when it
    contains a HIGH keyword, MEDIUM exactly when it contains a MEDIUM
    keyword and no HIGH keyword, LOW exactly when it contains neither. *)
Theorem sensitivity_by_keywords (name : text) :
  (get_provider_sensitivity name = HIGH
   <-> contains_keyword high_keywords name)
  /\ (get_provider_sensitivity name = MEDIUM
      <-> ~ contains_keyword high_keywords name
          /\ contains_keyword medium_keywords name)
  /\ (get_provider_sensitivity name = LOW
      <-> ~ contains_keyword high_keywords name
          /\ ~ contains_keyword medium_keywords name).
Proof.
  unfold get_provider_sensitivity.
  pose proof (regex_match_contains_any_iff high_keywords name) as Hh.
  pose proof (regex_match_contains_any_iff medium_keywords name) as Hm.
  assert (Hh' : regex_match (LOWER name) (contains_any high_keywords) = false
                -> ~ contains_keyword high_keywords name).
  { intros E X; apply Hh in X; rewrite E in X; discriminate X. }
  assert (Hm' : regex_match (LOWER name) (contains_any medium_keywords) = false
                -> ~ contains_keyword medium_keywords name).
  { intros E X; apply Hm in X; rewrite E in X; discriminate X. }
  destruct (regex_match (LOWER name) (contains_any high_keywords));
    destruct (regex_match (LOWER name) (contains_any medium_keywords));
    intuition (try discriminate; try congruence).
Qed.

Lemma REPEAT_star_Z (n : Z) : REPEAT star n = repeat 42 (Z.to_nat n).
Proof.
  unfold REPEAT. induction (Z.to_nat n) as [|k IH]; simpl;
    [reflexivity | f_equal; exact IH].
Qed.

(** X2 — Masking keeps the length of the name, except that a HIGH name
    of at most 3 characters becomes "***"; a MEDIUM name of at most 6
    characters comes back unchanged (the guard is 5, and at 6 no
    character is left between the 3 kept at each end), a longer one keeps
    its first 3 and last 3 characters around stars; a LOW name is never
    changed. *)
Theorem mask_keeps_length (name : text) :
  ((3 < length name)%nat ->
   length (mask_provider_name name HIGH) = length name)
  /\ ((length name <= 3)%nat ->
      length (mask_provider_name name HIGH) = 3%nat)
  /\ length (mask_provider_name name MEDIUM) = length name
  /\ ((length name <= 6)%nat -> mask_provider_name name MEDIUM = name)
  /\ ((6 < length name)%nat ->
      mask_provider_name name MEDIUM
      = firstn 3 name ++ repeat 42 (length name - 6)
               ++ skipn (length name - 3) name)
  /\ mask_provider_name name LOW = name.
Proof.
  assert (Hmed : (6 <= length name)%nat ->
                 mask_provider_name name MEDIUM
                 = firstn 3 name ++ repeat 42 (length name - 6)
                          ++ skipn (length name - 3) name).
  { intros H. unfold mask_provider_name, LENGTH, LEFT, RIGHT.
    destruct (Z.leb_spec (Z.of_nat (length name)) 5); [lia|].
    rewrite REPEAT_star_Z.
    replace (Z.to_nat (Z.of_nat (length name) - 6)) with (length name - 6)%nat
      by lia.
    reflexivity. }
  assert (Hshort : (length name <= 5)%nat -> mask_provider_name name MEDIUM = name).
  { intros H. unfold mask_provider_name, LENGTH.
    destruct (Z.leb_spec (Z.of_nat (length name)) 5); [reflexivity | lia]. }
  split; [|split; [|split; [|split; [|split]]]].
  - intros H. rewrite mask_high_long by exact H.
    rewrite !length_app, length_firstn, repeat_length, length_skipn. lia.
  - intros H. rewrite mask_high_short by exact H. reflexivity.
  - destruct (Nat.le_gt_cases (length name) 5) as [H|H].
    + rewrite Hshort by exact H. reflexivity.
    + rewrite Hmed by lia.
      rewrite !length_app, length_firstn, repeat_length, length_skipn. lia.
  - intros H. destruct (Nat.le_gt_cases (length name) 5) as [H5|H5];
      [apply Hshort, H5|].
    rewrite Hmed by lia.
    replace (length name - 6)%nat with 0%nat by lia.
    replace (length name - 3)%nat with 3%nat by lia.
    cbn [repeat]. change ([] ++ skipn 3 name) with (skipn 3 name).
    apply firstn_skipn.
  - intros H. apply Hmed. lia.
  - reflexivity.
Qed.

Lemma mask_keeps_length_witness :
  mask_provider_name (str "Amazon") MEDIUM = str "Amazon"
  /\ length (mask_provider_name (str "Anthropic") HIGH) = 9%nat.
Proof.
  split.
  - apply (proj1 (proj2 (proj2 (proj2 (mask_keeps_length (str "Amazon")))))).
    vm_compute; lia.
  - apply (proj1 (mask_keeps_length (str "Anthropic"))). vm_compute; lia.
Defined.

(** ** The trigger of createTables.ts *)

(** X3 — [set_expense_defaults] can run again on its own result without
    changing it (it fires on every INSERT and UPDATE); it never lowers
    the sensitivity of a row, it leaves the name and the amount alone, a
    row that leaves it with HIGH sensitivity carries the HIGH mask of its
    name, and for a row with a file the policy is KEEP when the
    resulting sensitivity is HIGH or the amount exceeds 1000, and DELETE
    otherwise. *)
Theorem set_expense_defaults_stable (t1 t2 : timestamp) (r : expense) :
  let r' := set_expense_defaults t1 r in
  set_expense_defaults t2 r' = set_expense_defaults t2 r
  /\ sensitivity_rank (sensitivity_level r)
     <= sensitivity_rank (sensitivity_level r')
  /\ provider_name r' = provider_name r
  /\ Pg.amount r' = Pg.amount r
  /\ (sensitivity_level r' = HIGH ->
      provider_masked_name r'
      = Some (mask_provider_name (provider_name r) HIGH))
  /\ (file_id r <> None ->
      file_retention_policy r'
      = Some (if sensitivity_eqb (sensitivity_level r') HIGH
                 || (units 1000 <? Pg.amount r)
              then KEEP else DELETE)).
Proof.
  destruct r as [i n m a d c s f fp pol cb ca ua ru].
  unfold set_expense_defaults.
  destruct s; destruct (get_provider_sensitivity n) eqn:E; destruct f;
    destruct (units 1000 <? a) eqn:Ea;
    do 4 (cbn -[units Z.ltb]; rewrite ?E, ?Ea);
    repeat split; try reflexivity; try lia; try discriminate;
    try (intros H; contradiction H; reflexivity).
Qed.

Lemma set_expense_defaults_stable_witness :
  provider_masked_name
    (set_expense_defaults 0
       (mkExpense 1 (str "First Bank") None 120000 0 None LOW (Some 7) None
                  (Some DELETE) None 0 0 None))
  = Some (str "Fi*******k").
Proof.
  apply (proj1 (proj2 (proj2 (proj2 (proj2
           (set_expense_defaults_stable 0 0
              (mkExpense 1 (str "First Bank") None 120000 0 None LOW (Some 7)
                         None (Some DELETE) None 0 0 None))))))).
  vm_compute; reflexivity.
Defined.

(** ** The record listing (models/Expense.ts) *)

Section OrderFacts.
Context {A : Type}.
Variable key : A -> Z.

Lemma insert_sorted_StronglySorted (x : A) (l : list A) :
  StronglySorted (fun a b => key b <= key a) l ->
  StronglySorted (fun a b => key b <= key a)
                 (insert_sorted (fun a b => key b <? key a) x l).
Proof.
  induction 1 as [|y l Hl IH Hy]; simpl.
  - constructor; constructor.
  - destruct (Z.ltb_spec (key x) (key y)) as [Hlt|Hge].
    + constructor; [exact IH|].
      apply Forall_forall. intros z Hz.
      apply In_insert_sorted in Hz as [->|Hz]; [lia|].
      rewrite Forall_forall in Hy. apply Hy, Hz.
    + constructor; [constructor; assumption|].
      constructor; [exact Hge|].
      rewrite Forall_forall in Hy |- *. intros z Hz.
      specialize (Hy z Hz). lia.
Qed.

Lemma order_by_StronglySorted (l : list A) :
  StronglySorted (fun a b => key b <= key a)
                 (order_by (fun a b => key b <? key a) l).
Proof.
  induction l as [|x l IH]; simpl; [constructor|].
  apply insert_sorted_StronglySorted, IH.
Qed.
End OrderFacts.

Lemma insert_sorted_Permutation {A : Type} (before : A -> A -> bool)
      (x : A) (l : list A) :
  Permutation (insert_sorted before x l) (x :: l).
Proof.
  induction l as [|y l IH]; simpl; [reflexivity|].
  destruct (before y x); [|reflexivity].
  rewrite IH. apply perm_swap.
Qed.

Lemma order_by_Permutation {A : Type} (before : A -> A -> bool) (l : list A) :
  Permutation (order_by before l) l.
Proof.
  induction l as [|x l IH]; simpl; [reflexivity|].
  rewrite insert_sorted_Permutation. constructor. exact IH.
Qed.

Lemma StronglySorted_map_date (f : filters) (l : list expense) :
  StronglySorted (fun a b => date b <= date a) l ->
  StronglySorted (fun a b => date b <= date a) (map (select_fields f) l).
Proof.
  assert (Hd : forall r, date (select_fields f r) = date r).
  { intros r; unfold select_fields; destruct (showMasked f); reflexivity. }
  induction 1 as [|x l Hl IH Hx]; simpl; constructor; [exact IH|].
  rewrite Forall_forall in Hx |- *. intros y Hy.
  apply in_map_iff in Hy as (z & <- & Hz). rewrite !Hd. apply Hx, Hz.
Qed.

Lemma where_clause_visible (userId : Z) (f : filters) (r : expense) :
  where_clause userId f r = true -> visible_to userId r = true.
Proof.
  unfold where_clause, visible_to. rewrite !andb_true_iff. tauto.
Qed.

(** X4 — The record listing is ordered by date, latest first; it holds
    exactly the stored rows that pass the WHERE clause, each once (a
    permutation of them, with the selected columns); every row it returns
    was created by the requesting user or by no user; and unless
    [showMasked] is set, no row carries a [file_path]. *)
Theorem findAll_sorted_and_isolated (db : database) (userId : Z)
        (f : filters) :
  StronglySorted (fun a b => date b <= date a) (findAll db userId f)
  /\ Permutation (findAll db userId f)
                 (map (select_fields f)
                      (filter (where_clause userId f) (expenses db)))
  /\ (forall r, In r (findAll db userId f) ->
                created_by r = Some userId \/ created_by r = None)
  /\ (showMasked f = false ->
      forall r, In r (findAll db userId f) -> file_path r = None).
Proof.
  split; [|split; [|split]].
  - unfold findAll. apply StronglySorted_map_date.
    apply (order_by_StronglySorted date).
  - unfold findAll. apply Permutation_map, order_by_Permutation.
  - intros r Hr. apply In_findAll in Hr as (r0 & _ & Hw & ->).
    apply where_clause_visible in Hw. unfold visible_to in Hw.
    assert (Hc : created_by (select_fields f r0) = created_by r0)
      by (unfold select_fields; destruct (showMasked f); reflexivity).
    rewrite Hc. destruct (created_by r0) as [u|]; [|right; reflexivity].
    apply Z.eqb_eq in Hw; subst u. left; reflexivity.
  - intros Hs r Hr. apply In_findAll in Hr as (r0 & _ & _ & ->).
    unfold select_fields. rewrite Hs. reflexivity.
Qed.

Lemma findAll_sorted_and_isolated_witness :
  forallb (fun r => match file_path r with None => true | Some _ => false end)
          (findAll anthropic_db 1 no_filters) = true.
Proof.
  apply forallb_forall. intros r Hr.
  rewrite (proj2 (proj2 (proj2
             (findAll_sorted_and_isolated anthropic_db 1 no_filters)))
             eq_refl r Hr).
  reflexivity.
Defined.

(** ** The provider filter *)

Lemma like_percent_unfold (p s : text) :
  like (37 :: p) s
  = like p s || match s with [] => false | _ :: s' => like (37 :: p) s' end.
Proof. destruct s; reflexivity. Qed.

Lemma like_trailing_percent (s : text) : like [37] s = true.
Proof.
  induction s as [|x s IH]; [reflexivity|].
  rewrite like_percent_unfold, IH. apply orb_true_r.
Qed.

Lemma like_plain_prefix (w s : text) :
  plain_pattern w -> like (w ++ [37]) s = starts_with w s.
Proof.
  intros Hw; revert s; induction Hw as [|c w (H1 & H2 & H3) Hw IH]; intros s.
  - apply like_trailing_percent.
  - cbn [app like starts_with].
    apply Z.eqb_neq in H1, H2, H3. rewrite H1, H2, H3.
    destruct s as [|y s]; [reflexivity|]. rewrite IH. reflexivity.
Qed.

Lemma like_contains (w s : text) :
  plain_pattern w -> like (37 :: w ++ [37]) s = includes w s.
Proof.
  intros Hw; induction s as [|x s IH].
  - rewrite like_percent_unfold, includes_unfold, like_plain_prefix by exact Hw.
    reflexivity.
  - rewrite like_percent_unfold, includes_unfold, like_plain_prefix, IH
      by exact Hw.
    reflexivity.
Qed.

Lemma plain_pattern_LOWER (w : text) :
  plain_pattern w -> plain_pattern (LOWER w).
Proof.
  unfold plain_pattern, LOWER. intros H. apply Forall_map.
  eapply Forall_impl; [|exact H]. intros c (H1 & H2 & H3).
  unfold lower_char, is_upper.
  destruct (Z.leb_spec 65 c); destruct (Z.leb_spec c 90); simpl; lia.
Qed.

(** X5 — For a provider filter with no wildcard ('%', '_') and no
    backslash, [ILIKE] against '%filter%' is a case-insensitive substring
    test; so every row listed under such a filter contains the filter
    text, up to case, in its name or in its masked name. *)
Theorem provider_filter_is_substring (w : text) :
  plain_pattern w ->
  (forall s, ILIKE s (str "%" ++ w ++ str "%")
             = includes (LOWER w) (LOWER s))
  /\ (forall db userId f r,
         provider f = w -> w <> [] ->
         In r (findAll db userId f) ->
         includes (LOWER w) (LOWER (provider_name r)) = true
         \/ exists m, provider_masked_name r = Some m
                      /\ includes (LOWER w) (LOWER m) = true).
Proof.
  intros Hw.
  assert (HI : forall s, ILIKE s (str "%" ++ w ++ str "%")
                         = includes (LOWER w) (LOWER s)).
  { intros s. unfold ILIKE.
    replace (LOWER (str "%" ++ w ++ str "%")) with (37 :: LOWER w ++ [37]).
    - apply like_contains, plain_pattern_LOWER, Hw.
    - unfold LOWER. rewrite map_app, map_app. reflexivity. }
  split; [exact HI|].
  intros db userId f r Hp Hne Hr.
  apply In_findAll in Hr as (r0 & _ & Hwc & ->).
  destruct (select_fields_keeps f r0) as (-> & -> & _).
  unfold where_clause in Hwc. rewrite !andb_true_iff in Hwc.
  destruct Hwc as [[[[_ Hprov] _] _] _].
  rewrite Hp in Hprov. destruct w as [|c w]; [contradiction|].
  cbn [is_nil] in Hprov. rewrite HI in Hprov.
  apply orb_true_iff in Hprov as [H|H]; [left; exact H|].
  destruct (provider_masked_name r0) as [m|]; [|discriminate].
  rewrite HI in H. right; exists m; auto.
Qed.

Lemma provider_filter_is_substring_witness :
  ILIKE (str "Anthropic PBC") (str "%" ++ str "THROP" ++ str "%") = true.
Proof.
  rewrite (proj1 (provider_filter_is_substring (str "THROP")
                    ltac:(repeat constructor; discriminate))).
  reflexivity.
Defined.

(** ** Top providers and totals *)

Lemma where_clause_no_filters (userId : Z) (r : expense) :
  where_clause userId no_filters r = visible_to userId r.
Proof.
  unfold where_clause, visible_to, no_filters; simpl.
  rewrite !andb_true_r. reflexivity.
Qed.

Lemma filter_where_no_filters (userId : Z) (rows : list expense) :
  filter (where_clause userId no_filters) rows
  = filter (visible_to userId) rows.
Proof.
  apply filter_ext. intros r; apply where_clause_no_filters.
Qed.

Lemma text_eqb_sym (a b : text) : text_eqb a b = text_eqb b a.
Proof.
  destruct (text_eqb a b) eqn:E.
  - apply text_eqb_eq in E; subst. symmetry; apply text_eqb_refl.
  - destruct (text_eqb b a) eqn:E'; [|reflexivity].
    apply text_eqb_eq in E'; subst. rewrite text_eqb_refl in E. discriminate.
Qed.

Lemma add_to_group_total (n : text) (r : expense) (gs : list provider_row) :
  group_total n (add_to_group r gs)
  = group_total n gs
    + (if text_eqb (provider_name r) n then Pg.amount r else 0)
  /\ group_count n (add_to_group r gs)
     = group_count n gs + (if text_eqb (provider_name r) n then 1 else 0)
  /\ sum_totals (add_to_group r gs) = sum_totals gs + Pg.amount r.
Proof.
  unfold group_total, group_count, groups_named, sum_totals.
  induction gs as [|g gs (IH1 & IH2 & IH3)]; simpl.
  - destruct (text_eqb (provider_name r) n); simpl; repeat split; lia.
  - destruct (text_eqb (p_provider g) (provider_name r)) eqn:E; simpl.
    + apply text_eqb_eq in E. rewrite <- E.
      destruct (text_eqb (p_provider g) n); simpl; repeat split; lia.
    + rewrite IH3.
      destruct (text_eqb (p_provider g) n); simpl; rewrite ?IH1, ?IH2;
        repeat split; lia.
Qed.

Lemma group_by_provider_total (n : text) (rows : list expense) :
  group_total n (group_by_provider rows)
  = sum_amounts (rows_of_provider n rows)
  /\ group_count n (group_by_provider rows)
     = Z.of_nat (length (rows_of_provider n rows))
  /\ sum_totals (group_by_provider rows) = sum_amounts rows.
Proof.
  unfold group_by_provider.
  assert (H : forall acc,
             group_total n (fold_left (fun gs r => add_to_group r gs) rows acc)
             = group_total n acc + sum_amounts (rows_of_provider n rows)
             /\ group_count n
                  (fold_left (fun gs r => add_to_group r gs) rows acc)
                = group_count n acc
                  + Z.of_nat (length (rows_of_provider n rows))
             /\ sum_totals (fold_left (fun gs r => add_to_group r gs) rows acc)
                = sum_totals acc + sum_amounts rows).
  { induction rows as [|r rows IH]; intros acc.
    - unfold sum_amounts; simpl. repeat split; lia.
    - cbn [fold_left]. destruct (IH (add_to_group r acc)) as (H1 & H2 & H3).
      destruct (add_to_group_total n r acc) as (A1 & A2 & A3).
      rewrite H1, H2, H3, A1, A2, A3.
      unfold rows_of_provider, sum_amounts. cbn [filter map fold_right].
      destruct (text_eqb (provider_name r) n); cbn [map fold_right length];
        repeat split; lia. }
  destruct (H []) as (H1 & H2 & H3). rewrite H1, H2, H3.
  unfold group_total, group_count, sum_totals; simpl. repeat split; lia.
Qed.

Lemma add_to_group_names (r : expense) (gs : list provider_row) (n : text) :
  In n (map p_provider (add_to_group r gs)) ->
  In n (map p_provider gs) \/ n = provider_name r.
Proof.
  induction gs as [|h gs IH]; simpl.
  - intros [<-|[]]; right; reflexivity.
  - destruct (text_eqb (p_provider h) (provider_name r)); simpl; [tauto|].
    intros [X|X]; [tauto|]. destruct (IH X); tauto.
Qed.

Lemma add_to_group_NoDup (r : expense) (gs : list provider_row) :
  NoDup (map p_provider gs) -> NoDup (map p_provider (add_to_group r gs)).
Proof.
  induction gs as [|g gs IH]; simpl; intros Hnd.
  - constructor; [simpl; tauto | constructor].
  - inversion Hnd as [|? ? Hg Hnd']; subst.
    destruct (text_eqb (p_provider g) (provider_name r)) eqn:E; simpl.
    + constructor; assumption.
    + constructor; [|apply IH, Hnd'].
      intros X. apply add_to_group_names in X as [X|X]; [exact (Hg X)|].
      rewrite X, text_eqb_refl in E. discriminate E.
Qed.

Lemma add_to_group_positive (r : expense) (gs : list provider_row) :
  Forall (fun g => 0 < p_count g) gs ->
  Forall (fun g => 0 < p_count g) (add_to_group r gs).
Proof.
  induction 1 as [|g gs Hg Hgs IH]; simpl.
  - constructor; [simpl; lia | constructor].
  - destruct (text_eqb (p_provider g) (provider_name r)); constructor;
      simpl; auto; lia.
Qed.

Lemma group_by_provider_NoDup (rows : list expense) :
  NoDup (map p_provider (group_by_provider rows))
  /\ Forall (fun g => 0 < p_count g) (group_by_provider rows).
Proof.
  unfold group_by_provider.
  assert (H : forall acc,
             NoDup (map p_provider acc) ->
             Forall (fun g => 0 < p_count g) acc ->
             NoDup (map p_provider
                        (fold_left (fun gs r => add_to_group r gs) rows acc))
             /\ Forall (fun g => 0 < p_count g)
                       (fold_left (fun gs r => add_to_group r gs) rows acc)).
  { induction rows as [|r rows IH]; intros acc H1 H2; simpl; [auto|].
    apply IH; [apply add_to_group_NoDup, H1 | apply add_to_group_positive, H2]. }
  apply H; constructor.
Qed.

Lemma groups_named_absent (n : text) (gs : list provider_row) :
  ~ In n (map p_provider gs) -> groups_named n gs = [].
Proof.
  unfold groups_named.
  induction gs as [|k gs IH]; simpl; intros Hn; [reflexivity|].
  destruct (text_eqb (p_provider k) n) eqn:E.
  - apply text_eqb_eq in E. exfalso; apply Hn; left; exact E.
  - apply IH. intros X; apply Hn; right; exact X.
Qed.

Lemma group_total_own (g : provider_row) (gs : list provider_row) :
  NoDup (map p_provider gs) -> In g gs ->
  group_total (p_provider g) gs = p_total g
  /\ group_count (p_provider g) gs = p_count g.
Proof.
  unfold group_total, group_count.
  induction gs as [|h gs IH]; intros Hnd Hin; [contradiction|].
  simpl in Hnd. inversion Hnd as [|? ? Hh Hnd']; subst.
  destruct Hin as [->|Hin]; unfold groups_named; cbn [filter].
  - rewrite text_eqb_refl. fold (groups_named (p_provider g) gs).
    rewrite (groups_named_absent _ _ Hh). simpl. split; lia.
  - destruct (text_eqb (p_provider h) (p_provider g)) eqn:E.
    + apply text_eqb_eq in E. exfalso; apply Hh. rewrite E.
      apply in_map, Hin.
    + apply IH; assumption.
Qed.

Lemma StronglySorted_firstn {A : Type} (R : A -> A -> Prop) (n : nat)
      (l : list A) :
  StronglySorted R l -> StronglySorted R (firstn n l).
Proof.
  intros H; revert n; induction H as [|x l Hl IH Hx]; intros [|n]; simpl;
    try constructor; [apply IH|].
  rewrite Forall_forall in Hx |- *. intros y Hy.
  apply Hx, (In_firstn_In n), Hy.
Qed.

Lemma NoDup_firstn_map {A B : Type} (f : A -> B) (n : nat) (l : list A) :
  NoDup (map f l) -> NoDup (map f (firstn n l)).
Proof.
  revert n; induction l as [|x l IH]; intros [|n] H; simpl; try constructor.
  - inversion H as [|? ? Hx _]; subst. intros X; apply Hx.
    apply in_map_iff in X as (y & <- & Hy).
    apply in_map, (In_firstn_In n), Hy.
  - apply IH. inversion H; assumption.
Qed.

Lemma sum_totals_Permutation (a b : list provider_row) :
  Permutation a b -> sum_totals a = sum_totals b.
Proof.
  unfold sum_totals. induction 1; simpl; lia.
Qed.

Lemma group_by_provider_covers (rows : list expense) (r : expense) :
  In r rows -> In (provider_name r) (map p_provider (group_by_provider rows)).
Proof.
  intros Hr.
  destruct (in_dec (list_eq_dec Z.eq_dec) (provider_name r)
                   (map p_provider (group_by_provider rows))) as [H|H];
    [exact H | exfalso].
  destruct (group_by_provider_total (provider_name r) rows) as (_ & Hc & _).
  unfold group_count in Hc. rewrite (groups_named_absent _ _ H) in Hc.
  assert (Hin : In r (rows_of_provider (provider_name r) rows)).
  { apply filter_In. split; [exact Hr | apply text_eqb_refl]. }
  destruct (rows_of_provider (provider_name r) rows); [contradiction|].
  simpl in Hc. lia.
Qed.

(** X6 — The top-providers query of the statistics returns at most five
    entries, one per provider name, ordered by total, largest first.  The
    total and the count of an entry are the sum of the amounts and the
    number of the rows of that provider among those the user may see, so a
    count is at least 1.  When fewer than five entries come back, every
    provider of a visible row is listed and the totals add up to the total
    amount the first query of the statistics reports. *)
Theorem top_providers_account_for_rows (db : database) (userId : Z) :
  (length (top_providers_query db userId) <= 5)%nat
  /\ NoDup (map p_provider (top_providers_query db userId))
  /\ StronglySorted (fun a b => p_total b <= p_total a)
                    (top_providers_query db userId)
  /\ (forall g, In g (top_providers_query db userId) ->
        p_total g
        = sum_amounts (rows_of_provider (p_provider g)
                         (filter (visible_to userId) (expenses db)))
        /\ p_count g
           = Z.of_nat (length (rows_of_provider (p_provider g)
                                 (filter (visible_to userId) (expenses db))))
        /\ 0 < p_count g)
  /\ ((length (top_providers_query db userId) < 5)%nat ->
      (forall r, In r (expenses db) -> visible_to userId r = true ->
                 In (provider_name r)
                    (map p_provider (top_providers_query db userId)))
      /\ sum_totals (top_providers_query db userId)
         = snd (getStats_totals db userId)).
Proof.
  unfold top_providers_query. rewrite filter_where_no_filters.
  set (rows := filter (visible_to userId) (expenses db)).
  set (sorted := order_by (fun a b => p_total b <? p_total a)
                          (group_by_provider rows)).
  assert (Hperm : Permutation sorted (group_by_provider rows))
    by apply order_by_Permutation.
  destruct (group_by_provider_NoDup rows) as (Hnd & Hpos).
  split; [apply firstn_le_length|].
  split.
  { apply NoDup_firstn_map.
    eapply Permutation_NoDup; [|exact Hnd].
    apply Permutation_map, Permutation_sym, Hperm. }
  split.
  { apply StronglySorted_firstn. apply (order_by_StronglySorted p_total). }
  split.
  { intros g Hg. apply In_firstn_In in Hg.
    apply (Permutation_in _ Hperm) in Hg.
    destruct (group_total_own g _ Hnd Hg) as (Ht & Hc).
    destruct (group_by_provider_total (p_provider g) rows) as (Ht' & Hc' & _).
    rewrite Forall_forall in Hpos.
    repeat split; [congruence | congruence | apply Hpos, Hg]. }
  intros Hlt. rewrite length_firstn in Hlt.
  rewrite firstn_all2 by lia. split.
  - intros r Hr Hv.
    eapply Permutation_in;
      [apply Permutation_map, Permutation_sym, Hperm|].
    apply group_by_provider_covers. apply filter_In; auto.
  - rewrite (sum_totals_Permutation _ _ Hperm).
    destruct (group_by_provider_total [] rows) as (_ & _ & Hs).
    rewrite Hs. reflexivity.
Qed.

(** ** Creating, finding and deleting a record *)

Lemma filter_none {A : Type} (f : A -> bool) (l : list A) :
  (forall x, In x l -> f x = false) -> filter f l = [].
Proof.
  induction l as [|x l IH]; intros H; simpl; [reflexivity|].
  rewrite (H x (or_introl eq_refl)). apply IH. intros y Hy; apply H; right; exact Hy.
Qed.

Lemma findById_found (db : database) (i userId : Z) (r : expense) :
  findById db i userId = Some r ->
  In r (expenses db) /\ id r = i /\ visible_to userId r = true.
Proof.
  unfold findById. intros H.
  assert (Hin : In r (filter (fun r => (id r =? i) && visible_to userId r)
                             (expenses db))).
  { destruct (filter _ (expenses db)); [discriminate|].
    simpl in H. injection H as ->. left; reflexivity. }
  apply filter_In in Hin as (Hin & Hb). apply andb_true_iff in Hb as (Hi & Hv).
  apply Z.eqb_eq in Hi. auto.
Qed.



(** X8 — [delete] removes only rows with the given id that the user may
    see: afterwards [findById] finds nothing under that id for this user;
    the answer is true exactly when [findById] found a row before; a
    false answer leaves the table as it was; rows of other users and rows
    with other ids stay, in their order; and lookups of other ids are
    unchanged. *)
Theorem delete_removes_only_own (db : database) (i userId : Z) :
  findById (snd (delete db i userId)) i userId = None
  /\ (fst (delete db i userId) = true <-> findById db i userId <> None)
  /\ (fst (delete db i userId) = false -> snd (delete db i userId) = db)
  /\ (forall r, In r (expenses (snd (delete db i userId))) <->
                In r (expenses db)
                /\ (id r <> i \/ visible_to userId r = false))
  /\ (forall j u, j <> i ->
        findById (snd (delete db i userId)) j u = findById db j u)
  /\ next_id (snd (delete db i userId)) = next_id db.
Proof.
  unfold delete, findById. cbn [fst snd expenses next_id].
  set (hit := fun r => (id r =? i) && visible_to userId r).
  split; [|split; [|split; [|split; [|split]]]].
  - rewrite filter_none; [reflexivity|].
    intros r Hr. apply filter_In in Hr as (_ & Hr).
    apply negb_true_iff in Hr. exact Hr.
  - destruct (filter hit (expenses db)); simpl;
      split; intros; congruence.
  - intros Hf. destruct db as [rows nxt]. cbn [expenses next_id] in *. f_equal.
    assert (Hnone : forall r, In r rows -> hit r = false).
    { intros r Hr. destruct (hit r) eqn:E; [|reflexivity].
      assert (Hin : In r (filter hit rows)) by (apply filter_In; auto).
      destruct (filter hit rows); [contradiction | discriminate]. }
    clear Hf. induction rows as [|r rows IH]; cbn [filter]; [reflexivity|].
    pose proof (Hnone r (or_introl eq_refl)) as Hr. unfold hit in Hr.
    rewrite Hr. cbn [negb]. f_equal.
    apply IH. intros x Hx; apply Hnone; right; exact Hx.
  - intros r. rewrite filter_In. unfold hit.
    rewrite negb_true_iff, andb_false_iff, Z.eqb_neq. tauto.
  - intros j u Hne. f_equal.
    induction (expenses db) as [|r rows IH]; cbn [filter]; [reflexivity|].
    destruct ((id r =? i) && visible_to userId r) eqn:E; cbn [negb filter].
    + apply andb_true_iff in E as (E & _).
      apply Z.eqb_eq in E. rewrite E.
      destruct (Z.eqb_spec i j); [congruence|]. cbn [andb]. exact IH.
    + destruct ((id r =? j) && visible_to u r); rewrite IH; reflexivity.
  - reflexivity.
Qed.

(** ** Detection of suspicious commands (AntivirusService) *)

Lemma toLowerCase_no_upper (s : text) : no_upper (toLowerCase s).
Proof.
  unfold no_upper, toLowerCase. induction s as [|c s IH]; simpl; [constructor|].
  apply Forall_app; split; [|exact IH].
  unfold lower_unit. destruct (is_upper c) eqn:E.
  - constructor; [|constructor]. unfold is_upper in *.
    apply andb_true_iff in E as [E1 E2]. apply Z.leb_le in E1, E2.
    apply andb_false_iff; right. apply Z.leb_gt; lia.
  - destruct (c =? 304); [repeat constructor|].
    destruct (c =? 8490); [repeat constructor|].
    constructor; [exact E | constructor].
Qed.

Lemma canon_no_upper (x y : Z) :
  is_upper x = false -> is_upper y = false ->
  canon true x = canon true y -> x = y.
Proof.
  unfold canon, is_upper, is_lower. cbn [andb].
  intros Hx Hy.
  apply andb_false_iff in Hx, Hy.
  rewrite !Z.leb_gt in Hx, Hy.
  destruct (Z.leb_spec 97 x); destruct (Z.leb_spec x 122);
    destruct (Z.leb_spec 97 y); destruct (Z.leb_spec y 122);
    cbn [andb]; lia.
Qed.

Lemma Matches_Lit_no_upper (w s rest : text) :
  no_upper w -> no_upper s -> Matches true (Lit w) s rest -> s = w.
Proof.
  unfold no_upper.
  revert s; induction w as [|x w IH]; intros s Hw Hs H; simpl in H.
  - inversion H; reflexivity.
  - inversion H as [| | | |a b s1 s2 r Hc Hl| | | | | |]; subst.
    inversion Hc as [|x0 y r Hxy| | | | | | | | |]; subst.
    inversion Hw; subst. cbn [app] in Hs. inversion Hs; subst.
    rewrite (canon_no_upper x y) by assumption.
    cbn [app]. f_equal. apply IH; assumption.
Qed.

Lemma Lit_inj (a b : text) : Lit a = Lit b -> a = b.
Proof.
  revert b; induction a as [|x a IH]; intros [|y b] H; simpl in H;
    try discriminate; [reflexivity|].
  injection H as -> H. f_equal. apply IH, H.
Qed.

Lemma suspiciousPatterns_shape (p : RegExp) :
  In p suspiciousPatterns ->
  lastIndex p = 0%nat /\ ignoreCase p = true
  /\ exists w, pattern p = Lit w /\ no_upper w.
Proof.
  intros Hin. simpl in Hin.
  repeat (destruct Hin as [<-|Hin];
          [split; [reflexivity|]; split; [reflexivity|];
           eexists; split; [reflexivity|]; repeat constructor|]).
  contradiction.
Qed.

Lemma suspicious_tags_distinct :
  NoDup (map suspicious_tag suspiciousPatterns).
Proof.
  repeat (constructor; [simpl; intuition discriminate|]).
  constructor.
Qed.

Lemma includes_iff (needle hay : text) :
  includes needle hay = true <-> exists a b, hay = a ++ needle ++ b.
Proof.
  split; [apply includes_inv|]. intros (a & b & ->). apply includes_intro.
Qed.

Lemma test_lit_includes (p : RegExp) (w content : text) :
  lastIndex p = 0%nat -> ignoreCase p = true -> pattern p = Lit w ->
  no_upper w -> no_upper content ->
  fst (test p content) = includes w content.
Proof.
  intros Hli Hic Hp Hw Hc.
  pose proof (test_fresh_iff p content Hli) as Hiff.
  rewrite Hic, Hp in Hiff.
  destruct (includes w content) eqn:E.
  - apply Hiff. apply includes_iff in E as (a & b & ->).
    exists a, w, b. split; [reflexivity | apply Matches_Lit].
  - destruct (fst (test p content)); [|reflexivity].
    destruct (proj1 Hiff eq_refl) as (pre & s1 & rest & -> & Hm).
    apply Matches_Lit_no_upper in Hm; [subst s1| exact Hw |].
    + rewrite includes_intro in E. discriminate E.
    + unfold no_upper in *. apply Forall_app in Hc as (_ & Hc).
      apply Forall_app in Hc as (Hc & _). exact Hc.
Qed.

Lemma checkSuspiciousPatterns_eq (buffer : Buffer) :
  checkSuspiciousPatterns buffer
  = map suspicious_tag
        (filter (fun p => fst (test p (scanned_text buffer)))
                suspiciousPatterns)
    ++ (if (3 <=? length (filter_matching
                            (snd (push_matching suspicious_tag
                                    suspiciousPatterns (scanned_text buffer)))
                            (scanned_text buffer)))%nat
        then [HIGH_RISK] else []).
Proof.
  unfold checkSuspiciousPatterns, scanned_text.
  rewrite <- (push_matching_fst suspicious_tag suspiciousPatterns)
    by (intros p; unfold suspicious_tag; rewrite source_test; reflexivity).
  destruct (push_matching suspicious_tag suspiciousPatterns _) as [ts ps].
  cbn [fst snd]. destruct (3 <=? _)%nat; [reflexivity|].
  rewrite app_nil_r. reflexivity.
Qed.

Lemma In_map_filter_distinct {A : Type} (f : A -> string) (keep : A -> bool)
      (l : list A) (p : A) :
  NoDup (map f l) -> In p l ->
  (In (f p) (map f (filter keep l)) <-> keep p = true).
Proof.
  intros Hnd Hin.
  rewrite (count_occ_In string_dec).
  rewrite (count_occ_map_filter f keep l p Hnd Hin).
  destruct (keep p); split; intros; try lia; try congruence.
Qed.

Lemma toString_utf8_ascii (b : Buffer) : ascii_only b -> toString_utf8 b = b.
Proof.
  unfold toString_utf8.
  induction 1 as [|x b Hx Hb IH]; [reflexivity|].
  assert (Hstep : utf8_step None x = ([x], None)).
  { cbn [utf8_step]. unfold utf8_lead.
    destruct (Z.leb_spec x 127); [reflexivity | lia]. }
  cbn [utf8_decode]. rewrite Hstep. cbn [app flat_map]. rewrite IH.
  unfold utf16_units. destruct (Z.ltb_spec x 65536); [reflexivity | lia].
Qed.

Lemma toLowerCase_ascii (b : Buffer) : ascii_only b -> toLowerCase b = LOWER b.
Proof.
  unfold toLowerCase, LOWER.
  induction 1 as [|x b Hx Hb IH]; [reflexivity|].
  cbn [flat_map map]. rewrite IH. unfold lower_unit, lower_char.
  destruct (is_upper x); [reflexivity|].
  destruct (Z.eqb_spec x 304); [lia|].
  destruct (Z.eqb_spec x 8490); [lia|]. reflexivity.
Qed.

Lemma utf8_decode_ascii (b : Buffer) :
  ascii_only b -> scanned_text b = LOWER b.
Proof.
  intros H. unfold scanned_text.
  rewrite (toString_utf8_ascii b H). apply toLowerCase_ascii, H.
Qed.

(** X9 — A literal pattern of the list of suspicious commands is reported
    exactly when the decoded, lower-cased content of the buffer contains
    its text; the buffer is then not clean whatever its type.  On a buffer
    of ASCII bytes this is the case as soon as the bytes contain the text
    in any mix of upper and lower case. *)
Theorem suspicious_command_reported (buffer : Buffer) (p : RegExp) (w : text) :
  In p suspiciousPatterns -> pattern p = Lit w ->
  (In (suspicious_tag p) (checkSuspiciousPatterns buffer)
   <-> includes w (scanned_text buffer) = true)
  /\ (includes w (scanned_text buffer) = true ->
      forall t0 t1 filename mimeType,
        isClean (scanFile t0 t1 buffer filename mimeType) = false)
  /\ (ascii_only buffer ->
      forall pre v post,
        buffer = pre ++ v ++ post -> LOWER v = w ->
        In (suspicious_tag p) (checkSuspiciousPatterns buffer)).
Proof.
  intros Hin Hp.
  destruct (suspiciousPatterns_shape p Hin) as (Hli & Hic & w' & Hp' & Hw).
  assert (w' = w) by (apply Lit_inj; congruence). subst w'.
  assert (Htag : In (suspicious_tag p) (checkSuspiciousPatterns buffer)
                 <-> includes w (scanned_text buffer) = true).
  { rewrite checkSuspiciousPatterns_eq, in_app_iff.
    rewrite (In_map_filter_distinct suspicious_tag _ suspiciousPatterns p
               suspicious_tags_distinct Hin).
    rewrite (test_lit_includes p w (scanned_text buffer) Hli Hic Hp Hw
               (toLowerCase_no_upper _)).
    split; [|tauto]. intros [H|H]; [exact H|].
    destruct (3 <=? _)%nat; [|contradiction].
    destruct H as [H|[]]. unfold suspicious_tag, HIGH_RISK in H.
    discriminate H. }
  split; [exact Htag|]. split.
  - intros Hinc t0 t1 filename mimeType. apply Htag in Hinc.
    rewrite scanFile_threats. cbv zeta. cbn [isClean].
    destruct (checkSuspiciousPatterns buffer) as [|t ts]; [contradiction|].
    rewrite !length_app. cbn [length].
    apply Nat.eqb_neq. lia.
  - intros Hascii pre v post Hb Hv. apply Htag.
    rewrite (utf8_decode_ascii buffer Hascii), Hb.
    unfold LOWER in *. rewrite !map_app, Hv. apply includes_intro.
Qed.

Lemma suspicious_command_reported_witness :
  In (suspicious_tag (lit "certutil" "certutil"))
     (checkSuspiciousPatterns (str "run CertUtil -decode a b")).
Proof.
  apply (proj2 (proj2 (suspicious_command_reported
                         (str "run CertUtil -decode a b")
                         (lit "certutil" "certutil") (str "certutil")
                         ltac:(simpl; tauto) eq_refl))
               ltac:(vm_compute; repeat (constructor; [split; discriminate|]);
                     constructor)
               (str "run ") (str "CertUtil") (str " -decode a b")
               eq_refl eq_refl).
Defined.

(** ** The HIGH_RISK tag and the recommendation *)

Lemma test_fresh_eq (p : RegExp) (s : text) :
  lastIndex p = 0%nat ->
  test p s
  = match search (ignoreCase p) (pattern p) 0 s with
    | Some m => (true, if global p then set_lastIndex p (m_end m) else p)
    | None => (false, if global p then set_lastIndex p 0 else p)
    end.
Proof.
  intros Hli. unfold test, exec. rewrite Hli.
  replace (if global p then 0%nat else 0%nat) with 0%nat
    by (destruct (global p); reflexivity).
  cbn [Nat.ltb Nat.leb skipn].
  destruct (search (ignoreCase p) (pattern p) 0 s); reflexivity.
Qed.

Lemma test_failed_again (p : RegExp) (s : text) :
  lastIndex p = 0%nat -> fst (test p s) = false ->
  fst (test (snd (test p s)) s) = false.
Proof.
  intros Hli. rewrite (test_fresh_eq p s Hli).
  destruct (search (ignoreCase p) (pattern p) 0 s) as [m|] eqn:E;
    [discriminate|].
  intros _. cbn [snd].
  rewrite test_fresh_eq by (destruct (global p); [reflexivity | exact Hli]).
  destruct (global p); cbn [set_lastIndex ignoreCase pattern];
    rewrite E; reflexivity.
Qed.

Lemma filter_matching_le (tag : RegExp -> string) (ps : list RegExp)
      (s : text) :
  Forall (fun p => lastIndex p = 0%nat) ps ->
  (length (filter_matching (snd (push_matching tag ps s)) s)
   <= length (fst (push_matching tag ps s)))%nat.
Proof.
  induction 1 as [|p ps Hp Hps IH]; simpl; [lia|].
  pose proof (test_failed_again p s Hp) as Hagain.
  destruct (test p s) as [hit p'].
  destruct (push_matching tag ps s) as [ts ps']. cbn [fst snd] in *.
  cbn [filter_matching].
  destruct (test p' s) as [hit' p'']. cbn [fst] in Hagain.
  destruct hit.
  - destruct hit'; cbn [length app]; lia.
  - rewrite Hagain by reflexivity. cbn [app]. exact IH.
Qed.

Lemma suspicious_tag_includes (p : RegExp) :
  string_includes (suspicious_tag p) "SUSPICIOUS_PATTERN" = true.
Proof.
  unfold string_includes, suspicious_tag.
  apply includes_iff. exists [].
  eexists. unfold str.
  change (list_ascii_of_string
            ("SUSPICIOUS_PATTERN: Potentially malicious pattern detected ("
               ++ source p ++ ")"))
    with (list_ascii_of_string "SUSPICIOUS_PATTERN"
            ++ list_ascii_of_string
                 (": Potentially malicious pattern detected ("
                    ++ source p ++ ")")).
  rewrite map_app. reflexivity.
Qed.

(** X10 — The HIGH_RISK tag never comes alone: when
    [checkSuspiciousPatterns] reports it, it is the last tag, at least
    three SUSPICIOUS_PATTERN tags come before it, each of a pattern of the
    list that matches the content, and the recommendation for the scan of
    such a buffer is not to process the file. *)
Theorem HIGH_RISK_follows_three_tags (buffer : Buffer) :
  In HIGH_RISK (checkSuspiciousPatterns buffer) ->
  (exists tags,
      checkSuspiciousPatterns buffer = tags ++ [HIGH_RISK]
      /\ (3 <= length tags)%nat
      /\ forall t, In t tags ->
           exists p, In p suspiciousPatterns /\ t = suspicious_tag p
                     /\ fst (test p (scanned_text buffer)) = true)
  /\ forall t0 t1 filename mimeType,
       getSecurityRecommendation (scanFile t0 t1 buffer filename mimeType)
       = DO_NOT_PROCESS.
Proof.
  intros Hin.
  assert (Hfresh : Forall (fun p => lastIndex p = 0%nat) suspiciousPatterns).
  { apply Forall_forall. intros p Hp.
    apply (suspiciousPatterns_shape p Hp). }
  pose proof (filter_matching_le suspicious_tag suspiciousPatterns
                (scanned_text buffer) Hfresh) as Hle.
  rewrite push_matching_fst in Hle
    by (intros p; unfold suspicious_tag; rewrite source_test; reflexivity).
  rewrite checkSuspiciousPatterns_eq in Hin |- *.
  set (tags := map suspicious_tag
                   (filter (fun p => fst (test p (scanned_text buffer)))
                           suspiciousPatterns)) in *.
  assert (Htags : forall t, In t tags ->
             exists p, In p suspiciousPatterns /\ t = suspicious_tag p
                       /\ fst (test p (scanned_text buffer)) = true).
  { intros t Ht. apply in_map_iff in Ht as (p & <- & Hp).
    apply filter_In in Hp as (Hp & Hhit). exists p; auto. }
  destruct (3 <=? length (filter_matching _ _))%nat eqn:E3.
  - apply Nat.leb_le in E3.
    assert (Hlen : (3 <= length tags)%nat) by lia.
    split; [exists tags; auto|].
    intros t0 t1 filename mimeType. rewrite scanFile_threats. cbv zeta.
    rewrite checkSuspiciousPatterns_eq. fold tags.
    destruct (3 <=? length (filter_matching _ _))%nat eqn:E3';
      [|apply Nat.leb_gt in E3'; lia].
    set (ts := checkFileSignatures buffer ++ _).
    assert (Hts : (4 <= length ts)%nat).
    { unfold ts. rewrite !length_app. cbn [length]. lia. }
    unfold getSecurityRecommendation. cbn [isClean threats].
    destruct (length ts) as [|[|[|n]]] eqn:El; try lia.
    reflexivity.
  - exfalso. rewrite app_nil_r in Hin.
    apply Htags in Hin as (p & _ & Hp & _).
    unfold HIGH_RISK, suspicious_tag in Hp. discriminate Hp.
Qed.

Lemma HIGH_RISK_follows_three_tags_witness :
  getSecurityRecommendation
    (scanFile 0 1 three_commands_twice "notes.txt" "text/plain")
  = DO_NOT_PROCESS.
Proof.
  apply (proj2 (HIGH_RISK_follows_three_tags three_commands_twice
                  ltac:(vm_compute; tauto))).
Defined.

(** X11 — The recommendation is "safe to process" exactly for a clean
    result; a result that is not clean with three tags or more, or with
    the HIGH_RISK tag, is not to be processed; a single
    SUSPICIOUS_PATTERN tag asks for a review; and the result of a scan
    one of whose checks threw gets "proceed with caution". *)
Theorem recommendation_by_threats (r : ScanResult) :
  (getSecurityRecommendation r
   = "File passed security scan - safe to process"%string
   <-> isClean r = true)
  /\ (isClean r = false ->
      (3 <= length (threats r))%nat \/ In HIGH_RISK (threats r) ->
      getSecurityRecommendation r = DO_NOT_PROCESS)
  /\ (forall p, isClean r = false -> threats r = [suspicious_tag p] ->
        getSecurityRecommendation r
        = "File contains potentially suspicious content - review before processing"%string)
  /\ (forall signatures potentialMacro macros patterns sizeAnomalies
             t0 t1 buffer filename mimeType e,
        scan_checks signatures potentialMacro macros patterns sizeAnomalies
                    buffer mimeType = Thrown e ->
        getSecurityRecommendation
          (scanFile_with signatures potentialMacro macros patterns
                         sizeAnomalies t0 t1 buffer filename mimeType)
        = "File contains security concerns - proceed with caution"%string).
Proof.
  split; [|split; [|split]].
  - unfold getSecurityRecommendation. destruct (isClean r).
    + split; reflexivity.
    + split; [|discriminate].
      destruct (_ && _); [discriminate|].
      destruct (_ || _); discriminate.
  - intros Hc H. unfold getSecurityRecommendation. rewrite Hc.
    destruct (threats r) as [|t [|t2 ts]] eqn:Et.
    + destruct H as [H|[]]. simpl in H. lia.
    + destruct H as [H|[->|[]]]; [simpl in H; lia|]. reflexivity.
    + cbn [length Nat.eqb andb]. cbn [length] in H.
      destruct H as [H|H].
      * apply Nat.leb_le in H. rewrite H. reflexivity.
      * replace (existsb _ _) with true;
          [rewrite orb_true_r; reflexivity|].
        symmetry. apply existsb_exists. exists HIGH_RISK. split; [exact H|].
        reflexivity.
  - intros p Hc Ht. unfold getSecurityRecommendation. rewrite Hc, Ht.
    cbn [length Nat.eqb andb]. rewrite suspicious_tag_includes. reflexivity.
  - intros signatures potentialMacro macros patterns sizeAnomalies
           t0 t1 buffer filename mimeType e H.
    unfold scanFile_with. rewrite H. reflexivity.
Qed.

(** ** The signature and size checks *)

Lemma hex_misaligned (hi lo : Z) :
  0 <= hi < 16 -> 0 <= lo < 16 ->
  hex [16 * hi + 4; 213; 160 + lo]
  = [hex_digit hi] ++ str "4d5a" ++ [hex_digit lo].
Proof.
  intros Hhi Hlo. unfold hex. cbn [flat_map app].
  replace ((16 * hi + 4) / 16) with hi by (Z.div_mod_to_equations; lia).
  replace ((16 * hi + 4) mod 16) with 4 by (Z.div_mod_to_equations; lia).
  replace ((160 + lo) / 16) with 10 by (Z.div_mod_to_equations; lia).
  replace ((160 + lo) mod 16) with lo by (Z.div_mod_to_equations; lia).
  reflexivity.
Qed.

(** X12 — The signature check searches the hexadecimal text of the first
    16 bytes, so it also fires where no byte pair 4D 5A exists: three
    bytes whose hexadecimal digits read x4 D5 Ay within the first 16 bytes
    are reported as an embedded executable, and the scan is not clean. *)
Theorem misaligned_MZ_is_flagged (hi lo : Z) (pre post : Buffer)
        (t0 t1 : Z) (filename mimeType : string) :
  0 <= hi < 16 -> 0 <= lo < 16 -> (length pre + 3 <= 16)%nat ->
  includes [77; 90] [16 * hi + 4; 213; 160 + lo] = false
  /\ checkFileSignatures (pre ++ [16 * hi + 4; 213; 160 + lo] ++ post)
     = [EXECUTABLE_EMBEDDED]
  /\ isClean (scanFile t0 t1 (pre ++ [16 * hi + 4; 213; 160 + lo] ++ post)
                       filename mimeType) = false.
Proof.
  intros Hhi Hlo Hlen.
  assert (Hsig : checkFileSignatures
                   (pre ++ [16 * hi + 4; 213; 160 + lo] ++ post)
                 = [EXECUTABLE_EMBEDDED]).
  { unfold checkFileSignatures.
    rewrite firstn_app, firstn_all2 by lia.
    rewrite firstn_app.
    replace (firstn (16 - length pre) [16 * hi + 4; 213; 160 + lo])
      with [16 * hi + 4; 213; 160 + lo]
      by (rewrite firstn_all2; [reflexivity | cbn [length]; lia]).
    rewrite !hex_app, hex_misaligned by assumption.
    match goal with
    | |- context [includes (str "4d5a") (hex pre ++ ?mid ++ ?tail)] =>
        assert (Hi : includes (str "4d5a") (hex pre ++ mid ++ tail) = true)
          by (apply includes_iff;
              exists (hex pre ++ [hex_digit hi]), ([hex_digit lo] ++ tail);
              rewrite <- !app_assoc; reflexivity);
        rewrite Hi
    end.
    reflexivity. }
  split; [|split; [exact Hsig|]].
  - unfold includes, starts_with.
    destruct (Z.eqb_spec 77 (16 * hi + 4)); [lia|].
    cbn [andb orb]. change (77 =? 213) with false.
    rewrite andb_false_r. reflexivity.
  - rewrite scanFile_threats. cbv zeta. rewrite Hsig. reflexivity.
Qed.

Lemma misaligned_MZ_is_flagged_witness :
  checkFileSignatures (str "%PDF-1.7" ++ [16 * 0 + 4; 213; 160 + 0] ++ [])
  = [EXECUTABLE_EMBEDDED].
Proof.
  apply (misaligned_MZ_is_flagged 0 0 (str "%PDF-1.7") [] 0 1
           "a.pdf" "application/pdf");
    [lia | lia | vm_compute; lia].
Defined.

(** X13 — The size check reports nothing for a buffer of at most 10 MiB
    and nothing for a type that does not begin with "image/"; what it
    reports is SIZE_ANOMALY or STEGANOGRAPHY_RISK; a PNG above 50 MiB and a
    JPEG above 100 MiB get SIZE_ANOMALY. *)
Theorem size_check_limits (buffer : Buffer) (mimeType : string) :
  (Z.of_nat (length buffer) <= 10 * 1024 * 1024 ->
   checkFileSizeAnomalies buffer mimeType = [])
  /\ (String.prefix "image/" mimeType = false ->
      checkFileSizeAnomalies buffer mimeType = [])
  /\ (forall t, In t (checkFileSizeAnomalies buffer mimeType) ->
        t = SIZE_ANOMALY \/ t = STEGANOGRAPHY_RISK)
  /\ (mimeType = "image/png"%string ->
      50 * 1024 * 1024 < Z.of_nat (length buffer) ->
      In SIZE_ANOMALY (checkFileSizeAnomalies buffer mimeType))
  /\ (mimeType = "image/jpeg"%string ->
      100 * 1024 * 1024 < Z.of_nat (length buffer) ->
      In SIZE_ANOMALY (checkFileSizeAnomalies buffer mimeType)).
Proof.
  unfold checkFileSizeAnomalies. cbv zeta.
  set (size := Z.of_nat (length buffer)).
  split; [|split; [|split; [|split]]].
  - intros Hsmall.
    destruct (Z.ltb_spec (50 * 1024 * 1024) size); [lia|].
    destruct (Z.ltb_spec (100 * 1024 * 1024) size); [lia|].
    destruct (Z.ltb_spec (10 * 1024 * 1024) size); [lia|].
    rewrite !andb_false_r. reflexivity.
  - intros Hpre.
    destruct (String.eqb_spec mimeType "image/png") as [->|_];
      [discriminate Hpre|].
    destruct (String.eqb_spec mimeType "image/jpeg") as [->|_];
      [discriminate Hpre|].
    rewrite Hpre. reflexivity.
  - intros t Ht. rewrite !in_app_iff in Ht.
    destruct Ht as [Ht|[Ht|Ht]];
      repeat match type of Ht with
             | In _ (if ?b then _ else _) => destruct b
             end;
      try contradiction; destruct Ht as [Ht|[]]; subst t; auto.
  - intros -> Hbig. apply in_or_app. left.
    destruct (Z.ltb_spec (50 * 1024 * 1024) size); [|lia].
    left; reflexivity.
  - intros -> Hbig. apply in_or_app. right. apply in_or_app. left.
    destruct (Z.ltb_spec (100 * 1024 * 1024) size); [|lia].
    left; reflexivity.
Qed.

(** ** The outcomes of the upload route *)





Section OutcomeFacts.
Variable pdfParse : Buffer -> completion text.
Variable recognize : Buffer -> string -> completion (text * option Q).
Variable MAX_FILE_SIZE : Z.
Variable TEXT_PREVIEW_LIMIT : nat.
Variable TESS_LANG : string.
Variable now : nat -> Z.

Local Abbreviation run' :=
  (handle pdfParse recognize MAX_FILE_SIZE TEXT_PREVIEW_LIMIT TESS_LANG now).
Local Abbreviation extract' := (extractText pdfParse recognize TESS_LANG).

Lemma handle_cases (file : UploadedFile) :
  run' (Some file)
  = if MAX_FILE_SIZE <? size file then ([], HttpError 413 "File too large")
    else if negb (validateFileType (buffer file) (mimetype file))
    then ([], HttpError 400 "Invalid file format")
    else
      let scanResult :=
        scanFile (now 0%nat) (now 1%nat) (buffer file) (originalname file)
                 (mimetype file) in
      if negb (isClean scanResult)
      then ([Scan],
            HttpError 403
              ("Security scan failed: "
                 ++ String.concat ", " (threats scanResult) ++ ". "
                 ++ getSecurityRecommendation scanResult))
      else
        match extract' (buffer file) (mimetype file) with
        | Thrown e =>
            ([Scan; Extract], HttpError 422 ("Extraction failed: " ++ e))
        | Normal out =>
            if is_nil (trim (ex_text out))
            then ([Scan; Extract],
                  HttpError 422
                    (if String.eqb (mimetype file) "application/pdf"
                     then "No selectable text in PDF (likely a scanned image). PDF OCR fallback is not enabled yet."
                     else "Could not extract text from file"))
            else
              ([Scan; Extract; Parse],
               Json (mkPayload (originalname file) (size file) (mimetype file)
                       (ex_engine out) (ocrConfidence out)
                       (if (TEXT_PREVIEW_LIMIT <? length (ex_text out))%nat
                        then firstn TEXT_PREVIEW_LIMIT (ex_text out)
                             ++ [ellipsis]
                        else ex_text out)
                       (parseInvoiceData (ex_text out))))
        end.
Proof.
  unfold handle, post_invoice, hbind, when_, throw, ret, start.
  destruct (MAX_FILE_SIZE <? size file); [reflexivity|].
  destruct (validateFileType (buffer file) (mimetype file)); [|reflexivity].
  cbv zeta. cbn [negb app].
  destruct (isClean (scanFile _ _ _ _ _)); [|reflexivity].
  cbn [negb app].
  destruct (extract' (buffer file) (mimetype file)) as [out|e]; [|reflexivity].
  destruct (is_nil (trim (ex_text out))); [|reflexivity].
  destruct (String.eqb (mimetype file) "application/pdf"); reflexivity.
Qed.

End OutcomeFacts.

(** X14 — A request is answered with the processed payload only after
    every barrier: the file is within the size limit, its magic bytes fit
    its type, the scan is clean and has no tag, the three stages ran in
    order, the extraction returned a text that is not blank, the payload
    repeats the name, size and type of the file and carries the data
    parsed from that text, and the preview has at most the limit plus one
    code units. *)
Theorem success_passed_every_barrier
        (pdfParse : Buffer -> completion text)
        (recognize : Buffer -> string -> completion (text * option Q))
        (MAX_FILE_SIZE : Z) (TEXT_PREVIEW_LIMIT : nat) (TESS_LANG : string)
        (now : nat -> Z) (file : option UploadedFile)
        (log : list stage) (p : payload) :
  handle pdfParse recognize MAX_FILE_SIZE TEXT_PREVIEW_LIMIT TESS_LANG now file
  = (log, Json p) ->
  exists f out,
    file = Some f
    /\ size f <= MAX_FILE_SIZE
    /\ validateFileType (buffer f) (mimetype f) = true
    /\ scanFile (now 0%nat) (now 1%nat) (buffer f) (originalname f)
                (mimetype f)
       = mkScanResult true [] (now 1%nat - now 0%nat)
    /\ log = [Scan; Extract; Parse]
    /\ extractText pdfParse recognize TESS_LANG (buffer f) (mimetype f)
       = Normal out
    /\ trim (ex_text out) <> []
    /\ originalName p = originalname f /\ file_size p = size f
    /\ file_type p = mimetype f
    /\ extractedData p = parseInvoiceData (ex_text out)
    /\ (length (textPreview p) <= TEXT_PREVIEW_LIMIT + 1)%nat
    /\ (length (textPreview p) <= length (ex_text out))%nat.
Proof.
  destruct file as [f|]; [|discriminate].
  rewrite handle_cases. cbv zeta.
  destruct (Z.ltb_spec MAX_FILE_SIZE (size f)) as [|Hsize]; [discriminate|].
  destruct (validateFileType (buffer f) (mimetype f)) eqn:Hmagic;
    [|discriminate].
  cbn [negb].
  destruct (isClean (scanFile _ _ _ _ _)) eqn:Hclean; [|discriminate].
  cbn [negb].
  destruct (extractText _ _ _ _ _) as [out|e] eqn:Hout; [|discriminate].
  destruct (is_nil (trim (ex_text out))) eqn:Hnil; [discriminate|].
  intros H. injection H as <- <-.
  exists f, out. cbn [originalName file_size file_type extractedData
                      textPreview].
  repeat split; try assumption; try reflexivity.
  - pose proof (scanFile_threats (now 0%nat) (now 1%nat) (buffer f)
                  (originalname f) (mimetype f)) as Ht.
    cbv zeta in Ht. rewrite Ht in Hclean |- *. cbn [isClean] in Hclean.
    destruct (_ ++ _); [reflexivity | discriminate Hclean].
  - intros E. rewrite E in Hnil. discriminate Hnil.
  - destruct (Nat.ltb_spec TEXT_PREVIEW_LIMIT (length (ex_text out))).
    + rewrite length_app, length_firstn. cbn [length]. lia.
    + lia.
  - destruct (Nat.ltb_spec TEXT_PREVIEW_LIMIT (length (ex_text out))).
    + rewrite length_app, length_firstn. cbn [length]. lia.
    + lia.
Qed.

Lemma success_passed_every_barrier_witness :
  validateFileType (str "%PDF-1.4 invoice") "application/pdf" = true
  /\ isClean (scanFile 0 0 (str "%PDF-1.4 invoice") "a.pdf" "application/pdf")
     = true.
Proof.
  destruct (success_passed_every_barrier
              (fun _ => Normal (str "Invoice total 12.00 USD, thank you"))
              (fun _ _ => Thrown "no OCR") 100 10%nat "eng" (fun _ => 0)
              (Some (mkFile (str "%PDF-1.4 invoice") "a.pdf"
                            "application/pdf" 16))
              [Scan; Extract; Parse]
              (mkPayload "a.pdf" 16 "application/pdf" pdf_parse None
                 (firstn 10 (str "Invoice total 12.00 USD, thank you")
                         ++ [ellipsis])
                 (parseInvoiceData (str "Invoice total 12.00 USD, thank you")))
              ltac:(vm_compute; reflexivity))
    as (f & out & Hf & _ & Hmagic & Hscan & _).
  injection Hf as <-. cbn [buffer mimetype originalname] in Hmagic, Hscan.
  split; [exact Hmagic | rewrite Hscan; reflexivity].
Defined.



(** ** The magic bytes *)

Lemma hex_digit_inj (a b : Z) :
  0 <= a < 16 -> 0 <= b < 16 -> hex_digit a = hex_digit b -> a = b.
Proof.
  unfold hex_digit. intros Ha Hb.
  destruct (Z.ltb_spec a 10); destruct (Z.ltb_spec b 10); lia.
Qed.

Lemma hex_inj (a b : Buffer) : bytes a -> bytes b -> hex a = hex b -> a = b.
Proof.
  unfold bytes. intros Ha; revert b.
  induction Ha as [|x a Hx Ha IH]; intros b Hb H.
  - destruct b; [reflexivity | discriminate H].
  - destruct Hb as [|y b Hy Hb]; [discriminate H|].
    unfold hex in H. cbn [flat_map app] in H.
    injection H as H1 H2 H3.
    apply hex_digit_inj in H1; [|Z.div_mod_to_equations; lia ..].
    apply hex_digit_inj in H2; [|Z.div_mod_to_equations; lia ..].
    f_equal; [Z.div_mod_to_equations; lia | apply IH; assumption].
Qed.

Lemma firstn_firstn_le {A : Type} (n m : nat) (l : list A) :
  (n <= m)%nat -> firstn n (firstn m l) = firstn n l.
Proof. intros H. rewrite firstn_firstn. f_equal. lia. Qed.

(** X16 — The magic-byte check accepts four declared types only.  A JPEG
    must start with FF D8 FF, and a PNG, on a buffer of bytes, with the
    eight bytes of the PNG signature.  For a PDF the first four bytes are
    compared with "%PDF" after their high bit is cleared, so a buffer that
    starts with A5 D0 C4 C6 is accepted as a PDF too. *)
Theorem validateFileType_magic (buffer : Buffer) (mimeType : string) :
  (validateFileType buffer mimeType = true ->
   In mimeType
      ["application/pdf"; "image/jpeg"; "image/jpg"; "image/png"]%string)
  /\ (validateFileType buffer "application/pdf" = true
      <-> map (fun b => Z.land b 127) (firstn 4 buffer) = str "%PDF")
  /\ (validateFileType buffer "image/jpeg" = true
      <-> firstn 3 buffer = [255; 216; 255])
  /\ (validateFileType buffer "image/jpg" = true
      <-> firstn 3 buffer = [255; 216; 255])
  /\ (bytes buffer ->
      (validateFileType buffer "image/png" = true
       <-> firstn 8 buffer = png_signature))
  /\ (forall rest,
         validateFileType ([165; 208; 196; 198] ++ rest) "application/pdf"
         = true).
Proof.
  split; [|split; [|split; [|split; [|split]]]].
  - unfold validateFileType. cbv zeta.
    destruct (String.eqb_spec mimeType "application/pdf") as [->|_];
      [simpl; tauto|].
    destruct (String.eqb_spec mimeType "image/jpeg") as [->|_];
      [simpl; tauto|].
    destruct (String.eqb_spec mimeType "image/jpg") as [->|_];
      [simpl; tauto|].
    destruct (String.eqb_spec mimeType "image/png") as [->|_];
      [simpl; tauto|].
    discriminate.
  - unfold validateFileType. cbv zeta.
    change (String.eqb "application/pdf" "application/pdf") with true.
    cbv iota. rewrite firstn_firstn_le by lia. apply text_eqb_eq.
  - unfold validateFileType. cbv zeta.
    change (String.eqb "image/jpeg" "application/pdf") with false.
    change (String.eqb "image/jpeg" "image/jpeg") with true.
    cbv iota. cbn [orb]. rewrite firstn_firstn_le by lia. apply text_eqb_eq.
  - unfold validateFileType. cbv zeta.
    change (String.eqb "image/jpg" "application/pdf") with false.
    change (String.eqb "image/jpg" "image/jpeg") with false.
    change (String.eqb "image/jpg" "image/jpg") with true.
    cbv iota. cbn [orb]. rewrite firstn_firstn_le by lia. apply text_eqb_eq.
  - intros Hb. unfold validateFileType. cbv zeta.
    change (String.eqb "image/png" "application/pdf") with false.
    change (String.eqb "image/png" "image/jpeg") with false.
    change (String.eqb "image/png" "image/jpg") with false.
    change (String.eqb "image/png" "image/png") with true.
    cbv iota. cbn [orb]. rewrite firstn_firstn_le by lia.
    rewrite text_eqb_eq.
    change (str "89504e470d0a1a0a") with (hex png_signature).
    split; [|intros ->; reflexivity].
    apply hex_inj.
    + unfold bytes in *. apply Forall_forall. intros x Hx.
      rewrite Forall_forall in Hb. apply Hb. apply (In_firstn_In 8), Hx.
    + unfold bytes, png_signature. repeat constructor; lia.
  - intros rest. reflexivity.
Qed.

(** ** What normalization keeps *)

(** X17 — Normalization neither loses, adds nor reorders a digit.  A
    grouped number (digits, commas and periods) becomes a text of digits
    and periods alone, which a second normalization leaves as it is. *)
Theorem normalizeAmount_keeps_digits (raw : text) :
  filter is_digit (normalizeAmount raw) = filter is_digit raw
  /\ (is_grouped_number raw = true ->
      forallb (fun c => is_digit c || (c =? period)) (normalizeAmount raw)
      = true
      /\ normalizeAmount (normalizeAmount raw) = normalizeAmount raw).
Proof.
  split.
  - rewrite normalizeAmount_by_rule, normalize_by_rule_digits.
    apply trim_digits.
  - intros Hg.
    assert (Hdp : forallb (fun c => is_digit c || (c =? period))
                          (normalizeAmount raw) = true)
      by (apply grouped_normal_form, Hg).
    split; [exact Hdp|].
    set (r := normalizeAmount raw) in *.
    assert (Hgr : is_grouped_number r = true).
    { unfold is_grouped_number. rewrite forallb_forall in Hdp |- *.
      intros x Hx. specialize (Hdp x Hx).
      destruct (is_digit x); [reflexivity|]. cbn [orb] in Hdp |- *.
      rewrite Hdp. apply orb_true_r. }
    assert (Hnc : ~ In comma r).
    { unfold r. rewrite normalizeAmount_by_rule.
      apply normalize_by_rule_no_comma. }
    rewrite (normalizeAmount_by_rule r), trim_grouped by exact Hgr.
    unfold normalize_by_rule.
    destruct (ends_with_2_digits_after comma r) eqn:Ec.
    + apply ends_with_2_digits_after_iff in Ec as (body & d1 & d2 & E & _).
      exfalso. apply Hnc. rewrite E. apply in_or_app. right. left. reflexivity.
    + cbn [andb]. unfold us_rule.
      clear -Hnc. induction r as [|x r IH]; [reflexivity|]. cbn [filter].
      destruct (Z.eqb_spec x comma) as [->|_].
      * exfalso. apply Hnc. left; reflexivity.
      * cbn [negb]. f_equal. apply IH. intros H; apply Hnc; right; exact H.
Qed.

(** ** What the amount and currency pattern captures *)

Section CaptureFacts.
Variable ic : bool.

Lemma Captures_Matches r s rest c c' :
  Captures ic r s rest c c' -> Matches ic r s rest.
Proof. induction 1; econstructor; eassumption. Qed.

Lemma Captures_group_free r s rest c c' :
  group_free r = true -> Captures ic r s rest c c' -> c' = c.
Proof.
  intros Hg H; induction H; cbn [group_free] in Hg;
    try apply andb_true_iff in Hg as [Hg1 Hg2];
    try reflexivity; try discriminate; auto.
  - rewrite IHCaptures2, IHCaptures1; auto.
  - rewrite IHCaptures2, IHCaptures1; auto.
Qed.

Lemma star_loop_captures {A : Type} a (k : text -> caps -> option A) x :
  (forall s c (k' : text -> caps -> option A),
      rm ic a s c k' = Some x ->
      exists s1 rest c', s = s1 ++ rest /\ Captures ic a s1 rest c c'
                         /\ k' rest c' = Some x) ->
  forall n s c,
    star_loop (rm ic a) k n s c = Some x ->
    exists s1 rest c', s = s1 ++ rest /\ Captures ic (Star a) s1 rest c c'
                       /\ k rest c' = Some x.
Proof.
  intros Ha; induction n as [|n IHn]; intros s c H; simpl in H.
  - exists [], s, c; repeat split; [constructor | exact H].
  - match type of H with match ?m with _ => _ end = _ =>
      destruct m as [y|] eqn:E end.
    + injection H as ->.
      apply Ha in E as (s1 & rest1 & c1 & -> & Hm & Hk).
      destruct (length rest1 <? length (s1 ++ rest1))%nat eqn:Hl;
        [|discriminate].
      apply IHn in Hk as (s2 & rest & c' & -> & Hs & Hk).
      exists (s1 ++ s2), rest, c'; repeat split.
      * rewrite app_assoc; reflexivity.
      * eapply CStarS; eauto.
        intros ->; simpl in Hl; apply Nat.ltb_lt in Hl; lia.
      * exact Hk.
    + exists [], s, c; repeat split; [constructor | exact H].
Qed.

Lemma rm_captures r {A : Type} :
  forall s c (k : text -> caps -> option A) x,
    rm ic r s c k = Some x ->
    exists s1 rest c', s = s1 ++ rest /\ Captures ic r s1 rest c c'
                       /\ k rest c' = Some x.
Proof.
  induction r as [ | y | | neg rs | a IHa b IHb | a IHa b IHb | a IHa
                 | n a IHa | ]; intros s c k x H; simpl in H.
  - exists [], s, c; repeat split; [constructor | exact H].
  - destruct s as [|z t]; [discriminate|].
    destruct (canon ic y =? canon ic z) eqn:E; [|discriminate].
    apply Z.eqb_eq in E.
    exists [z], t, c; repeat split; [constructor; exact E | exact H].
  - destruct s as [|z t]; [discriminate|].
    exists [z], t, c; repeat split; [constructor | exact H].
  - destruct s as [|z t]; [discriminate|].
    destruct (xorb neg (in_class ic rs z)) eqn:E; [|discriminate].
    exists [z], t, c; repeat split; [constructor; exact E | exact H].
  - apply IHa in H as (s1 & rest1 & c1 & -> & Ha & H).
    apply IHb in H as (s2 & rest & c2 & -> & Hb & H).
    exists (s1 ++ s2), rest, c2; repeat split.
    + rewrite app_assoc; reflexivity.
    + econstructor; eassumption.
    + exact H.
  - destruct (rm ic a s c k) as [y|] eqn:E.
    + injection H as ->.
      apply IHa in E as (s1 & rest & c' & -> & Ha & H).
      exists s1, rest, c'; repeat split; [apply CAltL; exact Ha | exact H].
    + apply IHb in H as (s1 & rest & c' & -> & Hb & H).
      exists s1, rest, c'; repeat split; [apply CAltR; exact Hb | exact H].
  - change (star_loop (rm ic a) k (S (length s)) s c = Some x) in H.
    eapply star_loop_captures; [|exact H].
    intros s0 c0 k' Hk'; apply IHa in Hk'; exact Hk'.
  - apply IHa in H as (s1 & rest & c' & -> & Ha & H).
    exists s1, rest, ((n, s1) :: c').
    repeat split; [constructor; exact Ha|].
    rewrite length_app in H.
    replace (length s1 + length rest - length rest)%nat with (length s1)
      in H by lia.
    rewrite firstn_app, Nat.sub_diag, firstn_all, firstn_O, app_nil_r in H.
    exact H.
  - destruct s; [|discriminate].
    exists [], [], c; repeat split; [constructor | exact H].
Qed.

Lemma search_captures r i s m :
  search ic r i s = Some m ->
  exists pre s1 rest,
    s = pre ++ s1 ++ rest /\ Captures ic r s1 rest [] (m_caps m).
Proof.
  assert (Hhere : forall j t m',
             match_here ic r j t = Some m' ->
             exists s1 rest, t = s1 ++ rest
                             /\ Captures ic r s1 rest [] (m_caps m')).
  { unfold match_here. intros j t m' H.
    apply rm_captures in H as (s1 & rest & c' & -> & Hc & H).
    injection H as <-. exists s1, rest. split; [reflexivity | exact Hc]. }
  revert i; induction s as [|x s IH]; intros i H; simpl in H.
  - destruct (match_here ic r i []) eqn:E; [|discriminate].
    injection H as ->. apply Hhere in E as (s1 & rest & E & Hc).
    exists [], s1, rest. split; [exact E | exact Hc].
  - destruct (match_here ic r i (x :: s)) eqn:E.
    + injection H as ->. apply Hhere in E as (s1 & rest & E & Hc).
      exists [], s1, rest. split; [exact E | exact Hc].
    + apply IH in H as (pre & s1 & rest & -> & Hc).
      exists (x :: pre), s1, rest. split; [reflexivity | exact Hc].
Qed.

Lemma Matches_chars_ok (ok : Z -> bool) r s rest :
  Matches ic r s rest -> chars_ok ok ic r -> forallb ok s = true.
Proof.
  induction 1; cbn [chars_ok]; intros Hok;
    try reflexivity; try contradiction.
  - cbn [forallb]. rewrite (Hok y) by assumption. reflexivity.
  - cbn [forallb]. rewrite (Hok y) by assumption. reflexivity.
  - destruct Hok. rewrite forallb_app, IHMatches1, IHMatches2 by assumption.
    reflexivity.
  - destruct Hok. auto.
  - destruct Hok. auto.
  - rewrite forallb_app, IHMatches1, IHMatches2 by assumption. reflexivity.
  - auto.
Qed.
End CaptureFacts.

Lemma canon_caseless (x y : Z) :
  is_lower x = false -> is_upper x = false ->
  canon true x = canon true y -> y = x.
Proof.
  unfold canon, is_lower, is_upper. cbn [andb]. intros Hl Hu.
  apply andb_false_iff in Hl, Hu. rewrite !Z.leb_gt in Hl, Hu.
  destruct (Z.leb_spec 97 x); destruct (Z.leb_spec x 122);
    destruct (Z.leb_spec 97 y); destruct (Z.leb_spec y 122);
    cbn [andb]; lia.
Qed.

Lemma in_class_digit (y : Z) :
  in_class true [(48, 57)] y = true -> is_digit y = true.
Proof.
  unfold in_class, in_ranges. cbn [existsb fst snd andb].
  rewrite !orb_false_r. intros H.
  apply orb_true_iff in H as [H|H]; [exact H|].
  apply andb_true_iff in H as [H1 H2]. apply Z.leb_le in H1, H2.
  unfold is_digit. apply andb_true_iff. rewrite !Z.leb_le.
  unfold swapcase, is_lower, is_upper in H1, H2.
  destruct (Z.leb_spec 97 y), (Z.leb_spec y 122), (Z.leb_spec 65 y),
    (Z.leb_spec y 90); cbn [andb] in H1, H2; lia.
Qed.

Lemma in_class_separator (y : Z) :
  in_class true [(period, period); (comma, comma)] y = true ->
  y = period \/ y = comma.
Proof.
  unfold in_class, in_ranges, period, comma. cbn [existsb fst snd andb].
  rewrite !orb_false_r. intros H.
  assert (Hsw : swapcase y = 46 \/ swapcase y = 44 -> y = 46 \/ y = 44).
  { unfold swapcase, is_lower, is_upper.
    destruct (Z.leb_spec 97 y), (Z.leb_spec y 122), (Z.leb_spec 65 y),
      (Z.leb_spec y 90); cbn [andb]; lia. }
  rewrite !orb_true_iff, !andb_true_iff, !Z.leb_le in H. lia.
Qed.

Lemma number_chars_ok :
  chars_ok (fun c => is_digit c || (c =? comma) || (c =? period)) true number.
Proof.
  assert (Hd : forall y, xorb false (in_class true [(48, 57)] y) = true ->
                         is_digit y || (y =? comma) || (y =? period) = true).
  { intros y H. cbn [xorb] in H. rewrite (in_class_digit y H). reflexivity. }
  assert (Hs : forall y,
             xorb false
                  (in_class true [(period, period); (comma, comma)] y) = true ->
             is_digit y || (y =? comma) || (y =? period) = true).
  { intros y H. cbn [xorb] in H.
    apply in_class_separator in H as [->| ->];
      rewrite Z.eqb_refl, ?orb_true_r; reflexivity. }
  unfold number, Upto3, Opt, digit, separator.
  cbn [chars_ok Times]. auto 20.
Qed.

Lemma Matches_number ic (s rest : text) :
  Matches ic number s rest -> s <> [].
Proof.
  unfold number, Upto3. intros H.
  inversion H as [| | | |a b s1 s2 r H1 H2| | | | | |]; subst.
  inversion H1 as [| | | |a b t1 t2 r H3 H4| | | | | |]; subst.
  inversion H3; subst. discriminate.
Qed.

Lemma Matches_Lit_canon (w s rest : text) :
  Matches true (Lit w) s rest -> map (canon true) s = map (canon true) w.
Proof.
  revert s; induction w as [|x w IH]; intros s H; simpl in H.
  - inversion H; reflexivity.
  - inversion H as [| | | |a b s1 s2 r Hc Hl| | | | | |]; subst.
    inversion Hc as [|x0 y r Hxy| | | | | | | | |]; subst.
    cbn [app map]. rewrite Hxy, (IH _ Hl). reflexivity.
Qed.

Lemma currencySymbols_code (s rest : text) :
  Matches true currencySymbols s rest ->
  s <> [] /\ exists code, symbolToCode s = Some code /\ In code returned_codes.
Proof.
  intros H. unfold currencySymbols in H.
  apply Matches_Alts_inv in H as (r & Hin & Hr).
  assert (Hone : forall x y r0,
             is_lower x = false -> is_upper x = false ->
             Matches true (Chr x) y r0 -> y = [x]).
  { intros x y r0 Hl Hu Hm.
    inversion Hm as [|x0 y0 r1 Hxy| | | | | | | | |]; subst.
    rewrite (canon_caseless x y0 Hl Hu Hxy). reflexivity. }
  cbn [In] in Hin.
  destruct Hin as [<-|[<-|[<-|[<-|[<-|[]]]]]].
  - apply Hone in Hr; [subst s|reflexivity ..].
    split; [discriminate|]. exists (str "USD").
    split; [reflexivity | simpl; tauto].
  - apply Hone in Hr; [subst s|reflexivity ..].
    split; [discriminate|]. exists (str "EUR").
    split; [reflexivity | simpl; tauto].
  - apply Hone in Hr; [subst s|reflexivity ..].
    split; [discriminate|]. exists (str "GBP").
    split; [reflexivity | simpl; tauto].
  - apply Hone in Hr; [subst s|reflexivity ..].
    split; [discriminate|]. exists (str "ILS").
    split; [reflexivity | simpl; tauto].
  - inversion Hr as [| | | |a b s1 s2 r0 H1 H2| | | | | |]; subst.
    apply Hone in H1; [subst s1|reflexivity ..].
    apply Hone in H2; [subst s2|reflexivity ..].
    split; [discriminate|]. exists (str "ILS").
    split; [reflexivity | simpl; tauto].
Qed.

Lemma currencyCodes_code (s rest : text) :
  Matches true currencyCodes s rest ->
  s <> [] /\ In (normalizeCurrencyCode s) returned_codes.
Proof.
  intros H. unfold currencyCodes in H.
  apply Matches_Alts_inv in H as (r & Hin & Hr).
  apply in_map_iff in Hin as (k & <- & Hk).
  apply Matches_Lit_canon in Hr.
  assert (Hup : toUpperCase s = map (canon true) (str k)).
  { rewrite <- Hr. unfold toUpperCase. apply map_ext. intros c.
    unfold canon. reflexivity. }
  unfold normalizeCurrencyCode. cbv zeta. rewrite Hup.
  cbn [In] in Hk.
  destruct Hk as [<-|[<-|[<-|[<-|[<-|[<-|[<-|[]]]]]]]];
    (split; [destruct s; [discriminate Hr | discriminate] | simpl; tauto]).
Qed.

Lemma Captures_two_groups ic (n1 n2 : nat) (a sp b : regex)
      (s rest : text) (c' : caps) :
  group_free a = true -> group_free sp = true -> group_free b = true ->
  Captures ic (Seq (Grp n1 a) (Seq sp (Grp n2 b))) s rest [] c' ->
  exists u v w,
    s = u ++ v ++ w /\ Matches ic a u ((v ++ w) ++ rest)
    /\ Matches ic b w rest /\ c' = [(n2, w); (n1, u)].
Proof.
  intros Ga Gs Gb H.
  inversion H as [| | | |a0 b0 u s2 r0 c0 c1 c2 H1 Htail| | | | | |]; subst.
  inversion H1 as [| | | | | | | | |n a0 u0 r0 c0 ca Ha|]; subst.
  inversion Htail as [| | | |a0 b0 v w r0 c0 c3 c4 Hsp H2| | | | | |]; subst.
  inversion H2 as [| | | | | | | | |n a0 u0 r0 c0 cb Hb|]; subst.
  apply (Captures_group_free ic _ _ _ _ _ Gs) in Hsp. subst c3.
  pose proof (Captures_group_free ic _ _ _ _ _ Ga Ha) as ->.
  pose proof (Captures_group_free ic _ _ _ _ _ Gb Hb) as ->.
  exists u, v, w. repeat split.
  - apply (Captures_Matches ic _ _ _ _ _ Ha).
  - apply (Captures_Matches ic _ _ _ _ _ Hb).
Qed.

(** X18 — [parseInvoiceData] returns an amount and a currency together
    or neither of them.  When it returns them, the currency is one of
    USD, EUR, GBP, ILS, AUD and CAD (never NIS, and never undefined), and
    the amount is the normalization of a grouped number, not empty, that
    occurs in the cleaned text; so the amount consists of digits and
    periods. *)
Theorem parsed_amount_and_currency (rawText : text) :
  parseInvoiceData rawText = mkInvoiceData None None
  \/ exists num code,
       parseInvoiceData rawText
       = mkInvoiceData (Some (normalizeAmount num)) (Some code)
       /\ In code returned_codes
       /\ num <> []
       /\ is_grouped_number num = true
       /\ includes num (clean_text rawText) = true
       /\ forallb (fun c => is_digit c || (c =? period)) (normalizeAmount num)
          = true.
Proof.
  unfold parseInvoiceData. cbv zeta.
  set (content := clean_text rawText).
  unfold exec, currencyRegex.
  cbn [global regexp lastIndex ignoreCase pattern length Nat.ltb Nat.leb
       skipn fst].
  match goal with
  | |- context [search true ?r 0 content] =>
      destruct (search true r 0 content) as [m|] eqn:E
  end; cbn [fst]; [|left; reflexivity].
  apply search_captures in E as (pre & s1 & rest & Hcontent & Hc).
  assert (Hnum : forall num rest',
             Matches true number num rest' ->
             num <> [] /\ is_grouped_number num = true
             /\ forallb (fun c => is_digit c || (c =? period))
                        (normalizeAmount num) = true).
  { intros num rest' Hm.
    assert (Hg : is_grouped_number num = true)
      by (apply (Matches_chars_ok true _ _ _ _ Hm number_chars_ok)).
    split; [apply (Matches_number _ _ _ Hm)|]. split; [exact Hg|].
    apply (grouped_normal_form num Hg). }
  right.
  inversion Hc as [| | | | |a b s0 r0 c0 c' HL|a b s0 r0 c0 c' HR| | | |];
    subst.
  - apply Captures_two_groups in HL
        as (u & v & w & -> & Hsym & Hn & Hcaps); [|reflexivity ..].
    unfold group. rewrite Hcaps.
    destruct (currencySymbols_code _ _ Hsym) as (Hne & code & Hcode & Hin).
    destruct (Hnum _ _ Hn) as (Hn1 & Hn2 & Hn3).
    exists w, code.
    cbn [m_caps capture Nat.eqb group].
    destruct u as [|x u]; [contradiction|].
    destruct w as [|y w]; [contradiction|].
    cbn [truthy andb]. rewrite Hcode.
    repeat split; try assumption.
    rewrite Hcontent. apply includes_iff.
    exists (pre ++ (x :: u) ++ v), rest.
    rewrite <- !app_assoc. reflexivity.
  - apply Captures_two_groups in HR
        as (u & v & w & -> & Hn & Hcd & Hcaps); [|reflexivity ..].
    unfold group. rewrite Hcaps.
    destruct (currencyCodes_code _ _ Hcd) as (Hne & Hin).
    destruct (Hnum _ _ Hn) as (Hn1 & Hn2 & Hn3).
    exists u, (normalizeCurrencyCode w).
    cbn [m_caps capture Nat.eqb group].
    destruct u as [|x u]; [contradiction|].
    destruct w as [|y w]; [contradiction|].
    cbn [truthy andb].
    repeat split; try assumption.
    rewrite Hcontent. apply includes_iff.
    exists pre, ((v ++ y :: w) ++ rest).
    rewrite <- !app_assoc. reflexivity.
Qed.

(** ** Transactions (config/database.ts) *)

(** X19 — [transaction] and [query] give the client back exactly once
    whenever they obtained it, as their last call, and make no call after
    a failed [pool.connect()].  A transaction returns the result of the
    callback exactly when BEGIN, the callback and COMMIT all succeed, and
    then it issues no ROLLBACK; otherwise it issues ROLLBACK once and
    fails, with the error of ROLLBACK if that fails too.  COMMIT is never
    issued after a callback that failed or after a failed BEGIN. *)
Theorem transaction_releases_client
        {R A : Type} (pool_connect : completion unit)
        (client_query : string -> completion R) (callback : completion A)
        (text : string) :
  let t := Database.transaction pool_connect client_query callback in
  let q := Database.query pool_connect client_query text in
  (forall e, pool_connect = Thrown e ->
     t = ([Database.Connect], Thrown e) /\ q = ([Database.Connect], Thrown e))
  /\ (forall u, pool_connect = Normal u ->
      count_occ Database.event_eq_dec (fst t) Database.Release = 1%nat
      /\ last (fst t) Database.Connect = Database.Release
      /\ q = ([Database.Connect; Database.Query text; Database.Release],
              client_query text)
      /\ (forall r,
            snd t = Normal r <->
            (exists b c, client_query "BEGIN"%string = Normal b
                         /\ client_query "COMMIT"%string = Normal c)
            /\ callback = Normal r)
      /\ ((exists r, snd t = Normal r) <->
          ~ In (Database.Query "ROLLBACK") (fst t))
      /\ (count_occ Database.event_eq_dec (fst t) (Database.Query "ROLLBACK")
          <= 1)%nat
      /\ (In (Database.Query "COMMIT") (fst t) ->
          (exists b, client_query "BEGIN"%string = Normal b)
          /\ exists r, callback = Normal r)
      /\ (forall e, client_query "ROLLBACK"%string = Thrown e ->
            In (Database.Query "ROLLBACK") (fst t) -> snd t = Thrown e)).
Proof.
  cbv zeta. split.
  - intros e ->. split; reflexivity.
  - intros u ->.
    assert (Hq : Database.query (Normal u) client_query text
                 = ([Database.Connect; Database.Query text; Database.Release],
                    client_query text)).
    { unfold Database.query, Database.connect, Database.run, Database.release,
        Database.andThen, Database.tryFinally, Database.pure.
      destruct (client_query text); reflexivity. }
    rewrite Hq. clear Hq.
    unfold Database.transaction, Database.connect,
      Database.run, Database.release, Database.andThen, Database.tryCatch,
      Database.tryFinally, Database.pure, Database.raise.
    destruct (client_query "BEGIN"%string) as [b|eb];
      destruct callback as [r0|ec];
      destruct (client_query "COMMIT"%string) as [c|ecm];
      destruct (client_query "ROLLBACK"%string) as [rb|erb];
      cbn [fst snd app].
    all: split; [reflexivity|].
    all: split; [reflexivity|].
    all: split; [reflexivity|].
    all: split;
      [intros r; split;
       [intros H; first [discriminate H | split; [eauto | exact H]]
       |intros [(b' & c' & H1 & H2) H3]; congruence]|].
    all: split;
      [split;
       [first [intros (r & H); discriminate H
              |intros _ H; simpl in H; intuition discriminate]
       |first [intros _; eexists; reflexivity
              |intros H; exfalso; apply H;
               repeat (first [left; reflexivity | right])]]|].
    all: split; [vm_compute; repeat constructor|].
    all: split;
      [intros H; simpl in H; intuition (try discriminate; eauto)|].
    all: intros e He H;
      first [discriminate He
            |injection He as <-;
             first [reflexivity | simpl in H; intuition discriminate]].
Qed.

(** ** Updating a record (models/Expense.ts) *)






(** ** The pattern on ungrouped numbers *)

Section UngroupedFacts.
Context {A : Type}.
Variable k : text -> caps -> option A.



End UngroupedFacts.













